(** * powerstrip: a shallow embedding of the plugin runtime

    The development follows the Go sources of the repository:

    - [GoStrings], [Fmt], [Binary]: the fragments of the Go standard
      library ([strings.TrimSpace], [strings.SplitN], the [%d] and [%s]
      verbs of [fmt], [encoding/binary] on [uint32]) that the sources call;
    - [Broker]: [MuxBroker] ([NextId], [Dial], [Accept], [getStream]);
    - [RPCClientM]: [RPCClient.Close] and [RPCClient.Dispense];
    - [RPCServerM]: [RPCServer.done], [controlServer.Quit] and
      [dispenseServer.Dispense];
    - [Supervisor]: [Client.Start], [Client.Exited], [Client.Kill] and the
      tasks [Start] spawns;
    - [ServerMain]: the handshake line printed by [Serve].

    Go values are modelled as the code has them: an [error] is its message,
    [nil] is [None], a pair of results [(T, error)] is a pair of options,
    a [uint32] is an [N] reduced modulo [2^32], a [map] is a [gmap].
    Calls into the operating system, the network and the multiplexer are
    answered by an explicit environment and recorded in a trace of events. *)

From Stdlib Require Import NArith ZArith Lia List Ascii String DecimalString.
From stdpp Require Import gmap strings list.
Import ListNotations.

Local Open Scope string_scope.
Local Open Scope N_scope.

(** ** Go basics *)

(** A Go [error] value: only its message is observable here. *)
Definition error := string.

(** The [uint32] modulus and the wrap-around of unsigned arithmetic. *)
Definition uint32_mod : N := 2 ^ 32.
Definition wrap32 (n : N) : N := n mod uint32_mod.

(** The result of a call that can panic. *)
Inductive Outcome (A : Type) :=
| Returns (a : A)
| Panics (msg : string).
Arguments Returns {A} a.
Arguments Panics {A} msg.

Module Fmt.

(** The [%d] verb on an unsigned integer: its decimal digits. *)
Definition fmt_d (n : N) : string := NilEmpty.string_of_uint (N.to_uint n).

End Fmt.

(** ** [encoding/binary], little endian, on [uint32] *)

Module Binary.

Definition byte_of_N (n : N) : Byte.byte :=
  match Byte.of_N (n mod 256) with
  | Some b => b
  | None => Byte.x00
  end.

(** [binary.LittleEndian.PutUint32]: the four bytes written for [v]. *)
Definition PutUint32 (v : N) : list Byte.byte :=
  [ byte_of_N (N.land v 255);
    byte_of_N (N.land (N.shiftr v 8) 255);
    byte_of_N (N.land (N.shiftr v 16) 255);
    byte_of_N (N.land (N.shiftr v 24) 255) ].

(** [binary.LittleEndian.Uint32] on the four bytes read. *)
Definition Uint32 (b0 b1 b2 b3 : Byte.byte) : N :=
  N.lor (N.lor (N.lor (Byte.to_N b0) (N.shiftl (Byte.to_N b1) 8))
               (N.shiftl (Byte.to_N b2) 16))
        (N.shiftl (Byte.to_N b3) 24).

End Binary.

(** ** The [strings] package: [TrimSpace] and [SplitN] *)

Module GoStrings.

Definition byte_is (c : ascii) (n : N) : bool := N.eqb (N_of_ascii c) n.

(** The six ASCII white-space bytes: tab, line feed, vertical tab, form
    feed, carriage return and space. *)
Definition ascii_space (c : ascii) : bool :=
  byte_is c 9 || byte_is c 10 || byte_is c 11 || byte_is c 12
  || byte_is c 13 || byte_is c 32.

(** The two-byte UTF-8 encodings of white space: U+0085 and U+00A0. *)
Definition space2 (a b : ascii) : bool :=
  byte_is a 194 && (byte_is b 133 || byte_is b 160).

(** The three-byte encodings: U+1680, U+2000 to U+200A, U+2028, U+2029,
    U+202F, U+205F and U+3000. *)
Definition space3 (a b c : ascii) : bool :=
  (byte_is a 225 && byte_is b 154 && byte_is c 128)
  || (byte_is a 226 && byte_is b 128
      && ((N.leb 128 (N_of_ascii c) && N.leb (N_of_ascii c) 138)
          || byte_is c 168 || byte_is c 169 || byte_is c 175))
  || (byte_is a 226 && byte_is b 129 && byte_is c 159)
  || (byte_is a 227 && byte_is b 128 && byte_is c 128).

(** [TrimLeftFunc(s, unicode.IsSpace)] on the bytes of [s]. *)
Fixpoint trim_left (l : list ascii) : list ascii :=
  match l with
  | [] => []
  | a :: l1 =>
      if ascii_space a then trim_left l1
      else match l1 with
           | b :: l2 =>
               if space2 a b then trim_left l2
               else match l2 with
                    | c :: l3 => if space3 a b c then trim_left l3 else l
                    | [] => l
                    end
           | [] => l
           end
  end.

(** [TrimRightFunc(s, unicode.IsSpace)], on the reversed bytes: the head
    of [l] is the last byte of the string. *)
Fixpoint trim_right_rev (l : list ascii) : list ascii :=
  match l with
  | [] => []
  | c :: l1 =>
      if ascii_space c then trim_right_rev l1
      else match l1 with
           | b :: l2 =>
               if space2 b c then trim_right_rev l2
               else match l2 with
                    | a :: l3 => if space3 a b c then trim_right_rev l3 else l
                    | [] => l
                    end
           | [] => l
           end
  end.

Definition TrimSpace (s : string) : string :=
  string_of_list_ascii
    (rev (trim_right_rev (rev (trim_left (list_ascii_of_string s))))).

(** [strings.Index] and the cut it induces, for a one-byte separator:
    the text before the first separator and the text after it. *)
Fixpoint cut (sep : ascii) (s : string) : option (string * string) :=
  match s with
  | EmptyString => None
  | String c s' =>
      if Ascii.eqb c sep then Some (EmptyString, s')
      else match cut sep s' with
           | Some (a, b) => Some (String c a, b)
           | None => None
           end
  end.

(** The loop of [genSplit]: at most [k] cuts, then the remainder. *)
Fixpoint split_loop (sep : ascii) (k : nat) (s : string) : list string :=
  match k with
  | O => [s]
  | S k' =>
      match cut sep s with
      | None => [s]
      | Some (a, rest) => a :: split_loop sep k' rest
      end
  end.

(** [strings.SplitN(s, sep, n)] for a one-byte separator and [n >= 0];
    [genSplit] clamps [n] to [len(s) + 1] before it loops [n - 1] times. *)
Definition SplitN (s : string) (sep : ascii) (n : nat) : list string :=
  match n with
  | O => []
  | S k => split_loop sep (Nat.min k (String.length s)) s
  end.

End GoStrings.

(** ** Effects: calls answered by the environment, recorded in a trace *)

(** A multiplexed stream (a [net.Conn]) is named by a handle. *)
Definition Conn := positive.

(** The closable resources of a session. *)
Inductive Resource :=
| ResControl
| ResMux
| ResStream (c : Conn).

(** The tasks started with [go]. *)
Inductive Task :=
| TaskLogStderr
| TaskReaper
| TaskLineReader
| TaskAcceptAndServe (name : string) (id : N).

Inductive Event :=
| EvOpenStream
| EvWrite (c : Conn) (bs : list Byte.byte)
| EvRead (c : Conn) (n : nat)
| EvClose (r : Resource)
| EvCall (method arg : string)
| EvPluginServer (name : string)
| EvPluginClient (name : string) (c : option Conn)
| EvNextId (id : N)
| EvCmdStart
| EvProcessKill (pid : Z)
| EvGo (t : Task).

(** An action appends the events it causes to the trace and returns a
    value. *)
Definition Act (A : Type) : Type := list Event -> A * list Event.

#[global] Instance Act_ret : MRet Act := fun A x tr => (x, tr).
#[global] Instance Act_bind : MBind Act :=
  fun A B f m tr => let '(x, tr') := m tr in f x tr'.

Definition emit (e : Event) : Act unit := fun tr => (tt, (tr ++ [e])%list).

(** Run an action from the empty trace. *)
Definition run {A} (m : Act A) : A * list Event := m [].

(** ** The broker ([MuxBroker]) *)

Module Broker.

(** A pending rendezvous: the one-slot channel [ch] and whether [doneCh]
    has been closed. *)
Record muxBrokerPending := {
  ch : option Conn;
  doneCh_closed : bool
}.

(** What the broker sees of a [mux.Session]: the answers of the peer and
    of the transport. *)
Record Session := {
  open_stream : Conn + error;
  write_result : Conn -> list Byte.byte -> option error;
  read4_result : Conn -> (Byte.byte * Byte.byte * Byte.byte * Byte.byte) + error;
  close_result : Resource -> option error
}.

(** [streams] maps a stream ID to a pointer to its pending entry, and
    [pendings] is the store the pointers live in: [Accept] keeps its
    pointer across a [delete]. *)
Record MuxBroker := {
  nextId : N;
  session : Session;
  streams : gmap N positive;
  pendings : gmap positive muxBrokerPending
}.

Definition newMuxBroker (s : Session) : MuxBroker :=
  {| nextId := 0; session := s; streams := ∅; pendings := ∅ |}.

(** [atomic.AddUint32(&m.nextId, 1)]: the new value is returned. *)
Definition NextId (m : MuxBroker) : N * MuxBroker :=
  let v := wrap32 (nextId m + 1) in
  (v, {| nextId := v; session := session m;
         streams := streams m; pendings := pendings m |}).

(** The ID returned by the [n]-th call of a session, [n >= 1], and the
    broker after [n] calls. *)
Definition after_calls (n : N) (m : MuxBroker) : MuxBroker :=
  N.iter n (fun b => snd (NextId b)) m.

Definition nth_id (n : N) (m : MuxBroker) : N :=
  fst (NextId (after_calls (N.pred n) m)).

(** Session operations. *)
Definition OpenStream (s : Session) : Act (Conn + error) :=
  emit EvOpenStream;; mret (open_stream s).

Definition conn_Close (s : Session) (c : Conn) : Act (option error) :=
  emit (EvClose (ResStream c));; mret (close_result s (ResStream c)).

(** [MuxBroker.Close] closes the session. *)
Definition Close (m : MuxBroker) : Act (option error) :=
  emit (EvClose ResMux);; mret (close_result (session m) ResMux).

(** [binary.Write(c, binary.LittleEndian, id)] with [id] a [uint32]. *)
Definition binary_Write (s : Session) (c : Conn) (id : N) : Act (option error) :=
  emit (EvWrite c (Binary.PutUint32 id));;
  mret (write_result s c (Binary.PutUint32 id)).

(** [binary.Read(c, binary.LittleEndian, &ack)] with [ack] a [uint32]:
    four bytes are read in full, or the read fails. *)
Definition binary_Read (s : Session) (c : Conn) : Act (N + error) :=
  emit (EvRead c 4);;
  mret (match read4_result s c with
        | inl (b0, b1, b2, b3) => inl (Binary.Uint32 b0 b1 b2 b3)
        | inr e => inr e
        end).

Definition bad_ack (ack id : N) : error :=
  "bad ack: " +:+ Fmt.fmt_d ack +:+ " (expected " +:+ Fmt.fmt_d id +:+ ")".

Definition Dial (m : MuxBroker) (id : N) : Act (option Conn * option error) :=
  r ← OpenStream (session m);
  match r with
  | inr err => mret (None, Some err)
  | inl stream =>
      w ← binary_Write (session m) stream id;
      match w with
      | Some err => conn_Close (session m) stream;; mret (None, Some err)
      | None =>
          a ← binary_Read (session m) stream;
          match a with
          | inr err => conn_Close (session m) stream;; mret (None, Some err)
          | inl ack =>
              if negb (N.eqb ack id)
              then conn_Close (session m) stream;;
                   mret (None, Some (bad_ack ack id))
              else mret (Some stream, None)
          end
      end
  end.

(** [getStream]: the pending entry of [id], created when absent. The new
    entry is allocated at a pointer the store does not use yet. *)
Definition fresh_ptr (m : MuxBroker) : positive :=
  fresh (dom (pendings m)).

Definition getStream (m : MuxBroker) (id : N) : positive * MuxBroker :=
  match streams m !! id with
  | Some p => (p, m)
  | None =>
      let p := fresh_ptr m in
      (p, {| nextId := nextId m; session := session m;
             streams := <[id := p]> (streams m);
             pendings := <[p := {| ch := None; doneCh_closed := false |}]>
                           (pendings m) |})
  end.

(** Durations in nanoseconds, as [time.Duration]. *)
Definition Second : Z := 1000000000.
Definition acceptTimeout : Z := 5 * Second.

(** What happens while [Accept] waits in its [select]: [Run] hands a
    stream over to the entry [after] nanoseconds, or nothing arrives. *)
Inductive Wait :=
| Handoff (after : Z) (c : Conn)
| Silence.

(** The stream [Accept] receives from [p.ch], if any: one that is in the
    slot already, or one handed over before the timer fires. *)
Definition received (slot : option Conn) (w : Wait) : option Conn :=
  match slot with
  | Some c => Some c
  | None =>
      match w with
      | Handoff after c => if (after <? acceptTimeout)%Z then Some c else None
      | Silence => None
      end
  end.

Definition timeout_error : error := "timeout waiting for accept".

Definition set_pending (m : MuxBroker) (p : positive) (e : muxBrokerPending)
  : MuxBroker :=
  {| nextId := nextId m; session := session m; streams := streams m;
     pendings := <[p := e]> (pendings m) |}.

Definition delete_stream (m : MuxBroker) (id : N) : MuxBroker :=
  {| nextId := nextId m; session := session m;
     streams := delete id (streams m); pendings := pendings m |}.

(** The entry a pointer refers to. *)
Definition deref (m : MuxBroker) (p : positive) : muxBrokerPending :=
  default {| ch := None; doneCh_closed := false |} (pendings m !! p).

(** The entry [Accept] waits on: [p := m.getStream(id)]. *)
Definition awaited_entry (m : MuxBroker) (id : N) : muxBrokerPending :=
  deref (snd (getStream m id)) (fst (getStream m id)).

Definition Accept (m : MuxBroker) (id : N) (w : Wait)
  : Act (Outcome (option Conn * option error * MuxBroker)) :=
  let '(p, m1) := getStream m id in
  let e := deref m1 p in
  match received (ch e) w with
  | Some c =>
      (* case c = <-p.ch: close(p.doneCh) *)
      if doneCh_closed e then mret (Panics "close of closed channel")
      else
        let m2 := set_pending m1 p {| ch := None; doneCh_closed := true |} in
        a ← binary_Write (session m) c id;
        match a with
        | Some err => conn_Close (session m) c;; mret (Returns (None, Some err, m2))
        | None => mret (Returns (Some c, None, m2))
        end
  | None =>
      (* case <-time.After(5 * time.Second) *)
      mret (Returns (None, Some timeout_error, delete_stream m1 id))
  end.

End Broker.

(** ** Plugins *)

(** The objects a [Plugin] builds are opaque ([interface{}]); a name
    stands for each. *)
Definition Impl := string.

(** A [Plugin]: the results of its two constructors. *)
Record Plugin := {
  Server : option Impl * option error;
  Client : option Conn -> option Impl * option error
}.

(** ** The client runtime ([RPCClient]) *)

Module RPCClientM.

(** The RPC endpoint on the control stream: what the peer answers to
    [Control.Quit] and to [Dispenser.Dispense]. [control.Call] leaves the
    reply (here the [uint32] ID, initially zero) as the peer set it. *)
Record Control := {
  quit_reply : option error;
  dispense_reply : string -> N * option error;
  close_reply : option error
}.

(** [stdout] and [stderr] are streams of the broker's session. *)
Record RPCClient := {
  broker : Broker.MuxBroker;
  control : Control;
  plugins : gmap string Plugin;
  stdout : Conn;
  stderr : Conn
}.

Definition control_Call_Quit (c : RPCClient) : Act (option error) :=
  emit (EvCall "Control.Quit" "true");; mret (quit_reply (control c)).

Definition control_Call_Dispense (c : RPCClient) (name : string)
  : Act (N * option error) :=
  emit (EvCall "Dispenser.Dispense" name);;
  mret (dispense_reply (control c) name).

Definition control_Close (c : RPCClient) : Act (option error) :=
  emit (EvClose ResControl);; mret (close_reply (control c)).

Definition Close (c : RPCClient) : Act (option error) :=
  returnErr ← control_Call_Quit c;
  e1 ← control_Close c;
  match e1 with
  | Some err => mret (Some err)
  | None =>
      e2 ← Broker.conn_Close (Broker.session (broker c)) (stdout c);
      match e2 with
      | Some err => mret (Some err)
      | None =>
          e3 ← Broker.conn_Close (Broker.session (broker c)) (stderr c);
          match e3 with
          | Some err => mret (Some err)
          | None =>
              e4 ← Broker.Close (broker c);
              match e4 with
              | Some err => mret (Some err)
              | None => mret returnErr
              end
          end
      end
  end.

Definition unknown_plugin (name : string) : error :=
  "unknown plugin type: " +:+ name.

Definition plugin_Client (name : string) (p : Plugin) (conn : option Conn)
  : Act (option Impl * option error) :=
  emit (EvPluginClient name conn);; mret (Client p conn).

Definition Dispense (c : RPCClient) (name : string)
  : Act (option Impl * option error) :=
  match plugins c !! name with
  | None => mret (None, Some (unknown_plugin name))
  | Some p =>
      r ← control_Call_Dispense c name;
      match r with
      | (_, Some err) => mret (None, Some err)
      | (id, None) =>
          d ← Broker.Dial (broker c) id;
          match d with
          | (_, Some err) => mret (None, Some err)
          | (conn, None) => plugin_Client name p conn
          end
      end
  end.

End RPCClientM.

(** ** The server runtime ([RPCServer]) *)

Module RPCServerM.

Inductive chan_state := ChanOpen | ChanClosed.

(** The server and the channels it refers to. [DoneCh] is [nil] or names
    a channel of the store. *)
Record RPCServer := {
  Plugins : gmap string Plugin;
  DoneCh : option positive;
  chans : gmap positive chan_state;
  closes : nat  (* how many times a channel has been closed *)
}.

(** The server [Serve] builds: [doneCh := make(chan struct{})]. *)
Definition serve_server (ps : gmap string Plugin) : RPCServer :=
  {| Plugins := ps; DoneCh := Some 1%positive;
     chans := {[ 1%positive := ChanOpen ]}; closes := 0 |}.

(** [close(ch)]: panics on a closed channel. *)
Definition close_chan (s : RPCServer) (ch : positive)
  : Outcome RPCServer :=
  match chans s !! ch with
  | Some ChanOpen =>
      Returns {| Plugins := Plugins s; DoneCh := DoneCh s;
                        chans := <[ch := ChanClosed]> (chans s);
                        closes := S (closes s) |}
  | _ => Panics "close of closed channel"
  end.

(** [done], run under the server lock. *)
Definition done (s : RPCServer) : Outcome RPCServer :=
  match DoneCh s with
  | Some ch =>
      match close_chan s ch with
      | Returns s1 =>
          Returns {| Plugins := Plugins s1; DoneCh := None;
                            chans := chans s1; closes := closes s1 |}
      | Panics msg => Panics msg
      end
  | None => Returns s
  end.

(** [controlServer.Quit]: the response written and the error returned. *)
Definition Quit (s : RPCServer)
  : Outcome (option unit * option error * RPCServer) :=
  match done s with
  | Returns s1 => Returns (Some tt, None, s1)
  | Panics msg => Panics msg
  end.

(** [n] calls of [Quit] in a row: the results of the calls, or the panic
    of the first call that panics. *)
Fixpoint Quits (n : nat) (s : RPCServer)
  : Outcome (list (option unit * option error) * RPCServer) :=
  match n with
  | O => Returns ([], s)
  | S k =>
      match Quit s with
      | Returns (r, e, s1) =>
          match Quits k s1 with
          | Returns (rs, s2) => Returns ((r, e) :: rs, s2)
          | Panics msg => Panics msg
          end
      | Panics msg => Panics msg
      end
  end.

Record dispenseServer := {
  broker : Broker.MuxBroker;
  plugins : gmap string Plugin
}.

Definition plugin_Server (name : string) (p : Plugin)
  : Act (option Impl * option error) :=
  emit (EvPluginServer name);; mret (Server p).

Definition unknown_plugin (name : string) : error :=
  "unknown plugin type: " +:+ name.

(** [dispenseServer.Dispense]: the response written (if any), the error,
    and the server with its broker afterwards. A constructor's error is
    returned as [errors.New(err.Error())], the same message. *)
Definition Dispense (d : dispenseServer) (name : string)
  : Act (option N * option error * dispenseServer) :=
  match plugins d !! name with
  | None => mret (None, Some (unknown_plugin name), d)
  | Some p =>
      r ← plugin_Server name p;
      match r with
      | (_, Some err) => mret (None, Some err, d)
      | (_, None) =>
          let '(id, b) := Broker.NextId (broker d) in
          emit (EvNextId id);;
          emit (EvGo (TaskAcceptAndServe name id));;
          mret (Some id, None, {| broker := b; plugins := plugins d |})
      end
  end.

End RPCServerM.

(** ** The server's handshake line ([Serve]) *)

Module ServerMain.

Definition CoreProtocolVersion : N := 1.

Definition newline : string := String (ascii_of_N 10) EmptyString.

(** [fmt.Printf("%d|1|%s|%s\n", CoreProtocolVersion, network, address)]:
    what [Serve] prints for a listener with that network and address. *)
Definition handshake_output (network address : string) : string :=
  Fmt.fmt_d CoreProtocolVersion +:+ "|1|" +:+ network +:+ "|" +:+ address
  +:+ newline.

(** [bufio.Scanner.Text] with the default split function, on the first
    line of the output: the bytes before the first line feed, without a
    carriage return at their end. *)
Fixpoint until_lf (s : string) : string :=
  match s with
  | EmptyString => EmptyString
  | String c s' =>
      if GoStrings.byte_is c 10 then EmptyString else String c (until_lf s')
  end.

Fixpoint dropCR (s : string) : string :=
  match s with
  | EmptyString => EmptyString
  | String c EmptyString =>
      if GoStrings.byte_is c 13 then EmptyString else s
  | String c s' => String c (dropCR s')
  end.

Definition first_line (s : string) : string := dropCR (until_lf s).

End ServerMain.

(** ** The process supervisor ([Client]) *)

Module Supervisor.

(** [net.TCPAddr] and [net.UnixAddr]. *)
Record TCPAddr := { IP : list Byte.byte; Port : Z; Zone : string }.
Record UnixAddr := { Name : string; Net : string }.

(** A non-nil [net.Addr]: its dynamic type and the pointer it holds,
    which may itself be nil. A nil [net.Addr] is [None : option Addr]. *)
Inductive Addr :=
| AddrTCP (a : option TCPAddr)
| AddrUnix (a : option UnixAddr).

Definition Network (a : Addr) : string :=
  match a with
  | AddrTCP _ => "tcp"
  | AddrUnix (Some u) => Net u
  | AddrUnix None => "unix"
  end.

Record Process := { Pid : Z }.

Record ClientConfig := { StartTimeout : Z }.

Definition Minute : Z := 60 * Broker.Second.

(** The fields of [Client]. [doneCtx] is [None] before the context is
    created and then tells whether it has been cancelled; each wait group
    is its counter; [proto] tells whether a client runtime is cached. *)
Record Client := {
  config : ClientConfig;
  exited : bool;
  addr : option Addr;
  proc : option Process;
  proto : bool;
  doneCtx : option bool;
  clientWg : nat;
  stderrWg : nat;
  procKilled : bool
}.

Definition NewClient (cfg : ClientConfig) : Client :=
  {| config :=
       {| StartTimeout :=
            if (StartTimeout cfg =? 0)%Z then Minute else StartTimeout cfg |};
     exited := false; addr := None; proc := None; proto := false;
     doneCtx := None; clientWg := 0; stderrWg := 0; procKilled := false |}.

Definition set_addr (c : Client) (a : option Addr) : Client :=
  {| config := config c; exited := exited c; addr := a; proc := proc c;
     proto := proto c; doneCtx := doneCtx c; clientWg := clientWg c;
     stderrWg := stderrWg c; procKilled := procKilled c |}.

Definition set_proc (c : Client) (p : option Process) : Client :=
  {| config := config c; exited := exited c; addr := addr c; proc := p;
     proto := proto c; doneCtx := doneCtx c; clientWg := clientWg c;
     stderrWg := stderrWg c; procKilled := procKilled c |}.

Definition set_exited (c : Client) (b : bool) : Client :=
  {| config := config c; exited := b; addr := addr c; proc := proc c;
     proto := proto c; doneCtx := doneCtx c; clientWg := clientWg c;
     stderrWg := stderrWg c; procKilled := procKilled c |}.

Definition set_proto (c : Client) (b : bool) : Client :=
  {| config := config c; exited := exited c; addr := addr c; proc := proc c;
     proto := b; doneCtx := doneCtx c; clientWg := clientWg c;
     stderrWg := stderrWg c; procKilled := procKilled c |}.

Definition set_doneCtx (c : Client) (d : option bool) : Client :=
  {| config := config c; exited := exited c; addr := addr c; proc := proc c;
     proto := proto c; doneCtx := d; clientWg := clientWg c;
     stderrWg := stderrWg c; procKilled := procKilled c |}.

Definition set_clientWg (c : Client) (n : nat) : Client :=
  {| config := config c; exited := exited c; addr := addr c; proc := proc c;
     proto := proto c; doneCtx := doneCtx c; clientWg := n;
     stderrWg := stderrWg c; procKilled := procKilled c |}.

Definition set_stderrWg (c : Client) (n : nat) : Client :=
  {| config := config c; exited := exited c; addr := addr c; proc := proc c;
     proto := proto c; doneCtx := doneCtx c; clientWg := clientWg c;
     stderrWg := n; procKilled := procKilled c |}.

Definition set_procKilled (c : Client) (b : bool) : Client :=
  {| config := config c; exited := exited c; addr := addr c; proc := proc c;
     proto := proto c; doneCtx := doneCtx c; clientWg := clientWg c;
     stderrWg := stderrWg c; procKilled := b |}.

(** [Exited], under the lock. *)
Definition Exited (c : Client) : bool := exited c.

(** Which case of the [select] of [Start] fires. A receive from the
    closed [linesCh] yields the empty line. *)
Inductive Awaited :=
| GotTimeout
| GotDone
| GotLine (line : string).

(** What the operating system answers during one call of [Start]. *)
Record StartEnv := {
  stdoutPipe_err : option error;
  stderrPipe_err : option error;
  cmdStart_err : option error;
  cmdProcess : Process;
  awaited : Awaited
}.

Definition timeout_error : error := "timeout while waiting for plugin to start".
Definition exited_error : error := "plugin exited before we could connect".

Definition unrecognized_error (line : string) : error :=
  "Unrecognized remote plugin message: " +:+ line
  +:+ ServerMain.newline +:+ ServerMain.newline
  +:+ "This usually means that the plugin is either invalid or simply"
  +:+ ServerMain.newline
  +:+ "needs to be recompiled to support the latest protocol.".

Definition unknown_type_error (family : string) : error :=
  "Unknown address type: " +:+ family.

(** The local variables of [Start] when its [select] statement is left:
    [sel_return] holds the operands of a [return] statement executed
    inside it ([Start] has unnamed results, so they are not stored in any
    variable); [sel_addr] and [sel_err] are the variables [addr] and
    [err]. *)
Record Selected := {
  sel_return : option (option Addr * option error);
  sel_addr : option Addr;
  sel_err : option error
}.

Section Start.

(** [net.ResolveTCPAddr] and [net.ResolveUnixAddr]. *)
Variable ResolveTCPAddr : string -> string -> option TCPAddr * option error.
Variable ResolveUnixAddr : string -> string -> option UnixAddr * option error.

(** The [switch parts[0]] of the line case: the new values of [addr] and
    [err]. Assigning a pointer to the interface variable [addr] makes it
    non-nil whatever the pointer. *)
Definition resolve (family address : string) : option Addr * option error :=
  if String.eqb family "tcp" then
    let '(a, e) := ResolveTCPAddr "tcp" address in (Some (AddrTCP a), e)
  else if String.eqb family "unix" then
    let '(a, e) := ResolveUnixAddr "unix" address in (Some (AddrUnix a), e)
  else (None, Some (unknown_type_error family)).

(** The [select] statement; [err] is the variable's value before it. *)
Definition select_stmt (err : option error) (ev : Awaited) : Selected :=
  match ev with
  | GotTimeout =>
      {| sel_return := Some (None, Some timeout_error);
         sel_addr := None; sel_err := err |}
  | GotDone =>
      {| sel_return := Some (None, Some exited_error);
         sel_addr := None; sel_err := err |}
  | GotLine line0 =>
      let line := GoStrings.TrimSpace line0 in
      let parts := GoStrings.SplitN line "|" 2 in
      if (length parts <? 2)%nat then
        {| sel_return := Some (None, Some (unrecognized_error line));
           sel_addr := None; sel_err := err |}
      else
        let '(a, e) := resolve (nth 0 parts "") (nth 1 parts "") in
        match e with
        | Some _ => {| sel_return := Some (a, e); sel_addr := a; sel_err := e |}
        | None => {| sel_return := None; sel_addr := a; sel_err := e |}
        end
  end.

(** The three tasks [Start] spawns, with the wait-group increments. *)
Definition spawn_tasks (c : Client) : Act Client :=
  let c1 := set_stderrWg (set_clientWg c (S (clientWg c))) (S (stderrWg c)) in
  emit (EvGo TaskLogStderr);;
  let c2 := set_clientWg c1 (S (clientWg c1)) in
  emit (EvGo TaskReaper);;
  let c3 := set_clientWg c2 (S (clientWg c2)) in
  emit (EvGo TaskLineReader);;
  mret c3.

(** The deferred guard: it reads the variable [err]. *)
Definition deferred_guard (err : option error) (p : Process) : Act unit :=
  match err with
  | Some _ => emit (EvProcessKill (Pid p))
  | None => mret tt
  end.

(** [Start], under the lock: the two results and the client afterwards. *)
Definition Start (c : Client) (env : StartEnv)
  : Act (option Addr * option error * Client) :=
  match addr c with
  | Some a => mret (Some a, None, c)
  | None =>
      match stdoutPipe_err env with
      | Some err => mret (None, Some err, c)
      | None =>
          match stderrPipe_err env with
          | Some err => mret (None, Some err, c)
          | None =>
              emit EvCmdStart;;
              match cmdStart_err env with
              | Some err => mret (None, Some err, c)
              | None =>
                  let err : option error := None in
                  let p := cmdProcess env in
                  let c1 := set_doneCtx (set_proc c (Some p)) (Some false) in
                  c2 ← spawn_tasks c1;
                  let sel := select_stmt err (awaited env) in
                  match sel_return sel with
                  | Some (ra, re) =>
                      deferred_guard (sel_err sel) p;;
                      mret (ra, re, c2)
                  | None =>
                      let c3 := set_addr c2 (sel_addr sel) in
                      deferred_guard (sel_err sel) p;;
                      mret (sel_addr sel, None, c3)
                  end
              end
          end
      end
  end.

End Start.

(** *** The tasks of a started supervisor, interleaved

    After [Start] has spawned the child, four threads of control touch the
    client: the stderr forwarder ([logStderr]), the reaper, the stdout
    line reader, and the caller of [Kill]. Each is a program counter; a
    step of the system is a step of one of them, chosen by a label, or
    the child terminating on its own. A step that would block is not
    enabled. Critical sections under the lock [c.l] are single steps. *)

(** The reaper: [c.stderrWg.Wait()], [cmd.Wait()], [c.exited = true]
    under the lock, then its deferred calls in reverse order:
    [c.clientWg.Done()], [c.ctxCancel()]. *)
Inductive reaper_pc :=
| RWaitStderr | RWaitChild | RSetExited | RClientWgDone | RCancel | RExit.

(** [logStderr]: reading until end of file or an error, then
    [c.stderrWg.Done()] and [c.clientWg.Done()]. *)
Inductive fwd_pc := FRead | FStderrWgDone | FClientWgDone | FExit.

(** The line reader: [sc.Scan()], the send on [linesCh], and at the end
    [close(linesCh)] and [c.clientWg.Done()]. *)
Inductive lines_pc := LnScan | LnSend | LnCloseCh | LnClientWgDone | LnExit.

(** [Kill]: the snapshot of [proc] and [addr], the graceful attempt, the
    wait on [doneCtx], [proc.Kill()], [procKilled = true], and the
    deferred [c.clientWg.Wait()] and [c.proc = nil]. *)
Inductive kill_pc :=
| KIdle
| KSnapshot
| KGraceful (p : Process) (a : option Addr)
| KAwaitExit (p : Process)
| KForce (p : Process)
| KMark
| KJoin
| KClear.

Record World := {
  cl : Client;
  child_alive : bool;
  start_receiving : bool;  (* the select of Start can still take a line *)
  reaper : reaper_pc;
  fwd : fwd_pc;
  lines : lines_pc;
  kill : kill_pc;
  kills_returned : nat
}.

Definition with_cl (w : World) (c : Client) : World :=
  {| cl := c; child_alive := child_alive w;
     start_receiving := start_receiving w; reaper := reaper w; fwd := fwd w;
     lines := lines w; kill := kill w; kills_returned := kills_returned w |}.

Definition with_reaper (w : World) (pc : reaper_pc) : World :=
  {| cl := cl w; child_alive := child_alive w;
     start_receiving := start_receiving w; reaper := pc; fwd := fwd w;
     lines := lines w; kill := kill w; kills_returned := kills_returned w |}.

Definition with_fwd (w : World) (pc : fwd_pc) : World :=
  {| cl := cl w; child_alive := child_alive w;
     start_receiving := start_receiving w; reaper := reaper w; fwd := pc;
     lines := lines w; kill := kill w; kills_returned := kills_returned w |}.

Definition with_lines (w : World) (pc : lines_pc) : World :=
  {| cl := cl w; child_alive := child_alive w;
     start_receiving := start_receiving w; reaper := reaper w; fwd := fwd w;
     lines := pc; kill := kill w; kills_returned := kills_returned w |}.

Definition with_kill (w : World) (pc : kill_pc) : World :=
  {| cl := cl w; child_alive := child_alive w;
     start_receiving := start_receiving w; reaper := reaper w; fwd := fwd w;
     lines := lines w; kill := pc; kills_returned := kills_returned w |}.

Definition with_child (w : World) (alive : bool) : World :=
  {| cl := cl w; child_alive := alive;
     start_receiving := start_receiving w; reaper := reaper w; fwd := fwd w;
     lines := lines w; kill := kill w; kills_returned := kills_returned w |}.

Definition with_receiving (w : World) (b : bool) : World :=
  {| cl := cl w; child_alive := child_alive w;
     start_receiving := b; reaper := reaper w; fwd := fwd w;
     lines := lines w; kill := kill w; kills_returned := kills_returned w |}.

Definition kill_returns (w : World) : World :=
  {| cl := cl w; child_alive := child_alive w;
     start_receiving := start_receiving w; reaper := reaper w; fwd := fwd w;
     lines := lines w; kill := KIdle; kills_returned := S (kills_returned w) |}.

(** The system right after [Start] has spawned its tasks, for the client
    [Start] leaves; nobody has called [Kill] yet. *)
Definition world_after_start (c : Client) : World :=
  {| cl := c; child_alive := true; start_receiving := true;
     reaper := RWaitStderr; fwd := FRead; lines := LnScan;
     kill := KIdle; kills_returned := 0 |}.

Inductive Label :=
| LChildExits                       (* the child terminates on its own *)
| LReaper                           (* the reaper's next step *)
| LFwd                              (* the forwarder's next step *)
| LLines (more : bool)              (* the reader's next step; at the scan,
                                       whether there is one more line *)
| LKill                             (* the next step of the Kill caller *)
| LKillClose (proto_ok close_ok : bool)
                                    (* the graceful attempt: whether
                                       newRPCClient and Close succeed *)
| LKillTimer.                       (* the two seconds elapse *)

(** [WaitGroup.Done]: a negative counter panics, which no step models. *)
Definition wg_done (n : nat) : option nat :=
  match n with
  | O => None
  | S k => Some k
  end.

Definition step_reaper (w : World) : option World :=
  match reaper w with
  | RWaitStderr =>
      if (stderrWg (cl w) =? 0)%nat then Some (with_reaper w RWaitChild) else None
  | RWaitChild =>
      if child_alive w then None else Some (with_reaper w RSetExited)
  | RSetExited =>
      Some (with_reaper (with_cl w (set_exited (cl w) true)) RClientWgDone)
  | RClientWgDone =>
      k ← wg_done (clientWg (cl w));
      Some (with_reaper (with_cl w (set_clientWg (cl w) k)) RCancel)
  | RCancel =>
      Some (with_reaper (with_cl w (set_doneCtx (cl w) (Some true))) RExit)
  | RExit => None
  end.

Definition step_fwd (w : World) : option World :=
  match fwd w with
  | FRead => Some (with_fwd w FStderrWgDone)
  | FStderrWgDone =>
      k ← wg_done (stderrWg (cl w));
      Some (with_fwd (with_cl w (set_stderrWg (cl w) k)) FClientWgDone)
  | FClientWgDone =>
      k ← wg_done (clientWg (cl w));
      Some (with_fwd (with_cl w (set_clientWg (cl w) k)) FExit)
  | FExit => None
  end.

Definition step_lines (more : bool) (w : World) : option World :=
  match lines w with
  | LnScan => Some (with_lines w (if more then LnSend else LnCloseCh))
  | LnSend =>
      if start_receiving w
      then Some (with_lines (with_receiving w false) LnScan)
      else None
  | LnCloseCh => Some (with_lines w LnClientWgDone)
  | LnClientWgDone =>
      k ← wg_done (clientWg (cl w));
      Some (with_lines (with_cl w (set_clientWg (cl w) k)) LnExit)
  | LnExit => None
  end.

(** [Protocol] inside [Kill]: [Start] returns the cached address, and a
    cached runtime is returned as it is; otherwise [newRPCClient] runs and
    its result is cached on success. *)
Definition Protocol (c : Client) (proto_ok : bool) : bool * Client :=
  if proto c then (true, c) else (proto_ok, set_proto c proto_ok).

Definition step_kill (l : Label) (w : World) : option World :=
  match kill w, l with
  | KIdle, LKill => Some (with_kill w KSnapshot)
  | KSnapshot, LKill =>
      match proc (cl w) with
      | None => Some (kill_returns w)
      | Some p => Some (with_kill w (KGraceful p (addr (cl w))))
      end
  | KGraceful p None, LKill => Some (with_kill w (KForce p))
  | KGraceful p (Some _), LKillClose proto_ok close_ok =>
      let '(ok, c) := Protocol (cl w) proto_ok in
      let graceful := ok && close_ok in
      Some (with_kill (with_cl w c) (if graceful then KAwaitExit p else KForce p))
  | KAwaitExit p, LKill =>
      match doneCtx (cl w) with
      | Some true => Some (with_kill w KJoin)
      | _ => None
      end
  | KAwaitExit p, LKillTimer => Some (with_kill w (KForce p))
  | KForce p, LKill => Some (with_kill (with_child w false) KMark)
  | KMark, LKill =>
      Some (with_kill (with_cl w (set_procKilled (cl w) true)) KJoin)
  | KJoin, LKill =>
      if (clientWg (cl w) =? 0)%nat then Some (with_kill w KClear) else None
  | KClear, LKill =>
      Some (kill_returns (with_cl w (set_proc (cl w) None)))
  | _, _ => None
  end.

Definition step (l : Label) (w : World) : option World :=
  match l with
  | LChildExits => Some (with_child w false)
  | LReaper => step_reaper w
  | LFwd => step_fwd w
  | LLines more => step_lines more w
  | LKill | LKillClose _ _ | LKillTimer => step_kill l w
  end.

(** A schedule is a list of labels; it runs as long as each step is
    enabled. *)
Fixpoint exec (ls : list Label) (w : World) : option World :=
  match ls with
  | [] => Some w
  | l :: ls' =>
      match step l w with
      | Some w' => exec ls' w'
      | None => None
      end
  end.

End Supervisor.

(** ** Concrete inputs used by the examples below *)

Module Fixtures.

(** A session whose peer acknowledges with the ID 7. *)
Definition session7 : Broker.Session :=
  {| Broker.open_stream := inl 3%positive;
     Broker.write_result := fun _ _ => None;
     Broker.read4_result :=
       fun _ => inl (Byte.x07, Byte.x00, Byte.x00, Byte.x00);
     Broker.close_result := fun _ => None |}.

Definition broker7 : Broker.MuxBroker := Broker.newMuxBroker session7.

(** A plugin whose constructors succeed. *)
Definition test_plugin : Plugin :=
  {| Server := (Some "testInterfaceServer", None);
     Client := fun _ => (Some "testInterfaceClient", None) |}.

Definition testPluginMap : gmap string Plugin := {[ "test" := test_plugin ]}.

(** A session in which every close succeeds except those listed. *)
Definition session_closing (failing : Resource -> option error)
  : Broker.Session :=
  {| Broker.open_stream := inl 3%positive;
     Broker.write_result := fun _ _ => None;
     Broker.read4_result :=
       fun _ => inl (Byte.x07, Byte.x00, Byte.x00, Byte.x00);
     Broker.close_result := failing |}.

(** A client runtime whose peer answers [Control.Quit] with an error and
    whose control endpoint fails to close. *)
Definition client_failing : RPCClientM.RPCClient :=
  {| RPCClientM.broker := Broker.newMuxBroker (session_closing (fun _ => None));
     RPCClientM.control :=
       {| RPCClientM.quit_reply := Some "connection is shut down";
          RPCClientM.dispense_reply := fun _ => (7, None);
          RPCClientM.close_reply := Some "close control: broken pipe" |};
     RPCClientM.plugins := testPluginMap;
     RPCClientM.stdout := 1%positive;
     RPCClientM.stderr := 2%positive |}.

(** A client runtime whose peer answers [Control.Quit] with an error and
    whose closes all succeed. *)
Definition client_quit_failing : RPCClientM.RPCClient :=
  {| RPCClientM.broker := Broker.newMuxBroker (session_closing (fun _ => None));
     RPCClientM.control :=
       {| RPCClientM.quit_reply := Some "connection is shut down";
          RPCClientM.dispense_reply := fun _ => (7, None);
          RPCClientM.close_reply := None |};
     RPCClientM.plugins := testPluginMap;
     RPCClientM.stdout := 1%positive;
     RPCClientM.stderr := 2%positive |}.

Definition dispenser : RPCServerM.dispenseServer :=
  {| RPCServerM.broker := broker7; RPCServerM.plugins := testPluginMap |}.

(** Resolvers that answer as [net] does on the addresses of the tests:
    [":1234"] is port 1234 on any host, and a Unix address is its path. *)
Definition resolveTCP (network address : string)
  : option Supervisor.TCPAddr * option error :=
  if String.eqb address ":1234"
  then (Some {| Supervisor.IP := []; Supervisor.Port := 1234;
                Supervisor.Zone := "" |}, None)
  else (None, Some ("address " +:+ address +:+ ": missing port in address")).

Definition resolveUnix (network address : string)
  : option Supervisor.UnixAddr * option error :=
  (Some {| Supervisor.Name := address; Supervisor.Net := network |}, None).

Definition child : Supervisor.Process := {| Supervisor.Pid := 4242 |}.

(** A spawn that succeeds, followed by the given case of the select. *)
Definition spawn_ok (p : Supervisor.Process) (ev : Supervisor.Awaited)
  : Supervisor.StartEnv :=
  {| Supervisor.stdoutPipe_err := None;
     Supervisor.stderrPipe_err := None;
     Supervisor.cmdStart_err := None;
     Supervisor.cmdProcess := p;
     Supervisor.awaited := ev |}.

Definition spawned (ev : Supervisor.Awaited) : Supervisor.StartEnv :=
  spawn_ok child ev.

Definition fresh_client : Supervisor.Client :=
  Supervisor.NewClient {| Supervisor.StartTimeout := 0 |}.

(** The client after a [Start] that read the line of the mock plugin. *)
Definition started_client : Supervisor.Client :=
  snd (fst (run (Supervisor.Start resolveTCP resolveUnix fresh_client
                   (spawned (Supervisor.GotLine "tcp|:1234"))))).

(** A run of the started supervisor in which the forwarder and the line
    reader reach end of file, [Kill] is called, the graceful attempt
    fails, the child is killed, the reaper records the exit, and [Kill]
    joins the tasks and returns. *)
Definition forced_kill : list Supervisor.Label :=
  [ Supervisor.LFwd; Supervisor.LFwd; Supervisor.LFwd;
    Supervisor.LLines false; Supervisor.LLines false; Supervisor.LLines false;
    Supervisor.LKill; Supervisor.LKill;
    Supervisor.LKillClose false false;
    Supervisor.LKill; Supervisor.LKill;
    Supervisor.LReaper; Supervisor.LReaper; Supervisor.LReaper;
    Supervisor.LReaper; Supervisor.LReaper;
    Supervisor.LKill; Supervisor.LKill ].

Definition killed_world : Supervisor.World :=
  default (Supervisor.world_after_start started_client)
          (Supervisor.exec forced_kill
             (Supervisor.world_after_start started_client)).

End Fixtures.

(** * Properties *)

(** ** The broker's ID allocator *)

Section NextIdFacts.

Import Broker.

Variable s : Session.

Lemma nextId_NextId (m : MuxBroker) :
  nextId (snd (NextId m)) = fst (NextId m).
Proof. reflexivity. Qed.

Lemma nextId_after_calls (n : N) (m : MuxBroker) :
  nextId m < uint32_mod ->
  nextId (after_calls n m) = wrap32 (nextId m + n).
Proof.
  intros Hm. unfold after_calls.
  induction n as [|n IH] using N.peano_ind.
  - cbn. unfold wrap32. rewrite N.add_0_r. symmetry. now apply N.mod_small.
  - rewrite N.iter_succ, nextId_NextId. cbn [NextId fst]. rewrite IH.
    unfold wrap32, uint32_mod.
    rewrite N.Div0.add_mod_idemp_l.
    f_equal. lia.
Qed.

Lemma nth_id_wrap (n : N) :
  1 <= n -> nth_id n (newMuxBroker s) = wrap32 n.
Proof.
  intros Hn. unfold nth_id. cbn [NextId fst].
  rewrite nextId_after_calls by (cbn; unfold uint32_mod; lia).
  cbn [newMuxBroker nextId]. unfold wrap32, uint32_mod.
  rewrite N.add_0_l, N.Div0.add_mod_idemp_l.
  f_equal. lia.
Qed.

End NextIdFacts.

(** C4, as amended. The counter starts at 0 and is incremented before
    use, in arithmetic modulo 2^32: the [i]-th call of a session returns
    [i mod 2^32], hence [i] itself for the first [2^32 - 1] calls (the
    first call returns 1); two calls return the same ID exactly when their
    ranks are congruent modulo 2^32, so the IDs of two distinct calls
    differ as long as both ranks are below 2^32. *)
Theorem NextId_nth_mod (s : Broker.Session) (i j : N) :
  1 <= i -> 1 <= j ->
  Broker.nextId (Broker.newMuxBroker s) = 0
  /\ Broker.nth_id i (Broker.newMuxBroker s) = i mod 2 ^ 32
  /\ (i < 2 ^ 32 -> Broker.nth_id i (Broker.newMuxBroker s) = i)
  /\ (Broker.nth_id i (Broker.newMuxBroker s)
      = Broker.nth_id j (Broker.newMuxBroker s)
      <-> i mod 2 ^ 32 = j mod 2 ^ 32)
  /\ (i < 2 ^ 32 -> j < 2 ^ 32 -> i <> j ->
      Broker.nth_id i (Broker.newMuxBroker s)
      <> Broker.nth_id j (Broker.newMuxBroker s)).
Proof.
  intros Hi Hj.
  rewrite !nth_id_wrap by assumption. unfold wrap32, uint32_mod.
  repeat split; try tauto.
  - intros Hlt. now apply N.mod_small.
  - intros Hi' Hj' Hne. rewrite !N.mod_small by assumption. exact Hne.
Qed.

Lemma NextId_nth_mod_witness :
  Broker.nth_id 1 Fixtures.broker7 = 1
  /\ Broker.nth_id 1 Fixtures.broker7 <> Broker.nth_id 2 Fixtures.broker7.
Proof.
  assert (H1 : 1 <= 1) by lia. assert (H2 : 1 <= 2) by lia.
  destruct (NextId_nth_mod Fixtures.session7 1 2 H1 H2)
    as (_ & _ & Hsmall & _ & Hne).
  split.
  - apply Hsmall. reflexivity.
  - apply Hne; [reflexivity | reflexivity | discriminate].
Defined.

(** C4 as stated fails once the counter wraps: the call of rank 2^32
    returns 0, not 2^32, and the call of rank 2^32 + 1 returns 1, the ID
    the first call returned. *)
Lemma NextId_reuse_after_wrap :
  Broker.nth_id (2 ^ 32) Fixtures.broker7 <> 2 ^ 32
  /\ (1 <> 2 ^ 32 + 1
      /\ Broker.nth_id 1 Fixtures.broker7
         = Broker.nth_id (2 ^ 32 + 1) Fixtures.broker7).
Proof.
  unfold Fixtures.broker7.
  rewrite !nth_id_wrap by (vm_compute; discriminate).
  vm_compute. repeat split; discriminate.
Qed.

(** ** The broker's [Dial] *)

Lemma to_N_byte_of_N (n : N) : Byte.to_N (Binary.byte_of_N n) = n mod 256.
Proof.
  unfold Binary.byte_of_N.
  destruct (Byte.of_N (n mod 256)) as [b|] eqn:E.
  - now apply Byte.to_of_N in E.
  - apply Byte.of_N_None_iff in E.
    pose proof (N.mod_upper_bound n 256 ltac:(discriminate)). lia.
Qed.

Lemma land_255 (v : N) : N.land v 255 = v mod 256.
Proof. change 255 with (N.ones 8). now rewrite N.land_ones. Qed.

(** The bytes [PutUint32] writes are the little-endian digits of [v] in
    base 256. *)
Lemma PutUint32_little_endian (v : N) :
  map Byte.to_N (Binary.PutUint32 v)
  = [ v mod 256; (v / 2 ^ 8) mod 256; (v / 2 ^ 16) mod 256;
      (v / 2 ^ 24) mod 256 ].
Proof.
  unfold Binary.PutUint32. cbn [map].
  rewrite !to_N_byte_of_N, !land_255, !N.shiftr_div_pow2.
  now rewrite !N.Div0.mod_mod.
Qed.

(** Decoding the four bytes written for a [uint32] gives it back. *)
Lemma Uint32_PutUint32 (v : N) :
  v < uint32_mod ->
  Binary.Uint32 (Binary.byte_of_N (N.land v 255))
                (Binary.byte_of_N (N.land (N.shiftr v 8) 255))
                (Binary.byte_of_N (N.land (N.shiftr v 16) 255))
                (Binary.byte_of_N (N.land (N.shiftr v 24) 255)) = v.
Proof.
  intros Hv. unfold uint32_mod in Hv. unfold Binary.Uint32.
  rewrite !to_N_byte_of_N, !land_255, !N.Div0.mod_mod.
  change 256 with (2 ^ 8).
  apply N.bits_inj. intros n. rewrite !N.lor_spec.
  assert (Hhigh : 32 <= n -> N.testbit v n = false).
  { intros Hn. rewrite <- (N.mod_small v (2 ^ 32)) by assumption.
    now apply N.mod_pow2_bits_high. }
  destruct (N.lt_ge_cases n 8) as [H8|H8].
  { rewrite N.mod_pow2_bits_low by lia.
    rewrite !N.shiftl_spec_low by lia.
    now rewrite !Bool.orb_false_r. }
  rewrite N.mod_pow2_bits_high by lia.
  rewrite (N.shiftl_spec_high' _ 8) by lia.
  destruct (N.lt_ge_cases n 16) as [H16|H16].
  { rewrite N.mod_pow2_bits_low by lia.
    rewrite !N.shiftl_spec_low by lia.
    rewrite N.shiftr_spec'. cbn. rewrite !Bool.orb_false_r.
    f_equal. lia. }
  rewrite N.mod_pow2_bits_high by lia.
  rewrite (N.shiftl_spec_high' _ 16) by lia.
  destruct (N.lt_ge_cases n 24) as [H24|H24].
  { rewrite N.mod_pow2_bits_low by lia.
    rewrite !N.shiftl_spec_low by lia.
    rewrite N.shiftr_spec'. cbn. rewrite !Bool.orb_false_r.
    f_equal. lia. }
  rewrite N.mod_pow2_bits_high by lia.
  rewrite (N.shiftl_spec_high' _ 24) by lia.
  destruct (N.lt_ge_cases n 32) as [H32|H32].
  { rewrite N.mod_pow2_bits_low by lia.
    rewrite N.shiftr_spec'. cbn.
    f_equal. lia. }
  rewrite N.mod_pow2_bits_high by lia.
  cbn. symmetry. now apply Hhigh.
Qed.

Ltac act_step :=
  unfold run, mbind, mret, Act_bind, Act_ret, emit,
    Broker.OpenStream, Broker.binary_Write, Broker.binary_Read,
    Broker.conn_Close, Broker.Close in *;
  cbn [fst snd app] in *.

Ltac cases_done :=
  repeat split; intros;
  repeat match goal with
         | H : inl _ = inl _ |- _ => inversion H; clear H; subst
         | H : inr _ = inr _ |- _ => inversion H; clear H; subst
         | H : Some _ = Some _ |- _ => inversion H; clear H; subst
         | H : (_, _) = (_, _) |- _ => inversion H; clear H; subst
         | H : _ /\ _ |- _ => destruct H
         | H : exists _, _ |- _ => destruct H
         end;
  try congruence; try discriminate; try reflexivity.

(** C5. [Dial] first opens a stream; on the open stream [c] its next
    action writes [id] as four little-endian bytes; it returns [c] exactly
    when the open, the write and the read succeed and the four bytes read
    decode to [id]; an acknowledgement [ack <> id] gives the error
    [bad ack: <ack> (expected <id>)]; a failing open, write or read
    surfaces its own error; and whenever [Dial] fails after the stream
    was opened, closing that stream is the last thing it does, while a
    successful [Dial] leaves the stream open. *)
Theorem Dial_spec (m : Broker.MuxBroker) (id : N) :
  let s := Broker.session m in
  let r := fst (run (Broker.Dial m id)) in
  let tr := snd (run (Broker.Dial m id)) in
  head tr = Some EvOpenStream
  /\ map Byte.to_N (Binary.PutUint32 id)
     = [ id mod 256; (id / 2 ^ 8) mod 256; (id / 2 ^ 16) mod 256;
         (id / 2 ^ 24) mod 256 ]
  /\ (forall c, Broker.open_stream s = inl c ->
        tr !! 1%nat = Some (EvWrite c (Binary.PutUint32 id)))
  /\ (forall c, r = (Some c, None) <->
        Broker.open_stream s = inl c
        /\ Broker.write_result s c (Binary.PutUint32 id) = None
        /\ exists b0 b1 b2 b3,
             Broker.read4_result s c = inl (b0, b1, b2, b3)
             /\ Binary.Uint32 b0 b1 b2 b3 = id)
  /\ (forall c b0 b1 b2 b3,
        Broker.open_stream s = inl c ->
        Broker.write_result s c (Binary.PutUint32 id) = None ->
        Broker.read4_result s c = inl (b0, b1, b2, b3) ->
        Binary.Uint32 b0 b1 b2 b3 <> id ->
        r = (None, Some ("bad ack: " +:+ Fmt.fmt_d (Binary.Uint32 b0 b1 b2 b3)
                         +:+ " (expected " +:+ Fmt.fmt_d id +:+ ")")))
  /\ (forall e, Broker.open_stream s = inr e -> r = (None, Some e))
  /\ (forall c e, Broker.open_stream s = inl c ->
        Broker.write_result s c (Binary.PutUint32 id) = Some e ->
        r = (None, Some e))
  /\ (forall c e, Broker.open_stream s = inl c ->
        Broker.write_result s c (Binary.PutUint32 id) = None ->
        Broker.read4_result s c = inr e ->
        r = (None, Some e))
  /\ (snd r <> None ->
        fst r = None
        /\ forall c, Broker.open_stream s = inl c ->
             last tr = Some (EvClose (ResStream c)))
  /\ (snd r = None ->
        exists c, fst r = Some c /\ Broker.open_stream s = inl c
                  /\ ~ In (EvClose (ResStream c)) tr).
Proof.
  intros s r tr. subst s r tr.
  split; [|split; [apply PutUint32_little_endian|]].
  { unfold Broker.Dial. act_step.
    destruct (Broker.open_stream (Broker.session m)); act_step;
      [|reflexivity].
    destruct (Broker.write_result _ _ _); act_step; [reflexivity|].
    destruct (Broker.read4_result _ _) as [[[[? ?] ?] ?]|]; act_step;
      [|reflexivity].
    destruct (N.eqb _ id); reflexivity. }
  unfold Broker.Dial. act_step.
  destruct (Broker.open_stream (Broker.session m)) as [c0|e0] eqn:Hopen;
    act_step; [|cases_done].
  destruct (Broker.write_result (Broker.session m) c0 (Binary.PutUint32 id))
    as [we|] eqn:Hwrite; act_step; [cases_done|].
  destruct (Broker.read4_result (Broker.session m) c0)
    as [[[[b0 b1] b2] b3]|re] eqn:Hread; act_step; [|cases_done].
  destruct (N.eqb_spec (Binary.Uint32 b0 b1 b2 b3) id) as [Hack|Hack];
    cbn [negb]; act_step; cases_done.
  - exists b0, b1, b2, b3. split; [assumption|reflexivity].
  - exists c0. repeat split.
    cbn. intros [H'|[H'|[H'|[]]]]; discriminate.
  - match goal with
    | H1 : Broker.read4_result _ _ = inl _,
      H2 : Broker.read4_result _ _ = inl _ |- _ =>
        rewrite H1 in H2; inversion H2; subst
    end.
    reflexivity.
Qed.

(** The two sides of the rendezvous fit: when the peer answers with the
    bytes [Accept] writes for the same ID, [Dial] returns the stream. *)
Lemma Dial_acknowledged (m : Broker.MuxBroker) (id : N) (c : Conn) :
  id < uint32_mod ->
  Broker.open_stream (Broker.session m) = inl c ->
  Broker.write_result (Broker.session m) c (Binary.PutUint32 id) = None ->
  Broker.read4_result (Broker.session m) c
  = inl (Binary.byte_of_N (N.land id 255),
         Binary.byte_of_N (N.land (N.shiftr id 8) 255),
         Binary.byte_of_N (N.land (N.shiftr id 16) 255),
         Binary.byte_of_N (N.land (N.shiftr id 24) 255)) ->
  run (Broker.Dial m id)
  = ((Some c, None),
     [EvOpenStream; EvWrite c (Binary.PutUint32 id); EvRead c 4]).
Proof.
  intros Hid Hopen Hwrite Hread.
  unfold Broker.Dial. act_step. rewrite Hopen. act_step.
  rewrite Hwrite. act_step. rewrite Hread.
  rewrite (Uint32_PutUint32 id Hid), N.eqb_refl. reflexivity.
Qed.

Example Dial_broker7 :
  run (Broker.Dial Fixtures.broker7 7)
  = ((Some 3%positive, None),
     [ EvOpenStream;
       EvWrite 3%positive [Byte.x07; Byte.x00; Byte.x00; Byte.x00];
       EvRead 3%positive 4 ])
  /\ run (Broker.Dial Fixtures.broker7 8)
     = ((None, Some "bad ack: 7 (expected 8)"),
        [ EvOpenStream;
          EvWrite 3%positive [Byte.x08; Byte.x00; Byte.x00; Byte.x00];
          EvRead 3%positive 4; EvClose (ResStream 3%positive) ]).
Proof. split; reflexivity. Qed.

(** ** The broker's [Accept] *)

Lemma getStream_registers (m : Broker.MuxBroker) (id : N) :
  Broker.streams (snd (Broker.getStream m id)) !! id
  = Some (fst (Broker.getStream m id)).
Proof.
  unfold Broker.getStream.
  destruct (Broker.streams m !! id) eqn:E; cbn; [exact E|].
  apply lookup_insert_eq.
Qed.

Lemma getStream_streams (m : Broker.MuxBroker) (id id' : N) :
  id' <> id ->
  Broker.streams (snd (Broker.getStream m id)) !! id' = Broker.streams m !! id'.
Proof.
  intros Hne. unfold Broker.getStream.
  destruct (Broker.streams m !! id); cbn; [reflexivity|].
  now apply lookup_insert_ne.
Qed.

Lemma getStream_session (m : Broker.MuxBroker) (id : N) :
  Broker.session (snd (Broker.getStream m id)) = Broker.session m.
Proof.
  unfold Broker.getStream. now destruct (Broker.streams m !! id).
Qed.

(** C6. [Accept] waits on the pending entry the rendezvous map holds for
    [id] (created if absent): a stream handed over less than five seconds
    after the wait began is received, and with no stream in that time the
    timer fires. On the timer, [Accept] does no
    stream I/O, fails with [timeout waiting for accept] and leaves a
    rendezvous map without an entry for [id] (the other entries are as
    before). On a received stream [c] its first action writes [id] to [c]
    as the four-byte little-endian acknowledgement; when that write
    succeeds [c] is returned, with the entry's completion signal closed. *)
Theorem Accept_spec (m : Broker.MuxBroker) (id : N) (w : Broker.Wait) :
  let e := Broker.awaited_entry m id in
  let out := fst (run (Broker.Accept m id w)) in
  let tr := snd (run (Broker.Accept m id w)) in
  Broker.acceptTimeout = (5 * 1000000000)%Z
  /\ Broker.streams (snd (Broker.getStream m id)) !! id
     = Some (fst (Broker.getStream m id))
  /\ (Broker.ch e = None ->
        (forall t c, w = Broker.Handoff t c -> (t < Broker.acceptTimeout)%Z ->
                     Broker.received (Broker.ch e) w = Some c)
        /\ ((w = Broker.Silence
             \/ exists t c, w = Broker.Handoff t c
                            /\ (Broker.acceptTimeout <= t)%Z) ->
            Broker.received (Broker.ch e) w = None))
  /\ (Broker.received (Broker.ch e) w = None ->
        exists m',
          out = Returns (None, Some "timeout waiting for accept", m')
          /\ Broker.streams m' !! id = None
          /\ (forall id', id' <> id ->
                Broker.streams m' !! id' = Broker.streams m !! id')
          /\ tr = [])
  /\ (forall c,
        Broker.received (Broker.ch e) w = Some c ->
        Broker.doneCh_closed e = false ->
        head tr = Some (EvWrite c (Binary.PutUint32 id))
        /\ (Broker.write_result (Broker.session m) c (Binary.PutUint32 id)
            = None ->
            exists m',
              out = Returns (Some c, None, m')
              /\ tr = [EvWrite c (Binary.PutUint32 id)]
              /\ Broker.doneCh_closed
                   (Broker.deref m' (fst (Broker.getStream m id))) = true)
        /\ (forall err,
              Broker.write_result (Broker.session m) c (Binary.PutUint32 id)
              = Some err ->
              exists m',
                out = Returns (None, Some err, m')
                /\ last tr = Some (EvClose (ResStream c)))).
Proof.
  intros e out tr. subst e out tr.
  split; [reflexivity|]. split; [apply getStream_registers|]. split.
  { intros Hslot. rewrite Hslot. split.
    - intros t c -> Ht. cbn.
      apply Z.ltb_lt in Ht. now rewrite Ht.
    - intros [-> | (t & c & -> & Ht)]; cbn; [reflexivity|].
      apply Z.ltb_ge in Ht. now rewrite Ht. }
  pose proof (getStream_streams m id) as Hother.
  unfold Broker.Accept, Broker.awaited_entry in *.
  destruct (Broker.getStream m id) as [p m1] eqn:Hget. cbn [fst snd] in *.
  split.
  - intros Hrecv. rewrite Hrecv. act_step.
    eexists. split; [reflexivity|]. split; [|split; [|reflexivity]].
    + cbn. apply lookup_delete_eq.
    + intros id' Hne. cbn. rewrite lookup_delete_ne by congruence.
      now apply Hother.
  - intros c Hrecv Hopen. rewrite Hrecv, Hopen. act_step.
    destruct (Broker.write_result (Broker.session m) c (Binary.PutUint32 id))
      as [err|] eqn:Hw; act_step.
    + split; [reflexivity|]. split; [discriminate|].
      intros err' Herr. inversion Herr; subst.
      eexists. split; reflexivity.
    + split; [reflexivity|]. split; [|discriminate].
      intros _. eexists. split; [reflexivity|]. split; [reflexivity|].
      unfold Broker.deref, Broker.set_pending. cbn.
      now rewrite lookup_insert_eq.
Qed.

(** ** [RPCClient.Close] *)

Section CloseFacts.

Import RPCClientM.

Variable c : RPCClient.

(** The four closes of [Close], in the order of the source, and what each
    of them answers. *)
Definition close_events : list Event :=
  [ EvClose ResControl; EvClose (ResStream (stdout c));
    EvClose (ResStream (stderr c)); EvClose ResMux ].

Definition close_answers : list (option error) :=
  let s := Broker.session (broker c) in
  [ close_reply (control c);
    Broker.close_result s (ResStream (stdout c));
    Broker.close_result s (ResStream (stderr c));
    Broker.close_result s ResMux ].

End CloseFacts.

(** C1, as amended. [Close] first calls [Control.Quit] and keeps its
    error, and whatever that call answered it goes on to close the control
    channel. The closes run in the order control channel, stdout stream,
    stderr stream, broker, up to the first one that fails: [Close] returns
    the error of that close at once, and the closes after it do not run.
    When the four closes succeed, all four resources are released, also
    when [Quit] failed, and [Close] returns the error kept from [Quit], or
    success if there was none. *)
Theorem Close_spec (c : RPCClientM.RPCClient) :
  let r := fst (run (RPCClientM.Close c)) in
  let tr := snd (run (RPCClientM.Close c)) in
  (exists rest,
      tr = EvCall "Control.Quit" "true" :: EvClose ResControl :: rest)
  /\ (Forall (fun a => a = None) (close_answers c) ->
        tr = EvCall "Control.Quit" "true" :: close_events c
        /\ r = RPCClientM.quit_reply (RPCClientM.control c))
  /\ (forall k e,
        close_answers c !! k = Some (Some e) ->
        (forall i, (i < k)%nat -> close_answers c !! i = Some None) ->
        tr = EvCall "Control.Quit" "true" :: take (S k) (close_events c)
        /\ r = Some e).
Proof.
  intros r tr. subst r tr.
  unfold RPCClientM.Close, RPCClientM.control_Call_Quit,
    RPCClientM.control_Close, close_answers, close_events.
  act_step.
  destruct (RPCClientM.close_reply (RPCClientM.control c)) as [e1|] eqn:H1;
    act_step.
  { split; [eexists; reflexivity|]. split.
    - intros HF. inversion HF; subst. discriminate.
    - intros k e Hk Hbefore. destruct k as [|k]; cbn in Hk.
      + inversion Hk; subst. split; reflexivity.
      + specialize (Hbefore 0%nat ltac:(lia)). cbn in Hbefore. congruence. }
  destruct (Broker.close_result _ (ResStream (RPCClientM.stdout c)))
    as [e2|] eqn:H2; act_step.
  { split; [eexists; reflexivity|]. split.
    - intros HF. inversion HF as [|? ? _ HF1]; subst.
      inversion HF1; subst. discriminate.
    - intros k e Hk Hbefore. destruct k as [|[|k]]; cbn in Hk.
      + discriminate.
      + inversion Hk; subst. split; reflexivity.
      + specialize (Hbefore 1%nat ltac:(lia)). cbn in Hbefore. congruence. }
  destruct (Broker.close_result _ (ResStream (RPCClientM.stderr c)))
    as [e3|] eqn:H3; act_step.
  { split; [eexists; reflexivity|]. split.
    - intros HF. inversion HF as [|? ? _ HF1]; subst.
      inversion HF1 as [|? ? _ HF2]; subst.
      inversion HF2; subst. discriminate.
    - intros k e Hk Hbefore. destruct k as [|[|[|k]]]; cbn in Hk.
      + discriminate.
      + discriminate.
      + inversion Hk; subst. split; reflexivity.
      + specialize (Hbefore 2%nat ltac:(lia)). cbn in Hbefore. congruence. }
  destruct (Broker.close_result _ ResMux) as [e4|] eqn:H4; act_step.
  { split; [eexists; reflexivity|]. split.
    - intros HF. inversion HF as [|? ? _ HF1]; subst.
      inversion HF1 as [|? ? _ HF2]; subst.
      inversion HF2 as [|? ? _ HF3]; subst.
      inversion HF3; subst. discriminate.
    - intros k e Hk Hbefore. destruct k as [|[|[|[|k]]]]; cbn in Hk;
        try discriminate.
      inversion Hk; subst. split; reflexivity. }
  split; [eexists; reflexivity|]. split.
  - intros _. split; reflexivity.
  - intros k e Hk _. destruct k as [|[|[|[|k]]]]; cbn in Hk; discriminate.
Qed.

Lemma Close_spec_witness :
  snd (run (RPCClientM.Close Fixtures.client_quit_failing))
  = [ EvCall "Control.Quit" "true"; EvClose ResControl;
      EvClose (ResStream 1%positive); EvClose (ResStream 2%positive);
      EvClose ResMux ]
  /\ fst (run (RPCClientM.Close Fixtures.client_quit_failing))
     = Some "connection is shut down".
Proof.
  destruct (Close_spec Fixtures.client_quit_failing) as (_ & Hall & _).
  apply Hall. repeat constructor.
Defined.

(** C1 as stated fails: when [Control.Quit] fails and closing the control
    channel fails too, [Close] returns the close error, not the error kept
    from [Quit], and neither stdio stream nor the mux is closed. *)
Lemma Close_stops_at_first_failing_close :
  let c := Fixtures.client_failing in
  RPCClientM.quit_reply (RPCClientM.control c) = Some "connection is shut down"
  /\ fst (run (RPCClientM.Close c)) = Some "close control: broken pipe"
  /\ fst (run (RPCClientM.Close c))
     <> RPCClientM.quit_reply (RPCClientM.control c)
  /\ ~ In (EvClose (ResStream (RPCClientM.stdout c))) (snd (run (RPCClientM.Close c)))
  /\ ~ In (EvClose (ResStream (RPCClientM.stderr c))) (snd (run (RPCClientM.Close c)))
  /\ ~ In (EvClose ResMux) (snd (run (RPCClientM.Close c))).
Proof.
  cbv zeta. vm_compute.
  repeat split; try discriminate;
    intros [H|[H|[]]]; discriminate.
Qed.

(** ** [Dispense] on an unknown plugin name *)

(** C7. For a name that is not in the plugin set, the client's [Dispense]
    fails with [unknown plugin type: <name>] and an empty trace: no call
    goes over the control channel; and the server's [Dispense] fails with
    the same message and an empty trace, its broker untouched: the plugin's
    constructor is not called and no stream ID is allocated. *)
Theorem Dispense_unknown_plugin
  (c : RPCClientM.RPCClient) (d : RPCServerM.dispenseServer) (name : string) :
  (RPCClientM.plugins c !! name = None ->
     run (RPCClientM.Dispense c name)
     = ((None, Some ("unknown plugin type: " +:+ name)), []))
  /\ (RPCServerM.plugins d !! name = None ->
        run (RPCServerM.Dispense d name)
        = ((None, Some ("unknown plugin type: " +:+ name), d), [])
        /\ Broker.nextId (RPCServerM.broker (snd (fst (run (RPCServerM.Dispense d name)))))
           = Broker.nextId (RPCServerM.broker d)).
Proof.
  split.
  - intros Hnone. unfold RPCClientM.Dispense. now rewrite Hnone.
  - intros Hnone. unfold RPCServerM.Dispense. now rewrite Hnone.
Qed.

Lemma Dispense_unknown_plugin_witness :
  run (RPCClientM.Dispense Fixtures.client_failing "greeter")
  = ((None, Some "unknown plugin type: greeter"), [])
  /\ run (RPCServerM.Dispense Fixtures.dispenser "greeter")
     = ((None, Some "unknown plugin type: greeter", Fixtures.dispenser), []).
Proof.
  destruct (Dispense_unknown_plugin Fixtures.client_failing
              Fixtures.dispenser "greeter") as [Hc Hd].
  split.
  - apply Hc. reflexivity.
  - apply Hd. reflexivity.
Defined.

(** A known name, for contrast: the server calls the constructor and then
    allocates the first ID; the client makes the round trip and dials. *)
Example Dispense_known_plugin :
  run (RPCServerM.Dispense Fixtures.dispenser "test")
  = ((Some 1, None,
      {| RPCServerM.broker := snd (Broker.NextId Fixtures.broker7);
         RPCServerM.plugins := Fixtures.testPluginMap |}),
     [ EvPluginServer "test"; EvNextId 1;
       EvGo (TaskAcceptAndServe "test" 1) ])
  /\ run (RPCClientM.Dispense Fixtures.client_failing "test")
     = ((Some "testInterfaceClient", None),
        [ EvCall "Dispenser.Dispense" "test"; EvOpenStream;
          EvWrite 3%positive
            [Byte.x07; Byte.x00; Byte.x00; Byte.x00];
          EvRead 3%positive 4; EvPluginClient "test" (Some 3%positive) ]).
Proof. split; reflexivity. Qed.

(** ** [Control.Quit] *)

Section QuitFacts.

Import RPCServerM.

(** Every channel [DoneCh] names is open and has never been closed, or
    [DoneCh] is nil, and at most one close has happened. *)
Definition done_inv (s : RPCServer) : Prop :=
  match DoneCh s with
  | Some ch => chans s !! ch = Some ChanOpen /\ closes s = 0%nat
  | None => (closes s <= 1)%nat
  end.

Lemma serve_server_inv ps : done_inv (serve_server ps).
Proof. unfold done_inv, serve_server. cbn. split; [reflexivity|lia]. Qed.

Lemma done_returns (s : RPCServer) :
  done_inv s ->
  exists s', done s = Returns s' /\ DoneCh s' = None /\ done_inv s'
             /\ (closes s' <= 1)%nat
             /\ (DoneCh s = None -> s' = s)
             /\ (DoneCh s <> None -> closes s' = 1%nat).
Proof.
  unfold done_inv, done, close_chan.
  destruct (DoneCh s) as [ch|] eqn:Hd.
  - intros [Hopen Hz]. rewrite Hopen. eexists. split; [reflexivity|].
    cbn. rewrite Hz. repeat split; try lia. intros; discriminate.
  - intros Hle. exists s. rewrite Hd. repeat split; try assumption.
    intros H; now contradiction H.
Qed.

Lemma Quits_returns (n : nat) (s : RPCServer) :
  done_inv s ->
  exists s', Quits n s = Returns (repeat (Some tt, None) n, s')
             /\ done_inv s' /\ (closes s' <= 1)%nat
             /\ ((0 < n)%nat -> DoneCh s' = None)
             /\ ((0 < n)%nat -> DoneCh s <> None -> closes s' = 1%nat)
             /\ (DoneCh s = None -> s' = s).
Proof.
  revert s. induction n as [|n IH]; intros s Hinv.
  - exists s. cbn. repeat split; try assumption; try lia.
    unfold done_inv in Hinv. destruct (DoneCh s) as [ch|]; lia.
  - destruct (done_returns s Hinv)
      as (s1 & Hdone & Hnil & Hinv1 & Hle & Hsame & Hone).
    destruct (IH s1 Hinv1) as (s2 & HQ & _ & _ & _ & _ & Hstable).
    specialize (Hstable Hnil). subst s2.
    cbn [Quits]. unfold Quit. rewrite Hdone, HQ.
    exists s1. cbn [repeat].
    split; [reflexivity|]. split; [assumption|]. split; [assumption|].
    split; [intros _; assumption|]. split.
    + intros _ Hsome. now apply Hone.
    + intros Hnone. now apply Hsame.
Qed.

End QuitFacts.

(** C10. On the server [Serve] builds, any number [n] of [Control.Quit]
    calls returns normally: none of them panics, each writes the empty
    response and returns no error, and the done channel is closed once by
    the first call and never again; from then on [DoneCh] is nil. *)
Theorem Quit_any_number_of_times (ps : gmap string Plugin) (n : nat) :
  exists s',
    RPCServerM.Quits n (RPCServerM.serve_server ps)
    = Returns (repeat (Some tt, None) n, s')
    /\ RPCServerM.closes s' = Nat.min n 1
    /\ RPCServerM.DoneCh s' = (if (n =? 0)%nat then Some 1%positive else None)
    /\ RPCServerM.chans s'
       = {[ 1%positive := if (n =? 0)%nat then RPCServerM.ChanOpen
                          else RPCServerM.ChanClosed ]}.
Proof.
  destruct (Quits_returns n (RPCServerM.serve_server ps)
              (serve_server_inv ps))
    as (s' & HQ & _ & Hle & Hnil & Hone & _).
  exists s'. split; [exact HQ|].
  destruct n as [|n].
  - cbn in HQ. inversion HQ; subst. repeat split.
  - assert (Hpos : (0 < S n)%nat) by lia.
    split; [|split].
    + rewrite Hone; [lia | exact Hpos | discriminate].
    + cbn. now apply Hnil.
    + (* the first call closes the channel; the others change nothing *)
      cbn [RPCServerM.Quits] in HQ. unfold RPCServerM.Quit in HQ.
      destruct (done_returns _ (serve_server_inv ps))
        as (s1 & Hdone & Hnil1 & Hinv1 & _).
      rewrite Hdone in HQ.
      destruct (Quits_returns n s1 Hinv1) as (s2 & HQ2 & _ & _ & _ & _ & Hst).
      rewrite HQ2 in HQ. inversion HQ; subst s'.
      rewrite (Hst Hnil1).
      cbn in Hdone. inversion Hdone; subst s1. cbn.
      apply insert_singleton_eq.
Qed.

(** Three calls in a row, and what a second close would do: [close] on
    the closed channel panics, which is what [done] avoids. *)
Example Quit_three_times :
  RPCServerM.Quits 3 (RPCServerM.serve_server Fixtures.testPluginMap)
  = Returns ([ (Some tt, None); (Some tt, None); (Some tt, None) ],
             {| RPCServerM.Plugins := Fixtures.testPluginMap;
                RPCServerM.DoneCh := None;
                RPCServerM.chans := {[ 1%positive := RPCServerM.ChanClosed ]};
                RPCServerM.closes := 1 |}).
Proof. vm_compute. reflexivity. Qed.

(** ** [Start] *)

Example Start_mock_address :
  run (Supervisor.Start Fixtures.resolveTCP Fixtures.resolveUnix
         Fixtures.fresh_client
         (Fixtures.spawned (Supervisor.GotLine "tcp|:1234")))
  = ((Some (Supervisor.AddrTCP
              (Some {| Supervisor.IP := []; Supervisor.Port := 1234;
                       Supervisor.Zone := "" |})),
      None, Fixtures.started_client),
     [ EvCmdStart; EvGo TaskLogStderr; EvGo TaskReaper; EvGo TaskLineReader ])
  /\ (Supervisor.Network <$> Supervisor.addr Fixtures.started_client)
     = Some "tcp".
Proof. vm_compute. split; reflexivity. Qed.

Section StartFacts.

Import Supervisor.

Variable ResolveTCPAddr : string -> string -> option TCPAddr * option error.
Variable ResolveUnixAddr : string -> string -> option UnixAddr * option error.

#[local] Abbreviation Start := (Start ResolveTCPAddr ResolveUnixAddr).
#[local] Abbreviation select_stmt :=
  (select_stmt ResolveTCPAddr ResolveUnixAddr).
#[local] Abbreviation resolve := (resolve ResolveTCPAddr ResolveUnixAddr).

(** When [resolve] reports no error the address it yields is not nil. *)
Lemma resolve_ok (family address : string) (a : option Addr) :
  resolve family address = (a, None) -> exists x, a = Some x.
Proof.
  unfold Supervisor.resolve.
  destruct (String.eqb family "tcp").
  - destruct (ResolveTCPAddr "tcp" address) as [t e].
    intros H; inversion H; subst. eauto.
  - destruct (String.eqb family "unix").
    + destruct (ResolveUnixAddr "unix" address) as [u e].
      intros H; inversion H; subst. eauto.
    + discriminate.
Qed.

(** Leaving the select without a [return]: the variable [addr] is set. *)
Lemma select_falls_through (err : option error) (ev : Awaited) :
  sel_return (select_stmt err ev) = None ->
  exists x, sel_addr (select_stmt err ev) = Some x
            /\ sel_err (select_stmt err ev) = None.
Proof.
  unfold Supervisor.select_stmt.
  destruct ev as [| |line]; try discriminate.
  destruct (_ <? 2)%nat; [discriminate|].
  destruct (resolve _ _) as [a e] eqn:Hres.
  destruct e as [e|]; [discriminate|].
  intros _. apply resolve_ok in Hres. destruct Hres as [x ->].
  exists x. split; reflexivity.
Qed.

(** A [return] statement inside the select returns an error. *)
Lemma select_returns_error (err : option error) (ev : Awaited)
      (ra : option Addr) (re : option error) :
  sel_return (select_stmt err ev) = Some (ra, re) -> re <> None.
Proof.
  unfold Supervisor.select_stmt.
  destruct ev as [| |line].
  - intros H; inversion H; discriminate.
  - intros H; inversion H; discriminate.
  - destruct (_ <? 2)%nat.
    + intros H; inversion H; discriminate.
    + destruct (resolve _ _) as [a [e|]]; intros H; inversion H; discriminate.
Qed.

Lemma spawn_tasks_run (c : Client) (tr : list Event) :
  spawn_tasks c tr
  = (set_clientWg
       (set_stderrWg c (S (stderrWg c))) (S (S (S (clientWg c)))),
     (tr ++ [EvGo TaskLogStderr; EvGo TaskReaper; EvGo TaskLineReader])%list).
Proof.
  unfold spawn_tasks. act_step.
  now rewrite <- !app_assoc.
Qed.

(** [Start] on a client that has an address: nothing happens. *)
Lemma Start_cached (c : Client) (a : Addr) (env : StartEnv) :
  addr c = Some a -> run (Start c env) = ((Some a, None, c), []).
Proof. intros H. unfold Supervisor.Start. now rewrite H. Qed.

(** A [Start] that reports no error leaves the address it returns in
    the client. *)
Lemma Start_ok_caches (c c' : Client) (env : StartEnv)
      (ra : option Addr) (tr : list Event) :
  run (Start c env) = ((ra, None, c'), tr) ->
  exists a, ra = Some a /\ addr c' = Some a.
Proof.
  unfold Supervisor.Start.
  destruct (addr c) as [a0|] eqn:Haddr.
  { intros H. inversion H; subst. eauto. }
  destruct (stdoutPipe_err env); [discriminate|].
  destruct (stderrPipe_err env); [discriminate|].
  act_step.
  destruct (cmdStart_err env); [discriminate|].
  rewrite spawn_tasks_run.
  destruct (sel_return (select_stmt None (awaited env)))
    as [[ra' re']|] eqn:Hret.
  - (* a return statement inside the select: its error is not nil *)
    apply select_returns_error in Hret.
    destruct (deferred_guard _ _ _) as [u tr']. cbn.
    intros H. inversion H; subst. now contradiction Hret.
  - destruct (select_falls_through None (awaited env) Hret) as (x & Hx & He).
    rewrite Hx, He. unfold deferred_guard. act_step.
    intros H. inversion H; subst. exists x. split; reflexivity.
Qed.

End StartFacts.

(** No step of the tasks or of [Kill] touches the cached address. *)
Lemma step_addr (l : Supervisor.Label) (w w' : Supervisor.World) :
  Supervisor.step l w = Some w' ->
  Supervisor.addr (Supervisor.cl w') = Supervisor.addr (Supervisor.cl w).
Proof.
  destruct w as [c alive recv rp fw ln kl kr].
  destruct c as [cfg ex ad pr pt dc cw sw pk].
  unfold Supervisor.step, Supervisor.step_reaper, Supervisor.step_fwd,
    Supervisor.step_lines, Supervisor.step_kill, Supervisor.Protocol,
    Supervisor.wg_done.
  cbn. intros Hstep.
  destruct l; cbn in Hstep;
    repeat match goal with
           | H : Some _ = Some _ |- _ => inversion H; clear H; subst
           | H : None = Some _ |- _ => discriminate H
           | H : (_, _) = (_, _) |- _ => inversion H; clear H; subst
           | H : context [match ?x with _ => _ end] |- _ =>
               let E := fresh "E" in destruct x eqn:E; cbn in H
           end;
    reflexivity.
Qed.

Lemma exec_addr (ls : list Supervisor.Label) (w w' : Supervisor.World) :
  Supervisor.exec ls w = Some w' ->
  Supervisor.addr (Supervisor.cl w') = Supervisor.addr (Supervisor.cl w).
Proof.
  revert w. induction ls as [|l ls IH]; intros w Hexec; cbn in Hexec.
  - now inversion Hexec.
  - destruct (Supervisor.step l w) as [w1|] eqn:Hstep; [|discriminate].
    rewrite (IH w1 Hexec). now apply (step_addr l).
Qed.

(** C8. When a call of [Start] has returned an address without error,
    every later call of [Start] on the resulting client, whatever the
    operating system would answer, returns that address without error,
    causes no event (no child is spawned, no task started) and leaves the
    client as it was; and so does a call of [Start] after any run of the
    supervisor's tasks and of [Kill]. *)
Theorem Start_idempotent
  (ResolveTCPAddr : string -> string
                    -> option Supervisor.TCPAddr * option error)
  (ResolveUnixAddr : string -> string
                     -> option Supervisor.UnixAddr * option error)
  (c c' : Supervisor.Client) (env : Supervisor.StartEnv)
  (ra : option Supervisor.Addr) (tr : list Event) :
  run (Supervisor.Start ResolveTCPAddr ResolveUnixAddr c env)
  = ((ra, None, c'), tr) ->
  exists a,
    ra = Some a
    /\ (forall env',
          run (Supervisor.Start ResolveTCPAddr ResolveUnixAddr c' env')
          = ((Some a, None, c'), []))
    /\ (forall ls w env',
          Supervisor.exec ls (Supervisor.world_after_start c') = Some w ->
          run (Supervisor.Start ResolveTCPAddr ResolveUnixAddr
                 (Supervisor.cl w) env')
          = ((Some a, None, Supervisor.cl w), [])).
Proof.
  intros H.
  destruct (Start_ok_caches _ _ _ _ _ _ _ H) as (a & -> & Hc).
  exists a. split; [reflexivity|]. split.
  - intros env'. now apply Start_cached.
  - intros ls w env' Hexec. apply Start_cached.
    now rewrite (exec_addr _ _ _ Hexec).
Qed.

Lemma Start_idempotent_witness :
  exists a,
    Some (Supervisor.AddrTCP
            (Some {| Supervisor.IP := []; Supervisor.Port := 1234;
                     Supervisor.Zone := "" |})) = Some a
    /\ (forall env',
          run (Supervisor.Start Fixtures.resolveTCP Fixtures.resolveUnix
                 Fixtures.started_client env')
          = ((Some a, None, Fixtures.started_client), []))
    /\ (forall ls w env',
          Supervisor.exec ls
            (Supervisor.world_after_start Fixtures.started_client) = Some w ->
          run (Supervisor.Start Fixtures.resolveTCP Fixtures.resolveUnix
                 (Supervisor.cl w) env')
          = ((Some a, None, Supervisor.cl w), [])).
Proof.
  apply (Start_idempotent Fixtures.resolveTCP Fixtures.resolveUnix
           Fixtures.fresh_client Fixtures.started_client
           (Fixtures.spawned (Supervisor.GotLine "tcp|:1234"))
           _
           [ EvCmdStart; EvGo TaskLogStderr; EvGo TaskReaper;
             EvGo TaskLineReader ]).
  vm_compute. reflexivity.
Defined.

(** ** The handshake line under [TrimSpace] and [SplitN] *)

Section HandshakeFacts.

Import GoStrings.

(** Trimming on the right stops at a vertical bar at the latest. *)
Lemma trim_right_rev_stops (n : nat) :
  forall l : list ascii,
    (length l <= n)%nat ->
    exists l', trim_right_rev (l ++ ["|"; "1"]%char)
               = (l' ++ ["|"; "1"]%char)%list.
Proof.
  induction n as [|n IH]; intros l Hlen.
  - destruct l; [|cbn in Hlen; lia]. exists []. reflexivity.
  - destruct l as [|c l1]; [exists []; reflexivity|].
    cbn [length] in Hlen.
    change (trim_right_rev ((c :: l1) ++ ["|"; "1"]%char))
      with (if ascii_space c then trim_right_rev (l1 ++ ["|"; "1"]%char)
            else match (l1 ++ ["|"; "1"]%char)%list with
                 | b :: l2 =>
                     if space2 b c then trim_right_rev l2
                     else match l2 with
                          | a :: l3 =>
                              if space3 a b c then trim_right_rev l3
                              else (c :: l1 ++ ["|"; "1"]%char)%list
                          | [] => (c :: l1 ++ ["|"; "1"]%char)%list
                          end
                 | [] => (c :: l1 ++ ["|"; "1"]%char)%list
                 end).
    destruct (ascii_space c); [apply IH; lia|].
    destruct l1 as [|b l2].
    { exists [c]. reflexivity. }
    cbn [app length] in *.
    destruct (space2 b c); [apply IH; lia|].
    destruct l2 as [|a l3].
    { exists [c; b]. reflexivity. }
    cbn [app length] in *.
    destruct (space3 a b c); [apply IH; lia|].
    exists (c :: b :: a :: l3). reflexivity.
Qed.

Lemma trim_left_keeps (l : list ascii) :
  trim_left ("1" :: "|" :: l)%char = ("1" :: "|" :: l)%char.
Proof. destruct l; reflexivity. Qed.

(** A line that begins with [1|] still does after [TrimSpace]. *)
Lemma TrimSpace_keeps_head (x : string) :
  exists x', TrimSpace (String "1" (String "|" x))
             = String "1" (String "|" x').
Proof.
  unfold TrimSpace. cbn [list_ascii_of_string].
  rewrite trim_left_keeps. cbn [rev]. rewrite <- app_assoc. cbn [app].
  destruct (trim_right_rev_stops _ (rev (list_ascii_of_string x)) (le_n _))
    as [l' ->].
  rewrite rev_app_distr. cbn [rev app string_of_list_ascii].
  eexists. reflexivity.
Qed.

Lemma SplitN_head (x : string) :
  SplitN (String "1" (String "|" x)) "|" 2 = ["1"; x].
Proof. reflexivity. Qed.

(** The first line of an output that begins with [1|] begins with it. *)
Lemma first_line_keeps_head (x : string) :
  exists x', ServerMain.first_line (String "1" (String "|" x))
             = String "1" (String "|" x').
Proof.
  unfold ServerMain.first_line. cbn [ServerMain.until_lf].
  change (byte_is "1" 10) with false. change (byte_is "|" 10) with false.
  cbn iota.
  destruct (ServerMain.until_lf x) as [|d y].
  - exists EmptyString. reflexivity.
  - eexists. reflexivity.
Qed.

End HandshakeFacts.

Example handshake_output_unix :
  ServerMain.first_line (ServerMain.handshake_output "unix" "/tmp/plugin123")
  = "1|1|unix|/tmp/plugin123".
Proof. vm_compute. reflexivity. Qed.

(** C2, on the code. Whatever network and address the server listens on,
    the line [Serve] prints is not accepted by [Start]: the line is cut at
    its first vertical bar only, the family that is looked at is the core
    protocol version [1], and [Start] fails with [Unknown address type: 1]
    (and kills the child) instead of returning the address. *)
Theorem Start_rejects_served_handshake
  (ResolveTCPAddr : string -> string
                    -> option Supervisor.TCPAddr * option error)
  (ResolveUnixAddr : string -> string
                     -> option Supervisor.UnixAddr * option error)
  (cfg : Supervisor.ClientConfig) (p : Supervisor.Process)
  (network address : string) :
  let line := ServerMain.first_line
                (ServerMain.handshake_output network address) in
  let res := run (Supervisor.Start ResolveTCPAddr ResolveUnixAddr
                    (Supervisor.NewClient cfg)
                    (Fixtures.spawn_ok p (Supervisor.GotLine line))) in
  fst (fst res) = (None, Some "Unknown address type: 1")
  /\ Supervisor.addr (snd (fst res)) = None
  /\ last (snd res) = Some (EvProcessKill (Supervisor.Pid p)).
Proof.
  intros line res. subst line res.
  unfold ServerMain.handshake_output.
  change (Fmt.fmt_d ServerMain.CoreProtocolVersion +:+ "|1|" +:+ network
          +:+ "|" +:+ address +:+ ServerMain.newline)
    with (String "1" (String "|" (String "1" (String "|"
            (network +:+ "|" +:+ address +:+ ServerMain.newline))))).
  destruct (first_line_keeps_head
              (String "1" (String "|"
                 (network +:+ "|" +:+ address +:+ ServerMain.newline))))
    as [x ->].
  unfold Supervisor.Start, Fixtures.spawn_ok.
  cbn [Supervisor.addr Supervisor.NewClient Supervisor.stdoutPipe_err
       Supervisor.stderrPipe_err Supervisor.cmdStart_err
       Supervisor.cmdProcess Supervisor.awaited].
  act_step. rewrite spawn_tasks_run.
  unfold Supervisor.select_stmt.
  destruct (TrimSpace_keeps_head x) as [x' ->].
  rewrite SplitN_head.
  cbn. repeat split.
Qed.

(** The same on the line of the example plugin. *)
Example Start_rejects_unix_handshake :
  fst (fst (run (Supervisor.Start Fixtures.resolveTCP Fixtures.resolveUnix
                   Fixtures.fresh_client
                   (Fixtures.spawned
                      (Supervisor.GotLine "1|1|unix|/tmp/plugin123")))))
  = (None, Some "Unknown address type: 1").
Proof. vm_compute. reflexivity. Qed.

(** C3, on the code. After the child has been spawned, a [Start] that
    fails on the timeout, on the exit signal or on a line without a
    vertical bar returns its error with the child still running: the
    deferred guard reads the variable [err], which these [return]
    statements do not set, so no kill is issued. Only the errors stored in
    [err] (an unknown family, a failing resolver) reach the guard. *)
Theorem Start_error_without_kill
  (ResolveTCPAddr : string -> string
                    -> option Supervisor.TCPAddr * option error)
  (ResolveUnixAddr : string -> string
                     -> option Supervisor.UnixAddr * option error)
  (cfg : Supervisor.ClientConfig) (p : Supervisor.Process) :
  let go ev := run (Supervisor.Start ResolveTCPAddr ResolveUnixAddr
                      (Supervisor.NewClient cfg) (Fixtures.spawn_ok p ev)) in
  let spawned := [ EvCmdStart; EvGo TaskLogStderr; EvGo TaskReaper;
                   EvGo TaskLineReader ] in
  (fst (fst (go Supervisor.GotTimeout))
   = (None, Some "timeout while waiting for plugin to start")
   /\ snd (go Supervisor.GotTimeout) = spawned
   /\ Supervisor.proc (snd (fst (go Supervisor.GotTimeout))) = Some p)
  /\ (fst (fst (go Supervisor.GotDone))
      = (None, Some "plugin exited before we could connect")
      /\ snd (go Supervisor.GotDone) = spawned)
  /\ (fst (fst (go (Supervisor.GotLine "not a handshake")))
      = (None, Some (Supervisor.unrecognized_error "not a handshake"))
      /\ snd (go (Supervisor.GotLine "not a handshake")) = spawned)
  /\ (fst (fst (go (Supervisor.GotLine "udp|:1234")))
      = (None, Some "Unknown address type: udp")
      /\ snd (go (Supervisor.GotLine "udp|:1234"))
         = (spawned ++ [EvProcessKill (Supervisor.Pid p)])%list).
Proof.
  cbv zeta.
  unfold Supervisor.Start, Fixtures.spawn_ok.
  cbn [Supervisor.addr Supervisor.NewClient Supervisor.stdoutPipe_err
       Supervisor.stderrPipe_err Supervisor.cmdStart_err
       Supervisor.cmdProcess Supervisor.awaited].
  act_step. rewrite !spawn_tasks_run.
  repeat split.
Qed.

(** ** [Kill] and the tasks of the supervisor *)

Section KillFacts.

Import Supervisor.

(** How much each task still owes to the wait groups. *)
Definition owes_reaper (pc : reaper_pc) : nat :=
  match pc with
  | RWaitStderr | RWaitChild | RSetExited | RClientWgDone => 1
  | RCancel | RExit => 0
  end.

Definition owes_fwd (pc : fwd_pc) : nat :=
  match pc with
  | FRead | FStderrWgDone | FClientWgDone => 1
  | FExit => 0
  end.

Definition owes_fwd_stderr (pc : fwd_pc) : nat :=
  match pc with
  | FRead | FStderrWgDone => 1
  | FClientWgDone | FExit => 0
  end.

Definition owes_lines (pc : lines_pc) : nat :=
  match pc with
  | LnExit => 0
  | _ => 1
  end.

Definition reaper_marked (pc : reaper_pc) : bool :=
  match pc with
  | RClientWgDone | RCancel | RExit => true
  | _ => false
  end.

(** Whether the reaper's [cmd.Wait()] has returned. *)
Definition reaper_waited (pc : reaper_pc) : bool :=
  match pc with
  | RWaitStderr | RWaitChild => false
  | _ => true
  end.

(** The invariant of the system: the wait-group counters count the tasks
    that have not signalled yet; [exited] is set exactly when the reaper
    is past its critical section, and the reaper got there only after the
    child had terminated; [Kill] is past its join only when [exited] is
    set; [proc] is set until the first [Kill] returns, and from then on
    it is nil and a [Kill] call can only be at its entry. *)
Definition inv (w : World) : Prop :=
  clientWg (cl w)
  = (owes_reaper (reaper w) + owes_fwd (fwd w) + owes_lines (lines w))%nat
  /\ stderrWg (cl w) = owes_fwd_stderr (fwd w)
  /\ (exited (cl w) = reaper_marked (reaper w)
      /\ (reaper_waited (reaper w) = true -> child_alive w = false))
  /\ match kills_returned w with
     | O => proc (cl w) <> None /\ (kill w = KClear -> exited (cl w) = true)
     | S _ => exited (cl w) = true /\ proc (cl w) = None
              /\ (kill w = KIdle \/ kill w = KSnapshot)
     end.

Ltac world_cases :=
  repeat match goal with
         | H : Some _ = Some _ |- _ => inversion H; clear H; subst
         | H : None = Some _ |- _ => discriminate H
         | H : (_, _) = (_, _) |- _ => inversion H; clear H; subst
         | H : _ /\ _ |- _ => destruct H
         | H : (_ =? _)%nat = true |- _ => apply Nat.eqb_eq in H
         | H : context [match ?x with _ => _ end] |- _ =>
             let E := fresh "E" in destruct x eqn:E; cbn in H
         | |- _ => progress cbn
         | |- context [if ?x then _ else _] => destruct x
         end.

Ltac world_done :=
  cbn in *; subst; repeat split;
  try lia; try tauto; try congruence;
  try (intros; discriminate); try (left; reflexivity);
  try (right; reflexivity);
  try (match goal with
       | H : _ \/ _ |- _ => destruct H; discriminate
       end);
  try (match goal with
       | H : context [owes_reaper ?rp] |- _ =>
           intros; destruct rp; cbn in *; first [lia | congruence | auto]
       end).

Lemma step_inv (l : Label) (w w' : World) :
  inv w -> step l w = Some w' -> inv w'.
Proof.
  destruct w as [c alive recv rp fw ln kl kr].
  destruct c as [cfg ex ad pr pt dc cw sw pk].
  unfold inv, step, step_reaper, step_fwd, step_lines, step_kill, Protocol,
    wg_done, kill_returns, with_cl, with_reaper, with_fwd, with_lines,
    with_kill, with_child, with_receiving.
  cbn. intros Hinv Hstep.
  destruct l; cbn in Hstep; world_cases; world_done.
Qed.

Lemma exec_inv (ls : list Label) (w w' : World) :
  inv w -> exec ls w = Some w' -> inv w'.
Proof.
  revert w. induction ls as [|l ls IH]; intros w Hinv Hexec; cbn in Hexec.
  - now inversion Hexec; subst.
  - destruct (step l w) as [w1|] eqn:Hstep; [|discriminate].
    apply (IH w1); [|assumption]. now apply (step_inv l w).
Qed.

Variable ResolveTCPAddr : string -> string -> option TCPAddr * option error.
Variable ResolveUnixAddr : string -> string -> option UnixAddr * option error.

(** What a successful [Start] on a new client leaves in it. *)
Lemma Start_new_client (cfg : ClientConfig) (env : StartEnv)
      (ra : option Addr) (c : Client) (tr : list Event) :
  run (Start ResolveTCPAddr ResolveUnixAddr (NewClient cfg) env)
  = ((ra, None, c), tr) ->
  clientWg c = 3%nat /\ stderrWg c = 1%nat /\ exited c = false
  /\ proc c = Some (cmdProcess env) /\ addr c = ra /\ ra <> None.
Proof.
  unfold Supervisor.Start.
  cbn [addr NewClient].
  destruct (stdoutPipe_err env); [discriminate|].
  destruct (stderrPipe_err env); [discriminate|].
  act_step.
  destruct (cmdStart_err env); [discriminate|].
  rewrite spawn_tasks_run.
  destruct (sel_return _) as [[ra' re']|] eqn:Hret.
  - apply select_returns_error in Hret.
    destruct (deferred_guard _ _ _) as [u tr']. cbn.
    intros H. inversion H; subst. now contradiction Hret.
  - destruct (select_falls_through _ _ None (awaited env) Hret)
      as (x & Hx & He).
    rewrite Hx, He. unfold deferred_guard. act_step.
    intros H. inversion H; subst. cbn. repeat split. discriminate.
Qed.

Lemma inv_after_start (cfg : ClientConfig) (env : StartEnv)
      (ra : option Addr) (c : Client) (tr : list Event) :
  run (Start ResolveTCPAddr ResolveUnixAddr (NewClient cfg) env)
  = ((ra, None, c), tr) ->
  inv (world_after_start c).
Proof.
  intros H. apply Start_new_client in H.
  destruct H as (Hc & Hs & He & Hp & _).
  unfold inv, world_after_start. cbn.
  repeat split; try assumption; try discriminate.
  rewrite Hp. discriminate.
Qed.

End KillFacts.

Example forced_kill_runs :
  Supervisor.exec Fixtures.forced_kill
    (Supervisor.world_after_start Fixtures.started_client)
  = Some Fixtures.killed_world
  /\ Supervisor.kill Fixtures.killed_world = Supervisor.KIdle
  /\ Supervisor.kills_returned Fixtures.killed_world = 1%nat
  /\ Supervisor.procKilled (Supervisor.cl Fixtures.killed_world) = true.
Proof. vm_compute. repeat split. Qed.

(** C9. Take a supervisor whose [Start] succeeded, and any interleaving
    of its tasks, of the child's exit and of calls of [Kill]. Whenever a
    call of [Kill] has returned, [Exited] answers true (the reaper has
    seen the child terminate and set the flag) and [proc] is nil; and a
    further call of [Kill] then sees the nil [proc] at its snapshot
    and returns at once, leaving the client as it is. *)
Theorem Kill_returns_exited_and_cleared
  (ResolveTCPAddr : string -> string
                    -> option Supervisor.TCPAddr * option error)
  (ResolveUnixAddr : string -> string
                     -> option Supervisor.UnixAddr * option error)
  (cfg : Supervisor.ClientConfig) (env : Supervisor.StartEnv)
  (ra : option Supervisor.Addr) (c : Supervisor.Client) (tr : list Event)
  (ls : list Supervisor.Label) (w : Supervisor.World) :
  run (Supervisor.Start ResolveTCPAddr ResolveUnixAddr
         (Supervisor.NewClient cfg) env) = ((ra, None, c), tr) ->
  Supervisor.exec ls (Supervisor.world_after_start c) = Some w ->
  Supervisor.kill w = Supervisor.KIdle ->
  (0 < Supervisor.kills_returned w)%nat ->
  Supervisor.Exited (Supervisor.cl w) = true
  /\ Supervisor.proc (Supervisor.cl w) = None
  /\ Supervisor.child_alive w = false
  /\ Supervisor.exec [Supervisor.LKill; Supervisor.LKill] w
     = Some (Supervisor.kill_returns w).
Proof.
  intros Hstart Hexec Hidle Hret.
  pose proof (inv_after_start _ _ _ _ _ _ _ Hstart) as Hinit.
  pose proof (exec_inv _ _ _ Hinit Hexec) as (_ & _ & (Hm & Hw) & Hk).
  destruct (Supervisor.kills_returned w) as [|k] eqn:Hkr; [lia|].
  destruct Hk as (Hex & Hproc & _).
  split; [exact Hex|]. split; [exact Hproc|].
  split.
  { apply Hw. rewrite Hex in Hm.
    destruct (Supervisor.reaper w); cbn in Hm |- *; congruence. }
  destruct w as [cl0 alive recv rp fw ln kl kr]. cbn in *. subst kl.
  unfold Supervisor.step_kill. cbn. rewrite Hproc. reflexivity.
Qed.

Lemma Kill_returns_exited_and_cleared_witness :
  Supervisor.Exited (Supervisor.cl Fixtures.killed_world) = true
  /\ Supervisor.proc (Supervisor.cl Fixtures.killed_world) = None
  /\ Supervisor.child_alive Fixtures.killed_world = false
  /\ Supervisor.exec [Supervisor.LKill; Supervisor.LKill] Fixtures.killed_world
     = Some (Supervisor.kill_returns Fixtures.killed_world).
Proof.
  apply (Kill_returns_exited_and_cleared
           Fixtures.resolveTCP Fixtures.resolveUnix
           {| Supervisor.StartTimeout := 0 |}
           (Fixtures.spawned (Supervisor.GotLine "tcp|:1234"))
           (Some (Supervisor.AddrTCP
                    (Some {| Supervisor.IP := []; Supervisor.Port := 1234;
                             Supervisor.Zone := "" |})))
           Fixtures.started_client
           [ EvCmdStart; EvGo TaskLogStderr; EvGo TaskReaper;
             EvGo TaskLineReader ]
           Fixtures.forced_kill Fixtures.killed_world).
  - vm_compute. reflexivity.
  - vm_compute. reflexivity.
  - vm_compute. reflexivity.
  - vm_compute. lia.
Defined.

(** * Further code of the cited files

    The rest of [MuxBroker] ([Run], [timeoutWait]), the construction of
    the two runtimes ([NewRPCClient], [newRPCClient], [ServeConn]),
    [Client.Protocol], [Client.logStderr] and [Client.killed], with the
    properties their code shows. *)

(** ** [MuxBroker.Run] and [MuxBroker.timeoutWait] *)

Module BrokerRun.

Import Broker.

(** One turn of the loop of [Run]: the loop ends, or it goes on with the
    broker as it is then and, when a stream was registered, the
    [timeoutWait] task started for its ID and entry. *)
Inductive Turn :=
| Stop
| Continue (m : MuxBroker) (reaper : option (N * positive)).

(** The non-blocking send [select { case p.ch <- stream: default: }] on
    the one-slot channel of the entry at [p]. *)
Definition offer (m : MuxBroker) (p : positive) (stream : Conn) : MuxBroker :=
  let e := deref m p in
  match ch e with
  | None => set_pending m p {| ch := Some stream;
                               doneCh_closed := doneCh_closed e |}
  | Some _ => m
  end.

(** The body of the loop, for what [m.session.AcceptStream()] answers. *)
Definition Run_turn (m : MuxBroker) (incoming : Conn + error) : Act Turn :=
  match incoming with
  | inr _ => mret Stop
  | inl stream =>
      r ← binary_Read (session m) stream;
      match r with
      | inr _ => conn_Close (session m) stream;; mret (Continue m None)
      | inl id =>
          let '(p, m1) := getStream m id in
          mret (Continue (offer m1 p stream) (Some (id, p)))
      end
  end.

(** The loop, over the successive answers of [AcceptStream]: the broker
    when the loop ends or has consumed the answers, and the [timeoutWait]
    tasks it started. *)
Fixpoint Run (m : MuxBroker) (incoming : list (Conn + error))
  : Act (MuxBroker * list (N * positive)) :=
  match incoming with
  | [] => mret (m, [])
  | x :: rest =>
      t ← Run_turn m x;
      match t with
      | Stop => mret (m, [])
      | Continue m1 started =>
          r ← Run m1 rest;
          mret (fst r, (match started with
                        | Some ip => [ip]
                        | None => []
                        end ++ snd r)%list)
      end
  end.

(** Which case of the first [select] of [timeoutWait] fires. *)
Inductive Woken := ByDone | ByTimer.

(** [timeoutWait(id, p)]. [None]: the task does not return; it is blocked
    on [<-p.doneCh] while that channel is open, or, after the timer, on
    the receive from an empty [p.ch] (with the broker's lock held). *)
Definition timeoutWait (m : MuxBroker) (id : N) (p : positive) (wk : Woken)
  : Act (option MuxBroker) :=
  let e := deref m p in
  match wk with
  | ByDone =>
      if doneCh_closed e then mret (Some (delete_stream m id)) else mret None
  | ByTimer =>
      let m1 := delete_stream m id in
      match ch e with
      | Some s =>
          conn_Close (session m) s;;
          mret (Some (set_pending m1 p {| ch := None;
                                          doneCh_closed := doneCh_closed e |}))
      | None => mret None
      end
  end.

End BrokerRun.

(** *** Properties of [getStream], [Run] and [timeoutWait] *)

Section BrokerRunFacts.

Import Broker BrokerRun.

Lemma fresh_ptr_unused (m : MuxBroker) : pendings m !! fresh_ptr m = None.
Proof.
  unfold fresh_ptr. apply not_elem_of_dom. apply is_fresh.
Qed.

(** X1. [getStream] registers once: asking again for the same ID gives the
    same entry and changes nothing; the entries of the other IDs and the
    pending entries that existed are untouched; and an entry made for an
    ID that had none has an empty slot and an open completion signal. *)
Theorem getStream_stable (m : MuxBroker) (id : N) :
  let p := fst (getStream m id) in
  let m1 := snd (getStream m id) in
  getStream m1 id = (p, m1)
  /\ streams m1 !! id = Some p
  /\ (forall id', id' <> id -> streams m1 !! id' = streams m !! id')
  /\ (forall q e, pendings m !! q = Some e -> pendings m1 !! q = Some e)
  /\ (streams m !! id = None ->
        pendings m1 !! p = Some {| ch := None; doneCh_closed := false |}).
Proof.
  cbv zeta. unfold getStream.
  destruct (streams m !! id) as [p0|] eqn:Hid; cbn [fst snd].
  - rewrite Hid.
    repeat split; intros; try assumption; try reflexivity; try congruence.
  - cbn [streams]. rewrite lookup_insert_eq.
    split; [reflexivity|]. split; [reflexivity|]. split; [|split].
    + intros id' Hne. now apply lookup_insert_ne.
    + intros q e Hq. cbn. rewrite lookup_insert_ne; [assumption|].
      intros Heq. rewrite <- Heq, fresh_ptr_unused in Hq. discriminate.
    + intros _. cbn. apply lookup_insert_eq.
Qed.

Lemma getStream_found (m : MuxBroker) (id : N) (p : positive) :
  streams m !! id = Some p -> getStream m id = (p, m).
Proof. intros H. unfold getStream. now rewrite H. Qed.

Lemma deref_set_pending (m : MuxBroker) (p : positive) (e : muxBrokerPending) :
  deref (set_pending m p e) p = e.
Proof. unfold deref, set_pending. cbn. now rewrite lookup_insert_eq. Qed.

(** The entry an ID is registered under, after [getStream] and an offer. *)
Lemma offer_registered (m : MuxBroker) (id : N) (stream : Conn) :
  let p := fst (getStream m id) in
  let m2 := offer (snd (getStream m id)) p stream in
  getStream m2 id = (p, m2)
  /\ deref m2 p
     = match ch (awaited_entry m id) with
       | None => {| ch := Some stream;
                    doneCh_closed := doneCh_closed (awaited_entry m id) |}
       | Some _ => awaited_entry m id
       end.
Proof.
  cbv zeta.
  pose proof (getStream_registers m id) as Hreg.
  unfold offer, awaited_entry.
  destruct (getStream m id) as [p m1]. cbn [fst snd] in *.
  destruct (ch (deref m1 p)) eqn:Hch.
  - split; [now apply getStream_found | reflexivity].
  - split; [apply getStream_found; exact Hreg | apply deref_set_pending].
Qed.

(** X2. The rendezvous. When [Run] reads the ID [id] from an incoming
    stream and the entry of [id] is free (no stream in its slot, its
    completion signal open), the stream is registered and a [timeoutWait]
    task is started for it; an [Accept] of [id] that follows receives
    that very stream however long it waits, writes the acknowledgement to
    it and, when that write succeeds, returns it. *)
Theorem Run_turn_then_Accept
  (m : MuxBroker) (stream : Conn) (b0 b1 b2 b3 : Byte.byte) (w : Wait) :
  let id := Binary.Uint32 b0 b1 b2 b3 in
  read4_result (session m) stream = inl (b0, b1, b2, b3) ->
  ch (awaited_entry m id) = None ->
  doneCh_closed (awaited_entry m id) = false ->
  write_result (session m) stream (Binary.PutUint32 id) = None ->
  exists m1 m2,
    run (Run_turn m (inl stream))
    = (Continue m1 (Some (id, fst (getStream m id))), [EvRead stream 4])
    /\ run (Accept m1 id w)
       = (Returns (Some stream, None, m2),
          [EvWrite stream (Binary.PutUint32 id)])
    /\ doneCh_closed (deref m2 (fst (getStream m id))) = true
    /\ ch (deref m2 (fst (getStream m id))) = None.
Proof.
  intros id Hread Hslot Hopen Hwrite.
  destruct (offer_registered m id stream) as [Hget Hderef].
  rewrite Hslot, Hopen in Hderef.
  destruct (getStream m id) as [p m1] eqn:Hg. cbn [fst snd] in *.
  eexists. eexists. split.
  { unfold Run_turn, binary_Read. rewrite Hread. act_step.
    fold id. rewrite Hg. reflexivity. }
  unfold Accept. rewrite Hget, Hderef. cbn [ch doneCh_closed received].
  act_step.
  assert (Hs : session (offer m1 p stream) = session m).
  { pose proof (getStream_session m id) as Hs. rewrite Hg in Hs. cbn in Hs.
    unfold offer. destruct (ch (deref m1 p)); cbn; assumption. }
  rewrite Hs, Hwrite.
  split; [reflexivity|].
  rewrite deref_set_pending. split; reflexivity.
Qed.

Lemma awaited_full_registered (m : MuxBroker) (id : N) (c0 : Conn) :
  ch (awaited_entry m id) = Some c0 ->
  getStream m id = (fst (getStream m id), m).
Proof.
  unfold awaited_entry, getStream.
  destruct (streams m !! id) as [p|] eqn:Hid; cbn [fst snd]; [reflexivity|].
  unfold deref. cbn. rewrite lookup_insert_eq. discriminate.
Qed.

Lemma Run_turn_when_full
      (m : MuxBroker) (stream c0 : Conn) (b0 b1 b2 b3 : Byte.byte) :
  read4_result (session m) stream = inl (b0, b1, b2, b3) ->
  ch (awaited_entry m (Binary.Uint32 b0 b1 b2 b3)) = Some c0 ->
  run (Run_turn m (inl stream))
  = (Continue m (Some (Binary.Uint32 b0 b1 b2 b3,
                       fst (getStream m (Binary.Uint32 b0 b1 b2 b3)))),
     [EvRead stream 4]).
Proof.
  intros Hread Hfull.
  pose proof (awaited_full_registered m _ c0 Hfull) as Hg.
  unfold Run_turn, binary_Read. rewrite Hread. act_step.
  rewrite Hg. cbn [fst snd].
  unfold offer. unfold awaited_entry in Hfull. rewrite Hg in Hfull.
  cbn [fst snd] in Hfull. rewrite Hfull. reflexivity.
Qed.

(** X3. A stream that arrives for an ID whose slot already holds a stream
    is dropped: [Run] leaves the broker exactly as it was and does not
    close the stream, it only starts one more [timeoutWait] task on the
    same entry; the stream in the slot is still the one [Accept] gets. *)
Theorem Run_turn_drops_when_full
  (m : MuxBroker) (stream c0 : Conn) (b0 b1 b2 b3 : Byte.byte) :
  let id := Binary.Uint32 b0 b1 b2 b3 in
  read4_result (session m) stream = inl (b0, b1, b2, b3) ->
  ch (awaited_entry m id) = Some c0 ->
  run (Run_turn m (inl stream))
  = (Continue m (Some (id, fst (getStream m id))), [EvRead stream 4])
  /\ forall w, received (ch (awaited_entry m id)) w = Some c0.
Proof.
  intros id Hread Hfull. split.
  - now apply (Run_turn_when_full m stream c0).
  - intros w. rewrite Hfull. reflexivity.
Qed.

Lemma Run_at_error (m : MuxBroker) (xs ys : list (Conn + error))
      (e : error) (tr : list Event) :
  Run m (xs ++ inr e :: ys) tr = Run m xs tr.
Proof.
  revert m tr. induction xs as [|x xs IH]; intros m tr; [reflexivity|].
  cbn [app Run]. unfold mbind, Act_bind.
  destruct (Run_turn m x tr) as [[|m1 started] tr1]; [reflexivity|].
  now rewrite IH.
Qed.

(** X4. [Run] ends at the first error of [AcceptStream]: what the
    session would deliver after it is never read. And a stream from which
    no ID can be read is closed at once and registers nothing: the loop
    goes on with the broker unchanged and no [timeoutWait] task. *)
Theorem Run_ends_at_first_error
  (m : MuxBroker) (xs ys : list (Conn + error)) (e : error) :
  run (Run m (xs ++ inr e :: ys)) = run (Run m xs)
  /\ forall stream e',
       read4_result (session m) stream = inr e' ->
       Run m (inl stream :: xs) []
       = Run m xs [EvRead stream 4; EvClose (ResStream stream)].
Proof.
  split; [apply Run_at_error|].
  intros stream e' Hread.
  cbn [Run]. unfold Run_turn, binary_Read, conn_Close. rewrite Hread.
  act_step.
  destruct (Run m xs _) as [[m' st] tr']. reflexivity.
Qed.

(** X5. After a successful [Accept] the entry's completion signal is
    closed, so the [timeoutWait] task of the stream is released without
    waiting for its timer: it removes the entry of the ID from the map and
    closes no stream, the accepted one included. *)
Theorem timeoutWait_after_Accept
  (m m2 : MuxBroker) (id : N) (w : Wait) (c : Conn) (tr : list Event) :
  run (Accept m id w) = (Returns (Some c, None, m2), tr) ->
  run (timeoutWait m2 id (fst (getStream m id)) ByDone)
  = (Some (delete_stream m2 id), [])
  /\ streams (delete_stream m2 id) !! id = None
  /\ ~ In (EvClose (ResStream c)) tr.
Proof.
  unfold Accept. destruct (getStream m id) as [p m1]. cbn [fst].
  destruct (received _ w) as [c'|]; [|act_step; discriminate].
  destruct (doneCh_closed (deref m1 p)); [act_step; discriminate|].
  act_step.
  destruct (write_result _ _ _); act_step; [discriminate|].
  intros H. inversion H; subst.
  unfold timeoutWait. rewrite deref_set_pending. cbn [doneCh_closed].
  split; [reflexivity|]. split; [apply lookup_delete_eq|].
  cbn. intros [Hin|[]]. discriminate.
Qed.

Lemma getStream_fresh_entry (m : MuxBroker) (id : N) :
  streams m !! id = None ->
  awaited_entry m id = {| ch := None; doneCh_closed := false |}.
Proof.
  intros Hid. unfold awaited_entry, getStream. rewrite Hid. cbn [fst snd].
  unfold deref. cbn. now rewrite lookup_insert_eq.
Qed.

(** X6. A registered stream that nobody accepts: the [timeoutWait] task
    stays blocked on the completion signal, and when its timer fires it
    closes the stream and removes the entry of the ID; an [Accept] of that
    ID that comes later finds nothing and, with no new stream, fails with
    the timeout error. *)
Theorem timeoutWait_expires
  (m : MuxBroker) (stream : Conn) (b0 b1 b2 b3 : Byte.byte) :
  let id := Binary.Uint32 b0 b1 b2 b3 in
  let p := fst (getStream m id) in
  let m1 := offer (snd (getStream m id)) p stream in
  read4_result (session m) stream = inl (b0, b1, b2, b3) ->
  ch (awaited_entry m id) = None ->
  doneCh_closed (awaited_entry m id) = false ->
  fst (run (Run_turn m (inl stream))) = Continue m1 (Some (id, p))
  /\ run (timeoutWait m1 id p ByDone) = (None, [])
  /\ exists m3,
       run (timeoutWait m1 id p ByTimer)
       = (Some m3, [EvClose (ResStream stream)])
       /\ streams m3 !! id = None
       /\ exists m4,
            run (Accept m3 id Silence)
            = (Returns (None, Some "timeout waiting for accept", m4), [])
            /\ streams m4 !! id = None.
Proof.
  intros id p m1 Hread Hslot Hopen. subst p m1.
  destruct (offer_registered m id stream) as [Hget Hderef].
  rewrite Hslot, Hopen in Hderef.
  split.
  { unfold Run_turn, binary_Read. rewrite Hread. act_step. fold id.
    now destruct (getStream m id). }
  unfold timeoutWait. rewrite Hderef. cbn [ch doneCh_closed]. act_step.
  split; [reflexivity|].
  eexists. split; [reflexivity|].
  split; [apply lookup_delete_eq|].
  unfold Accept.
  match goal with
  | |- context [getStream ?m3 id] =>
      assert (Hnone : streams m3 !! id = None) by apply lookup_delete_eq;
      pose proof (getStream_fresh_entry m3 id Hnone) as Hfresh;
      unfold awaited_entry in Hfresh;
      destruct (getStream m3 id) as [q m4] eqn:Hg
  end.
  cbn [fst snd] in Hfresh. rewrite Hfresh. cbn [ch received]. act_step.
  eexists. split; [reflexivity|]. apply lookup_delete_eq.
Qed.

(** X7. The leftover of a dropped stream: when two [timeoutWait] tasks
    watch the same entry (the second one started for a stream that was
    dropped) and nobody accepts, the first timer closes the stream of the
    slot and returns, and the second task then never returns: it waits for
    a stream on the emptied slot, and the dropped stream is not closed. *)
Theorem timeoutWait_second_task_blocks
  (m : MuxBroker) (stream c0 : Conn) (b0 b1 b2 b3 : Byte.byte) :
  let id := Binary.Uint32 b0 b1 b2 b3 in
  let p := fst (getStream m id) in
  read4_result (session m) stream = inl (b0, b1, b2, b3) ->
  ch (awaited_entry m id) = Some c0 ->
  fst (run (Run_turn m (inl stream))) = Continue m (Some (id, p))
  /\ exists m3,
       run (timeoutWait m id p ByTimer) = (Some m3, [EvClose (ResStream c0)])
       /\ run (timeoutWait m3 id p ByTimer) = (None, []).
Proof.
  intros id p Hread Hfull. subst p.
  pose proof (Run_turn_when_full m stream c0 b0 b1 b2 b3 Hread Hfull)
    as Hturn.
  fold id in Hturn. rewrite Hturn. split; [reflexivity|].
  pose proof (awaited_full_registered m id c0 Hfull) as Hg.
  unfold awaited_entry in Hfull. rewrite Hg in Hfull. cbn [fst snd] in Hfull.
  unfold timeoutWait at 1. rewrite Hfull. act_step.
  eexists. split; [reflexivity|].
  unfold timeoutWait.
  match goal with
  | |- context [deref (set_pending ?a ?b ?c) ?b] =>
      rewrite (deref_set_pending a b c)
  end.
  reflexivity.
Qed.

End BrokerRunFacts.

(** Inputs for the examples of the broker: the broker of a new session
    whose peer sends the ID 7, the same broker once [Run] has registered
    stream 5 under that ID, and the latter once [Accept] has taken it. *)
Module BrokerFixtures.

Definition holding : Broker.MuxBroker :=
  BrokerRun.offer (snd (Broker.getStream Fixtures.broker7 7))
                  (fst (Broker.getStream Fixtures.broker7 7)) 5%positive.

Definition accepted : Broker.MuxBroker :=
  match fst (run (Broker.Accept holding 7 Broker.Silence)) with
  | Returns (_, _, m) => m
  | Panics _ => holding
  end.

End BrokerFixtures.

Lemma Run_turn_then_Accept_witness :
  exists m1 m2,
    run (BrokerRun.Run_turn Fixtures.broker7 (inl 5%positive))
    = (BrokerRun.Continue m1
         (Some (7, fst (Broker.getStream Fixtures.broker7 7))),
       [EvRead 5%positive 4])
    /\ run (Broker.Accept m1 7 Broker.Silence)
       = (Returns (Some 5%positive, None, m2),
          [EvWrite 5%positive (Binary.PutUint32 7)])
    /\ Broker.doneCh_closed
         (Broker.deref m2 (fst (Broker.getStream Fixtures.broker7 7))) = true
    /\ Broker.ch
         (Broker.deref m2 (fst (Broker.getStream Fixtures.broker7 7))) = None.
Proof.
  apply (Run_turn_then_Accept Fixtures.broker7 5%positive
           Byte.x07 Byte.x00 Byte.x00 Byte.x00 Broker.Silence);
    vm_compute; reflexivity.
Defined.

Lemma Run_turn_drops_when_full_witness :
  run (BrokerRun.Run_turn BrokerFixtures.holding (inl 6%positive))
  = (BrokerRun.Continue BrokerFixtures.holding
       (Some (7, fst (Broker.getStream BrokerFixtures.holding 7))),
     [EvRead 6%positive 4])
  /\ forall w,
       Broker.received
         (Broker.ch (Broker.awaited_entry BrokerFixtures.holding 7)) w
       = Some 5%positive.
Proof.
  apply (Run_turn_drops_when_full BrokerFixtures.holding 6%positive 5%positive
           Byte.x07 Byte.x00 Byte.x00 Byte.x00);
    vm_compute; reflexivity.
Defined.

Lemma timeoutWait_after_Accept_witness :
  run (BrokerRun.timeoutWait BrokerFixtures.accepted 7
         (fst (Broker.getStream BrokerFixtures.holding 7)) BrokerRun.ByDone)
  = (Some (Broker.delete_stream BrokerFixtures.accepted 7), [])
  /\ Broker.streams (Broker.delete_stream BrokerFixtures.accepted 7) !! 7
     = None
  /\ ~ In (EvClose (ResStream 5%positive))
         [EvWrite 5%positive (Binary.PutUint32 7)].
Proof.
  apply (timeoutWait_after_Accept BrokerFixtures.holding
           BrokerFixtures.accepted 7 Broker.Silence 5%positive
           [EvWrite 5%positive (Binary.PutUint32 7)]).
  vm_compute. reflexivity.
Defined.

Lemma timeoutWait_expires_witness :
  fst (run (BrokerRun.Run_turn Fixtures.broker7 (inl 5%positive)))
  = BrokerRun.Continue BrokerFixtures.holding
      (Some (7, fst (Broker.getStream Fixtures.broker7 7)))
  /\ run (BrokerRun.timeoutWait BrokerFixtures.holding 7
            (fst (Broker.getStream Fixtures.broker7 7)) BrokerRun.ByDone)
     = (None, [])
  /\ exists m3,
       run (BrokerRun.timeoutWait BrokerFixtures.holding 7
              (fst (Broker.getStream Fixtures.broker7 7)) BrokerRun.ByTimer)
       = (Some m3, [EvClose (ResStream 5%positive)])
       /\ Broker.streams m3 !! 7 = None
       /\ exists m4,
            run (Broker.Accept m3 7 Broker.Silence)
            = (Returns (None, Some "timeout waiting for accept", m4), [])
            /\ Broker.streams m4 !! 7 = None.
Proof.
  apply (timeoutWait_expires Fixtures.broker7 5%positive
           Byte.x07 Byte.x00 Byte.x00 Byte.x00);
    vm_compute; reflexivity.
Defined.

Lemma timeoutWait_second_task_blocks_witness :
  fst (run (BrokerRun.Run_turn BrokerFixtures.holding (inl 6%positive)))
  = BrokerRun.Continue BrokerFixtures.holding
      (Some (7, fst (Broker.getStream BrokerFixtures.holding 7)))
  /\ exists m3,
       run (BrokerRun.timeoutWait BrokerFixtures.holding 7
              (fst (Broker.getStream BrokerFixtures.holding 7))
              BrokerRun.ByTimer)
       = (Some m3, [EvClose (ResStream 5%positive)])
       /\ run (BrokerRun.timeoutWait m3 7
                 (fst (Broker.getStream BrokerFixtures.holding 7))
                 BrokerRun.ByTimer)
          = (None, []).
Proof.
  apply (timeoutWait_second_task_blocks BrokerFixtures.holding 6%positive
           5%positive Byte.x07 Byte.x00 Byte.x00 Byte.x00);
    vm_compute; reflexivity.
Defined.

(** ** The acknowledgement, from [Accept] to [Dial] *)

(** X8. Little-endian round trip: the four bytes written for a [uint32]
    decode to it. *)
Theorem PutUint32_Uint32_roundtrip (v : N) :
  v < 2 ^ 32 ->
  match Binary.PutUint32 v with
  | [b0; b1; b2; b3] => Binary.Uint32 b0 b1 b2 b3 = v
  | _ => False
  end.
Proof. intros Hv. cbn [Binary.PutUint32]. now apply Uint32_PutUint32. Qed.

Lemma PutUint32_Uint32_roundtrip_witness :
  match Binary.PutUint32 305419896 with
  | [b0; b1; b2; b3] => Binary.Uint32 b0 b1 b2 b3 = 305419896
  | _ => False
  end.
Proof. apply (PutUint32_Uint32_roundtrip 305419896). reflexivity. Defined.

(** X9. The two ends of a dispensed stream agree. When the accepting
    side's [Accept] of [id] has succeeded, what it wrote to its stream is
    the four-byte acknowledgement; if those are the bytes the dialing side
    reads after it has written [id], its [Dial] of [id] returns the stream
    and closes nothing. *)
Theorem Dial_meets_Accept
  (ms ms' mc : Broker.MuxBroker) (id : N) (w : Broker.Wait) (cs cc : Conn)
  (b0 b1 b2 b3 : Byte.byte) :
  id < 2 ^ 32 ->
  run (Broker.Accept ms id w)
  = (Returns (Some cs, None, ms'), [EvWrite cs [b0; b1; b2; b3]]) ->
  Broker.open_stream (Broker.session mc) = inl cc ->
  Broker.write_result (Broker.session mc) cc (Binary.PutUint32 id) = None ->
  Broker.read4_result (Broker.session mc) cc = inl (b0, b1, b2, b3) ->
  run (Broker.Dial mc id)
  = ((Some cc, None),
     [EvOpenStream; EvWrite cc (Binary.PutUint32 id); EvRead cc 4]).
Proof.
  intros Hid Hacc Hopen Hwrite Hread.
  apply Dial_acknowledged; try assumption.
  rewrite Hread. f_equal.
  (* the bytes of the trace of Accept are those of PutUint32 *)
  unfold Broker.Accept in Hacc.
  destruct (Broker.getStream ms id) as [p m1].
  destruct (Broker.received _ w) as [c'|]; [|act_step; discriminate].
  destruct (Broker.doneCh_closed _); [act_step; discriminate|].
  act_step.
  destruct (Broker.write_result _ _ _); act_step; [discriminate|].
  inversion Hacc; subst. reflexivity.
Qed.

Lemma Dial_meets_Accept_witness :
  run (Broker.Dial Fixtures.broker7 7)
  = ((Some 3%positive, None),
     [EvOpenStream; EvWrite 3%positive (Binary.PutUint32 7);
      EvRead 3%positive 4]).
Proof.
  apply (Dial_meets_Accept BrokerFixtures.holding BrokerFixtures.accepted
           Fixtures.broker7 7 Broker.Silence 5%positive 3%positive
           Byte.x07 Byte.x00 Byte.x00 Byte.x00);
    vm_compute; reflexivity.
Defined.

(** ** More on [Dispense] and [Close] *)

Module DispenseSeq.

(** The [Dispense] calls a server answers one after the other. *)
Fixpoint Dispenses (d : RPCServerM.dispenseServer) (names : list string)
  : Act (list (option N * option error) * RPCServerM.dispenseServer) :=
  match names with
  | [] => mret ([], d)
  | name :: rest =>
      r ← RPCServerM.Dispense d name;
      let '(resp, err, d1) := r in
      rs ← Dispenses d1 rest;
      mret ((resp, err) :: fst rs, snd rs)
  end.

(** The IDs of the calls that succeeded, in order. *)
Fixpoint granted (rs : list (option N * option error)) : list N :=
  match rs with
  | [] => []
  | (Some id, _) :: rest => id :: granted rest
  | (None, _) :: rest => granted rest
  end.

(** The IDs [n + 1], ..., [n + k]. *)
Fixpoint ids_from (n : N) (k : nat) : list N :=
  match k with
  | O => []
  | S k' => (n + 1) :: ids_from (n + 1) k'
  end.

End DispenseSeq.

Section DispenseFacts.

Import DispenseSeq.

(** One call of the server's [Dispense]: either it fails and the server
    is unchanged, or it answers the counter plus one and stores it. *)
Lemma Dispense_server_step (d : RPCServerM.dispenseServer) (name : string)
      (tr : list Event) :
  Broker.nextId (RPCServerM.broker d) + 1 < uint32_mod ->
  let r := fst (RPCServerM.Dispense d name tr) in
  (fst (fst r) = None /\ snd (fst r) <> None /\ snd r = d)
  \/ (fst (fst r) = Some (Broker.nextId (RPCServerM.broker d) + 1)
      /\ snd (fst r) = None
      /\ Broker.nextId (RPCServerM.broker (snd r))
         = Broker.nextId (RPCServerM.broker d) + 1).
Proof.
  intros Hlt. cbv zeta. unfold RPCServerM.Dispense.
  destruct (RPCServerM.plugins d !! name) as [p|].
  - unfold RPCServerM.plugin_Server. act_step.
    destruct (Server p) as [i [e|]]; cbn.
    + left. repeat split. discriminate.
    + right. unfold wrap32. rewrite N.mod_small by assumption.
      repeat split.
  - left. cbn. repeat split. discriminate.
Qed.

Lemma Dispenses_cons (d : RPCServerM.dispenseServer) (name : string)
      (rest : list string) (tr : list Event) :
  fst (fst (Dispenses d (name :: rest) tr))
  = (let r := RPCServerM.Dispense d name tr in
     (fst (fst (fst r)), snd (fst (fst r)))
     :: fst (fst (Dispenses (snd (fst r)) rest (snd r)))).
Proof.
  cbn [Dispenses]. unfold mbind, Act_bind, mret, Act_ret.
  destruct (RPCServerM.Dispense d name tr) as [[[resp err] d1] tr1].
  cbn [fst snd].
  destruct (Dispenses d1 rest tr1) as [[rs d2] tr2]. reflexivity.
Qed.

Lemma Dispenses_granted (names : list string) :
  forall (d : RPCServerM.dispenseServer) (tr : list Event),
    Broker.nextId (RPCServerM.broker d) + N.of_nat (length names)
    < uint32_mod ->
    granted (fst (fst (Dispenses d names tr)))
    = ids_from (Broker.nextId (RPCServerM.broker d))
               (length (granted (fst (fst (Dispenses d names tr))))).
Proof.
  induction names as [|name rest IH]; intros d tr Hlt; [reflexivity|].
  rewrite Dispenses_cons. cbv zeta.
  pose proof (Dispense_server_step d name tr) as Hstep.
  cbn [length] in Hlt.
  destruct (RPCServerM.Dispense d name tr) as [[[resp err] d1] tr1].
  cbn [fst snd] in *.
  specialize (IH d1 tr1).
  destruct Hstep as [(Hr & _ & Hd)|(Hr & _ & Hn)]; [lia| |]; subst resp.
  - subst d1. cbn [granted]. apply IH. lia.
  - cbn [granted length ids_from].
    f_equal. rewrite <- Hn. apply IH. lia.
Qed.

End DispenseFacts.

(** X10. Over any sequence of [Dispense] calls on a new server-side
    broker, the calls that succeed are answered the IDs 1, 2, 3, ... in
    order, whatever calls fail in between: a call for an unknown name or
    with a failing constructor consumes no ID. Fewer than [2^32] calls are
    assumed. *)
Theorem Dispenses_consecutive_ids
  (s : Broker.Session) (ps : gmap string Plugin) (names : list string) :
  N.of_nat (length names) < 2 ^ 32 ->
  let d := {| RPCServerM.broker := Broker.newMuxBroker s;
              RPCServerM.plugins := ps |} in
  let granted := DispenseSeq.granted
                   (fst (fst (run (DispenseSeq.Dispenses d names)))) in
  granted = DispenseSeq.ids_from 0 (length granted)
  /\ NoDup granted.
Proof.
  intros Hlt d granted.
  assert (Hg : granted = DispenseSeq.ids_from 0 (length granted)).
  { apply (Dispenses_granted names d []). cbn. exact Hlt. }
  split; [exact Hg|].
  rewrite Hg. generalize (length granted). generalize 0.
  intros n k. revert n.
  assert (Hlow : forall k n x, In x (DispenseSeq.ids_from n k) -> n < x).
  { induction k0 as [|k0 IHk]; intros n x Hin; [destruct Hin|].
    cbn in Hin. destruct Hin as [<-|Hin]; [lia|].
    apply IHk in Hin. lia. }
  induction k as [|k IHk]; intros n; cbn [DispenseSeq.ids_from].
  - constructor.
  - constructor; [|apply IHk].
    intros Hin. apply list_elem_of_In in Hin. apply Hlow in Hin. lia.
Qed.

Lemma Dispenses_consecutive_ids_witness :
  DispenseSeq.granted
    (fst (fst (run (DispenseSeq.Dispenses Fixtures.dispenser
                      ["test"; "greeter"; "test"]))))
  = [1; 2].
Proof.
  assert (H : N.of_nat (length ["test"; "greeter"; "test"]) < 2 ^ 32)
    by (vm_compute; reflexivity).
  destruct (Dispenses_consecutive_ids Fixtures.session7 Fixtures.testPluginMap
              ["test"; "greeter"; "test"] H) as [Hg _].
  etransitivity; [exact Hg|]. vm_compute. reflexivity.
Defined.

(** [Dial] only appends to the trace it is given. *)
Lemma Dial_appends (m : Broker.MuxBroker) (id : N) (tr : list Event) :
  Broker.Dial m id tr
  = (fst (run (Broker.Dial m id)), (tr ++ snd (run (Broker.Dial m id)))%list).
Proof.
  unfold Broker.Dial. act_step.
  destruct (Broker.open_stream (Broker.session m)) as [c|e]; act_step;
    [|reflexivity].
  destruct (Broker.write_result _ _ _); act_step;
    [now rewrite <- !app_assoc|].
  destruct (Broker.read4_result _ _) as [[[[? ?] ?] ?]|]; act_step;
    [|now rewrite <- !app_assoc].
  destruct (negb _); act_step; now rewrite <- !app_assoc.
Qed.

Lemma Dispense_client_run
      (c : RPCClientM.RPCClient) (name : string) (p : Plugin) :
  RPCClientM.plugins c !! name = Some p ->
  run (RPCClientM.Dispense c name)
  = (let reply := RPCClientM.dispense_reply (RPCClientM.control c) name in
     let dial := run (Broker.Dial (RPCClientM.broker c) (fst reply)) in
     let call := EvCall "Dispenser.Dispense" name in
     match snd reply with
     | Some e => ((None, Some e), [call])
     | None =>
         match snd (fst dial) with
         | Some e => ((None, Some e), call :: snd dial)
         | None =>
             (Client p (fst (fst dial)),
              (call :: snd dial ++ [EvPluginClient name (fst (fst dial))])%list)
         end
     end).
Proof.
  intros Hp. cbv zeta.
  unfold RPCClientM.Dispense, RPCClientM.control_Call_Dispense,
    RPCClientM.plugin_Client.
  rewrite Hp. unfold run at 1. unfold mbind, Act_bind, mret, Act_ret, emit.
  cbn [app].
  destruct (RPCClientM.dispense_reply (RPCClientM.control c) name)
    as [id [e|]]; cbn [fst snd]; [reflexivity|].
  rewrite Dial_appends.
  destruct (run (Broker.Dial (RPCClientM.broker c) id)) as [[conn [e|]] trd];
    reflexivity.
Qed.

(** X11. The client's [Dispense] of a known name stops at the first
    failure. If the control call fails, its error is returned and no
    stream is opened. Otherwise the ID of the reply is dialed: if [Dial]
    fails, its error is returned and the plugin's client constructor is
    not called; if it succeeds, the constructor is called, last, on the
    stream [Dial] returned, and its results are those of [Dispense]. *)
Theorem Dispense_client_steps
  (c : RPCClientM.RPCClient) (name : string) (p : Plugin) :
  RPCClientM.plugins c !! name = Some p ->
  let reply := RPCClientM.dispense_reply (RPCClientM.control c) name in
  let dial := run (Broker.Dial (RPCClientM.broker c) (fst reply)) in
  let call := EvCall "Dispenser.Dispense" name in
  (forall e, snd reply = Some e ->
     run (RPCClientM.Dispense c name) = ((None, Some e), [call]))
  /\ (snd reply = None ->
      forall e, snd (fst dial) = Some e ->
        run (RPCClientM.Dispense c name) = ((None, Some e), call :: snd dial))
  /\ (snd reply = None ->
      snd (fst dial) = None ->
      run (RPCClientM.Dispense c name)
      = (Client p (fst (fst dial)),
         (call :: snd dial ++ [EvPluginClient name (fst (fst dial))])%list)).
Proof.
  intros Hp reply dial call.
  rewrite (Dispense_client_run c name p Hp). cbv zeta.
  fold reply. fold dial. fold call.
  split; [|split].
  - intros e He. now rewrite He.
  - intros Hr e He. now rewrite Hr, He.
  - intros Hr He. now rewrite Hr, He.
Qed.

Lemma Dispense_client_steps_witness :
  run (RPCClientM.Dispense Fixtures.client_failing "test")
  = (Client Fixtures.test_plugin (Some 3%positive),
     [ EvCall "Dispenser.Dispense" "test"; EvOpenStream;
       EvWrite 3%positive [Byte.x07; Byte.x00; Byte.x00; Byte.x00];
       EvRead 3%positive 4; EvPluginClient "test" (Some 3%positive) ]).
Proof.
  assert (H : RPCClientM.plugins Fixtures.client_failing !! "test"
              = Some Fixtures.test_plugin) by reflexivity.
  destruct (Dispense_client_steps Fixtures.client_failing "test"
              Fixtures.test_plugin H) as (_ & _ & Hok).
  apply Hok; reflexivity.
Defined.

(** X12. [Close] reports success exactly when the [Control.Quit] call and
    all four closes succeeded: any failure on the way, of the call or of
    a close, makes [Close] return an error (which is what makes [Kill]
    give up on a graceful exit). *)
Theorem Close_nil_iff (c : RPCClientM.RPCClient) :
  fst (run (RPCClientM.Close c)) = None
  <-> RPCClientM.quit_reply (RPCClientM.control c) = None
      /\ Forall (fun a => a = None) (close_answers c).
Proof.
  unfold RPCClientM.Close, RPCClientM.control_Call_Quit,
    RPCClientM.control_Close, close_answers.
  act_step.
  destruct (RPCClientM.close_reply (RPCClientM.control c)) as [e1|];
    act_step.
  { split; [discriminate|]. intros [_ HF]. inversion HF; subst. discriminate. }
  destruct (Broker.close_result _ (ResStream (RPCClientM.stdout c)))
    as [e2|]; act_step.
  { split; [discriminate|]. intros [_ HF].
    inversion HF as [|? ? _ HF1]; subst. inversion HF1; subst. discriminate. }
  destruct (Broker.close_result _ (ResStream (RPCClientM.stderr c)))
    as [e3|]; act_step.
  { split; [discriminate|]. intros [_ HF].
    inversion HF as [|? ? _ HF1]; subst.
    inversion HF1 as [|? ? _ HF2]; subst. inversion HF2; subst. discriminate. }
  destruct (Broker.close_result _ ResMux) as [e4|]; act_step.
  { split; [discriminate|]. intros [_ HF].
    inversion HF as [|? ? _ HF1]; subst.
    inversion HF1 as [|? ? _ HF2]; subst.
    inversion HF2 as [|? ? _ HF3]; subst. inversion HF3; subst. discriminate. }
  split.
  - intros H. split; [exact H|]. repeat constructor.
  - intros [H _]. exact H.
Qed.

(** ** Building the two runtimes: [NewRPCClient], [newRPCClient],
       [ServeConn] and [Client.Protocol] *)

Module Setup.

(** What setting a session up does to the connection and to the mux. *)
Inductive SetupEvent :=
| SeNetDial (network : string)
| SeKeepAlive
| SeMuxNew
| SeOpen (k : nat)            (* the k-th Open or Accept on the mux *)
| SeConnClose
| SeMuxClose
| SeGoBrokerRun
| SeGoCopy (name : string) (c : Conn)
| SeLog (msg : string)
| SeServeControl (control : Conn)
| SeResultClose.

Definition ActS (A : Type) : Type := list SetupEvent -> A * list SetupEvent.

#[global] Instance ActS_ret : MRet ActS := fun A x tr => (x, tr).
#[global] Instance ActS_bind : MBind ActS :=
  fun A B f m tr => let '(x, tr') := m tr in f x tr'.

Definition emitS (e : SetupEvent) : ActS unit :=
  fun tr => (tt, (tr ++ [e])%list).

Definition runS {A} (m : ActS A) : A * list SetupEvent := m [].

(** The answers of the network and of the mux package: [net.Dial],
    [mux.Client] or [mux.Server], the successive [Open] or [Accept] calls
    on the mux, the session the broker will use, and the RPC endpoint
    built on a control stream. *)
Record MuxEnv := {
  net_dial : option error;
  mux_new : option error;
  mux_stream : nat -> Conn + error;
  mux_session : Broker.Session;
  endpoint : Conn -> RPCClientM.Control
}.

(** The [k]-th [mx.Open()] (client) or [mx.Accept()] (server). *)
Definition mx_next (env : MuxEnv) (k : nat) : ActS (Conn + error) :=
  emitS (SeOpen k);; mret (mux_stream env k).

(** The loop [for i := range stdstream] from index [i] on, with [n]
    entries left to fill; the control stream was the mux's call 0, so
    entry [i] is its call [i + 1]. The result is the streams, or the
    index and the error of the call that failed. *)
Fixpoint stdstreams (env : MuxEnv) (n i : nat)
  : ActS (list Conn + nat * error) :=
  match n with
  | O => mret (inl [])
  | S n' =>
      r ← mx_next env (S i);
      match r with
      | inr err => mret (inr (i, err))
      | inl c =>
          rest ← stdstreams env n' (S i);
          match rest with
          | inl cs => mret (inl (c :: cs))
          | inr ie => mret (inr ie)
          end
      end
  end.

Definition NewRPCClient (env : MuxEnv) (plugins : gmap string Plugin)
  : ActS (RPCClientM.RPCClient + error) :=
  emitS SeMuxNew;;
  match mux_new env with
  | Some err => emitS SeConnClose;; mret (inr err)
  | None =>
      r ← mx_next env 0;
      match r with
      | inr err => emitS SeMuxClose;; mret (inr err)
      | inl control =>
          ss ← stdstreams env 2 0;
          match ss with
          | inr (_, err) => emitS SeMuxClose;; mret (inr err)
          | inl stdstream =>
              emitS SeGoBrokerRun;;
              mret (inl {| RPCClientM.broker :=
                             Broker.newMuxBroker (mux_session env);
                           RPCClientM.control := endpoint env control;
                           RPCClientM.plugins := plugins;
                           RPCClientM.stdout := nth 0 stdstream 1%positive;
                           RPCClientM.stderr := nth 1 stdstream 1%positive |})
          end
      end
  end.

(** [SyncStreams]: two copy tasks; it always returns nil. *)
Definition SyncStreams (c : RPCClientM.RPCClient) : ActS (option error) :=
  emitS (SeGoCopy "stdout" (RPCClientM.stdout c));;
  emitS (SeGoCopy "stderr" (RPCClientM.stderr c));;
  mret None.

(** [newRPCClient] for the address [Start] left in the client. The
    connection of a TCP address is a [*net.TCPConn]. *)
Definition newRPCClient (env : MuxEnv) (a : Supervisor.Addr)
           (plugins : gmap string Plugin)
  : ActS (RPCClientM.RPCClient + error) :=
  emitS (SeNetDial (Supervisor.Network a));;
  match net_dial env with
  | Some err => mret (inr err)
  | None =>
      (match a with
       | Supervisor.AddrTCP _ => emitS SeKeepAlive
       | Supervisor.AddrUnix _ => mret tt
       end);;
      r ← NewRPCClient env plugins;
      match r with
      | inr err => emitS SeConnClose;; mret (inr err)
      | inl result =>
          e ← SyncStreams result;
          match e with
          | Some err => emitS SeResultClose;; mret (inr err)
          | None => mret (inl result)
          end
      end
  end.

(** What [ServeConn] serves once the three streams are accepted. *)
Record Served := {
  sv_control : Conn;
  sv_stdout : Conn;
  sv_stderr : Conn;
  sv_dispenser : RPCServerM.dispenseServer
}.

Definition ServeConn (s : RPCServerM.RPCServer) (env : MuxEnv)
  : ActS (option Served) :=
  emitS SeMuxNew;;
  match mux_new env with
  | Some err =>
      emitS SeConnClose;;
      emitS (SeLog ("[ERR] plugin: error creating yamux server: " +:+ err));;
      mret None
  | None =>
      r ← mx_next env 0;
      match r with
      | inr err =>
          emitS SeMuxClose;;
          (if String.eqb err "EOF" then mret tt
           else emitS (SeLog ("[ERR] plugin: error accepting control connection: "
                              +:+ err)));;
          mret None
      | inl control =>
          ss ← stdstreams env 2 0;
          match ss with
          | inr (i, err) =>
              emitS SeMuxClose;;
              emitS (SeLog ("[ERR] plugin: accepting stream "
                            +:+ Fmt.fmt_d (N.of_nat i) +:+ ": " +:+ err));;
              mret None
          | inl stdstream =>
              let out := nth 0 stdstream 1%positive in
              let err := nth 1 stdstream 1%positive in
              emitS (SeGoCopy "stdout" out);;
              emitS (SeGoCopy "stderr" err);;
              emitS SeGoBrokerRun;;
              emitS (SeServeControl control);;
              mret (Some {| sv_control := control; sv_stdout := out;
                            sv_stderr := err;
                            sv_dispenser :=
                              {| RPCServerM.broker :=
                                   Broker.newMuxBroker (mux_session env);
                                 RPCServerM.plugins := RPCServerM.Plugins s |} |})
          end
      end
  end.

(** A supervisor together with the client runtime it has cached: the
    value of the field [proto], of which [Supervisor.proto] tells only
    whether it is set. *)
Record Host := {
  sup : Supervisor.Client;
  runtime : option RPCClientM.RPCClient
}.

(** [Client.Protocol]: the two results, the host afterwards, and what
    [Start] and the construction of the runtime did. A nil [addr] after a
    successful [Start] would be dereferenced by [newRPCClient]. *)
Definition Protocol
  (ResolveTCPAddr : string -> string
                    -> option Supervisor.TCPAddr * option error)
  (ResolveUnixAddr : string -> string
                     -> option Supervisor.UnixAddr * option error)
  (plugins : gmap string Plugin)
  (h : Host) (senv : Supervisor.StartEnv) (env : MuxEnv)
  : Outcome (option RPCClientM.RPCClient * option error * Host)
    * list Event * list SetupEvent :=
  let '((_, err, c1), tr) :=
    run (Supervisor.Start ResolveTCPAddr ResolveUnixAddr (sup h) senv) in
  match err with
  | Some e => (Returns (None, Some e, {| sup := c1; runtime := runtime h |}),
               tr, [])
  | None =>
      match runtime h with
      | Some r =>
          (Returns (Some r, None, {| sup := c1; runtime := Some r |}), tr, [])
      | None =>
          match Supervisor.addr c1 with
          | None => (Panics "nil pointer dereference", tr, [])
          | Some a =>
              let '(r, str) := runS (newRPCClient env a plugins) in
              match r with
              | inr e =>
                  (Returns (None, Some e,
                            {| sup := Supervisor.set_proto c1 false;
                               runtime := None |}), tr, str)
              | inl rt =>
                  (Returns (Some rt, None,
                            {| sup := Supervisor.set_proto c1 true;
                               runtime := Some rt |}), tr, str)
              end
          end
      end
  end.

End Setup.

Module SetupFixtures.

(** A mux that hands out the streams 11, 12, 13, ... *)
Definition env_ok : Setup.MuxEnv :=
  {| Setup.net_dial := None;
     Setup.mux_new := None;
     Setup.mux_stream := fun k => inl (Pos.of_nat (11 + k));
     Setup.mux_session := Fixtures.session7;
     Setup.endpoint :=
       fun _ => {| RPCClientM.quit_reply := None;
                   RPCClientM.dispense_reply := fun _ => (7, None);
                   RPCClientM.close_reply := None |} |}.

(** A mux whose creation fails. *)
Definition env_no_mux : Setup.MuxEnv :=
  {| Setup.net_dial := None;
     Setup.mux_new := Some "mux: bad config";
     Setup.mux_stream := Setup.mux_stream env_ok;
     Setup.mux_session := Fixtures.session7;
     Setup.endpoint := Setup.endpoint env_ok |}.

(** A mux on which the stream of stderr cannot be obtained. *)
Definition env_no_stderr : Setup.MuxEnv :=
  {| Setup.net_dial := None;
     Setup.mux_new := None;
     Setup.mux_stream :=
       fun k => if (k =? 2)%nat then inr "session shutdown"
                else inl (Pos.of_nat (11 + k));
     Setup.mux_session := Fixtures.session7;
     Setup.endpoint := Setup.endpoint env_ok |}.

Definition tcp1234 : Supervisor.Addr :=
  Supervisor.AddrTCP (Some {| Supervisor.IP := []; Supervisor.Port := 1234;
                              Supervisor.Zone := "" |}).

End SetupFixtures.

Section SetupFacts.

Import Setup.

Ltac setup_step :=
  repeat (progress
            (unfold runS, mbind, mret, ActS_bind, ActS_ret, emitS, mx_next
              in *));
  cbn [fst snd app] in *.

(** The loop over the two stdio streams: both, or the first failure. *)
Lemma stdstreams_two (env : MuxEnv) (tr : list SetupEvent) :
  stdstreams env 2 0 tr
  = match mux_stream env 1 with
    | inr e => (inr (0%nat, e), (tr ++ [SeOpen 1])%list)
    | inl c1 =>
        match mux_stream env 2 with
        | inr e => (inr (1%nat, e), (tr ++ [SeOpen 1; SeOpen 2])%list)
        | inl c2 => (inl [c1; c2], (tr ++ [SeOpen 1; SeOpen 2])%list)
        end
    end.
Proof.
  cbn [stdstreams]. setup_step.
  destruct (mux_stream env 1); [|reflexivity].
  destruct (mux_stream env 2); now rewrite <- app_assoc.
Qed.

(** How [NewRPCClient] runs, by the first call that fails. *)
Lemma NewRPCClient_run (env : MuxEnv) (plugins : gmap string Plugin) :
  runS (NewRPCClient env plugins)
  = match mux_new env with
    | Some e => (inr e, [SeMuxNew; SeConnClose])
    | None =>
        match mux_stream env 0 with
        | inr e => (inr e, [SeMuxNew; SeOpen 0; SeMuxClose])
        | inl c0 =>
            match mux_stream env 1 with
            | inr e => (inr e, [SeMuxNew; SeOpen 0; SeOpen 1; SeMuxClose])
            | inl c1 =>
                match mux_stream env 2 with
                | inr e =>
                    (inr e, [SeMuxNew; SeOpen 0; SeOpen 1; SeOpen 2;
                             SeMuxClose])
                | inl c2 =>
                    (inl {| RPCClientM.broker :=
                              Broker.newMuxBroker (mux_session env);
                            RPCClientM.control := endpoint env c0;
                            RPCClientM.plugins := plugins;
                            RPCClientM.stdout := c1;
                            RPCClientM.stderr := c2 |},
                     [SeMuxNew; SeOpen 0; SeOpen 1; SeOpen 2; SeGoBrokerRun])
                end
            end
        end
    end.
Proof.
  unfold NewRPCClient. setup_step.
  destruct (mux_new env); [reflexivity|].
  destruct (mux_stream env 0); [|reflexivity].
  rewrite stdstreams_two.
  destruct (mux_stream env 1); [|reflexivity].
  destruct (mux_stream env 2); reflexivity.
Qed.

Lemma NewRPCClient_appends (env : MuxEnv) (plugins : gmap string Plugin)
      (tr : list SetupEvent) :
  NewRPCClient env plugins tr
  = (fst (runS (NewRPCClient env plugins)),
     (tr ++ snd (runS (NewRPCClient env plugins)))%list).
Proof.
  rewrite NewRPCClient_run.
  unfold NewRPCClient. setup_step.
  destruct (mux_new env); [now rewrite <- !app_assoc|].
  destruct (mux_stream env 0); [|now rewrite <- !app_assoc].
  rewrite stdstreams_two.
  destruct (mux_stream env 1); [|now rewrite <- !app_assoc].
  destruct (mux_stream env 2); now rewrite <- !app_assoc.
Qed.

End SetupFacts.

(** X13. [NewRPCClient] obtains exactly three streams from the mux and
    gives them their roles in the order of the calls: control, stdout,
    stderr; only then is the broker's [Run] started. If making the mux
    fails the connection is closed; if one of the three calls fails no
    later call is made and the mux is closed, as the last thing done. In
    both cases the error of the failing call is returned and the broker
    is not started. *)
Theorem NewRPCClient_outcome (env : Setup.MuxEnv) (plugins : gmap string Plugin) :
  let r := fst (Setup.runS (Setup.NewRPCClient env plugins)) in
  let tr := snd (Setup.runS (Setup.NewRPCClient env plugins)) in
  (forall rt, r = inl rt ->
     Setup.mux_new env = None
     /\ Setup.mux_stream env 1 = inl (RPCClientM.stdout rt)
     /\ Setup.mux_stream env 2 = inl (RPCClientM.stderr rt)
     /\ (exists c0, Setup.mux_stream env 0 = inl c0
                    /\ RPCClientM.control rt = Setup.endpoint env c0)
     /\ RPCClientM.plugins rt = plugins
     /\ Broker.nextId (RPCClientM.broker rt) = 0
     /\ tr = [Setup.SeMuxNew; Setup.SeOpen 0; Setup.SeOpen 1; Setup.SeOpen 2;
              Setup.SeGoBrokerRun])
  /\ (forall e, r = inr e ->
        ~ In Setup.SeGoBrokerRun tr
        /\ ((Setup.mux_new env = Some e
             /\ tr = [Setup.SeMuxNew; Setup.SeConnClose])
            \/ (Setup.mux_new env = None
                /\ exists k, (k <= 2)%nat
                     /\ Setup.mux_stream env k = inr e
                     /\ (forall j, (j < k)%nat ->
                           exists c, Setup.mux_stream env j = inl c)
                     /\ tr = (Setup.SeMuxNew :: map Setup.SeOpen (seq 0 (S k))
                              ++ [Setup.SeMuxClose])%list))).
Proof.
  cbv zeta. rewrite NewRPCClient_run.
  destruct (Setup.mux_new env) as [e0|] eqn:Hmux; cbn [fst snd].
  { split; [discriminate|]. intros e He. inversion He; subst.
    split; [|left; split; reflexivity].
    cbn. intros [H|[H|[]]]; discriminate. }
  destruct (Setup.mux_stream env 0) as [c0|e0] eqn:H0; cbn [fst snd].
  2:{ split; [discriminate|]. intros e He. inversion He; subst.
      split; [cbn; intros [H|[H|[H|[]]]]; discriminate|].
      right. split; [reflexivity|]. exists 0%nat.
      split; [lia|]. split; [assumption|]. split; [intros j Hj; lia|].
      reflexivity. }
  destruct (Setup.mux_stream env 1) as [c1|e1] eqn:H1; cbn [fst snd].
  2:{ split; [discriminate|]. intros e He. inversion He; subst.
      split; [cbn; intros [H|[H|[H|[H|[]]]]]; discriminate|].
      right. split; [reflexivity|]. exists 1%nat.
      split; [lia|]. split; [assumption|]. split; [|reflexivity].
      intros j Hj. assert (j = 0%nat) as -> by lia. eauto. }
  destruct (Setup.mux_stream env 2) as [c2|e2] eqn:H2; cbn [fst snd].
  2:{ split; [discriminate|]. intros e He. inversion He; subst.
      split; [cbn; intros [H|[H|[H|[H|[H|[]]]]]]; discriminate|].
      right. split; [reflexivity|]. exists 2%nat.
      split; [lia|]. split; [assumption|]. split; [|reflexivity].
      intros j Hj.
      assert (j = 0%nat \/ j = 1%nat) as [-> | ->] by lia; eauto. }
  split; [|discriminate].
  intros rt Hrt. inversion Hrt; subst. cbn.
  repeat split. eauto.
Qed.

Lemma NewRPCClient_outcome_witness :
  ~ In Setup.SeGoBrokerRun
       (snd (Setup.runS (Setup.NewRPCClient SetupFixtures.env_no_stderr
                           Fixtures.testPluginMap)))
  /\ last (snd (Setup.runS (Setup.NewRPCClient SetupFixtures.env_no_stderr
                              Fixtures.testPluginMap)))
     = Some Setup.SeMuxClose.
Proof.
  destruct (NewRPCClient_outcome SetupFixtures.env_no_stderr
              Fixtures.testPluginMap) as [_ Hfail].
  destruct (Hfail "session shutdown" eq_refl) as [Hrun _].
  split; [exact Hrun | reflexivity].
Defined.

Section SetupFacts2.

Import Setup.

Ltac setup_step :=
  repeat (progress
            (unfold runS, mbind, mret, ActS_bind, ActS_ret, emitS, mx_next,
               SyncStreams in *));
  cbn [fst snd app] in *.

(** How [newRPCClient] runs, in terms of [NewRPCClient]. *)
Lemma newRPCClient_run (env : MuxEnv) (a : Supervisor.Addr)
      (plugins : gmap string Plugin) :
  runS (newRPCClient env a plugins)
  = (let dial := SeNetDial (Supervisor.Network a) in
     let keep := match a with
                 | Supervisor.AddrTCP _ => [SeKeepAlive]
                 | Supervisor.AddrUnix _ => []
                 end in
     let made := runS (NewRPCClient env plugins) in
     match net_dial env with
     | Some e => (inr e, [dial])
     | None =>
         match fst made with
         | inr e => (inr e, (dial :: keep ++ snd made ++ [SeConnClose])%list)
         | inl rt =>
             (inl rt,
              (dial :: keep ++ snd made
               ++ [SeGoCopy "stdout" (RPCClientM.stdout rt);
                   SeGoCopy "stderr" (RPCClientM.stderr rt)])%list)
         end
     end).
Proof.
  cbv zeta. unfold newRPCClient.
  unfold runS at 1. unfold mbind at 1 2, ActS_bind at 1 2.
  unfold emitS at 1. cbn [app].
  destruct (net_dial env); [reflexivity|].
  destruct a as [t|u].
  - unfold emitS at 1. cbn [app]. unfold mbind, ActS_bind at 1.
    rewrite NewRPCClient_appends.
    destruct (fst (runS (NewRPCClient env plugins))) as [rt|e]; setup_step.
    + now rewrite <- !app_assoc.
    + reflexivity.
  - unfold mret at 1, ActS_ret at 1. unfold mbind, ActS_bind at 1.
    rewrite NewRPCClient_appends.
    destruct (fst (runS (NewRPCClient env plugins))) as [rt|e]; setup_step.
    + now rewrite <- !app_assoc.
    + reflexivity.
Qed.

End SetupFacts2.

(** X14. [newRPCClient] does not leak the connection it dialed. If the
    dial fails nothing else is done. If the runtime cannot be built, the
    connection is closed as the last thing done, after the mux when there
    was one; when it was the mux that could not be made, the connection
    is closed twice, once by [NewRPCClient] and once by [newRPCClient].
    On success nothing is closed, keep-alive is set on a TCP connection
    only, and the two copy tasks are started last, on the stdout and
    stderr streams of the runtime. *)
Theorem newRPCClient_releases_connection
  (env : Setup.MuxEnv) (a : Supervisor.Addr) (plugins : gmap string Plugin) :
  let r := fst (Setup.runS (Setup.newRPCClient env a plugins)) in
  let tr := snd (Setup.runS (Setup.newRPCClient env a plugins)) in
  let dial := Setup.SeNetDial (Supervisor.Network a) in
  let keep := match a with
              | Supervisor.AddrTCP _ => [Setup.SeKeepAlive]
              | Supervisor.AddrUnix _ => []
              end in
  (forall e, Setup.net_dial env = Some e -> r = inr e /\ tr = [dial])
  /\ (Setup.net_dial env = None ->
      forall e, r = inr e ->
        last tr = Some Setup.SeConnClose
        /\ ~ In Setup.SeGoBrokerRun tr
        /\ (Setup.mux_new env = Some e ->
            tr = (dial :: keep ++ [Setup.SeMuxNew; Setup.SeConnClose;
                                   Setup.SeConnClose])%list)
        /\ (Setup.mux_new env = None ->
            exists pre, tr = (pre ++ [Setup.SeMuxClose; Setup.SeConnClose])%list))
  /\ (forall rt, r = inl rt ->
        tr = (dial :: keep
              ++ [Setup.SeMuxNew; Setup.SeOpen 0; Setup.SeOpen 1;
                  Setup.SeOpen 2; Setup.SeGoBrokerRun;
                  Setup.SeGoCopy "stdout" (RPCClientM.stdout rt);
                  Setup.SeGoCopy "stderr" (RPCClientM.stderr rt)])%list).
Proof.
  cbv zeta. rewrite newRPCClient_run. cbv zeta.
  rewrite NewRPCClient_run.
  destruct (Setup.net_dial env) as [e0|] eqn:Hdial.
  { cbn [fst snd]. split; [|split].
    - intros e He. inversion He; subst. split; reflexivity.
    - discriminate.
    - discriminate. }
  split; [intros e He; discriminate He|].
  destruct (Setup.mux_new env) as [em|] eqn:Hmux;
    [|destruct (Setup.mux_stream env 0) as [c0|e0];
      [destruct (Setup.mux_stream env 1) as [c1|e1];
       [destruct (Setup.mux_stream env 2) as [c2|e2]|]|]];
    cbn [fst snd];
    (split;
     [ intros _ e He; inversion He; subst;
       destruct a; cbn [app last];
       (split; [reflexivity|]);
       (split; [cbn; intuition discriminate|]);
       (split;
        [ intros Hm; first [discriminate Hm | reflexivity]
        | intros Hm;
          first [ discriminate Hm
                | eexists [_; _; _]; reflexivity
                | eexists [_; _; _; _]; reflexivity
                | eexists [_; _; _; _; _]; reflexivity
                | eexists [_; _; _; _; _; _]; reflexivity ] ])
     | intros rt Hrt; inversion Hrt; subst; reflexivity ]).
Qed.

Lemma newRPCClient_releases_connection_witness :
  snd (Setup.runS (Setup.newRPCClient SetupFixtures.env_no_mux
                     SetupFixtures.tcp1234 Fixtures.testPluginMap))
  = [ Setup.SeNetDial "tcp"; Setup.SeKeepAlive; Setup.SeMuxNew;
      Setup.SeConnClose; Setup.SeConnClose ].
Proof.
  destruct (newRPCClient_releases_connection SetupFixtures.env_no_mux
              SetupFixtures.tcp1234 Fixtures.testPluginMap)
    as (_ & Hfail & _).
  destruct (Hfail eq_refl "mux: bad config" eq_refl) as (_ & _ & Hmux & _).
  exact (Hmux eq_refl).
Defined.

Section ServeConnFacts.

Import Setup.

Ltac setup_step :=
  repeat (progress
            (unfold runS, mbind, mret, ActS_bind, ActS_ret, emitS, mx_next
              in *));
  cbn [fst snd app] in *.

(** How [ServeConn] runs, by the first call that fails. *)
Lemma ServeConn_run (s : RPCServerM.RPCServer) (env : MuxEnv) :
  runS (ServeConn s env)
  = match mux_new env with
    | Some e =>
        (None, [SeMuxNew; SeConnClose;
                SeLog ("[ERR] plugin: error creating yamux server: " +:+ e)])
    | None =>
        match mux_stream env 0 with
        | inr e =>
            (None,
             ([SeMuxNew; SeOpen 0; SeMuxClose]
              ++ (if String.eqb e "EOF" then []
                  else [SeLog ("[ERR] plugin: error accepting control connection: "
                               +:+ e)]))%list)
        | inl c0 =>
            match mux_stream env 1 with
            | inr e =>
                (None, [SeMuxNew; SeOpen 0; SeOpen 1; SeMuxClose;
                        SeLog ("[ERR] plugin: accepting stream 0: " +:+ e)])
            | inl c1 =>
                match mux_stream env 2 with
                | inr e =>
                    (None, [SeMuxNew; SeOpen 0; SeOpen 1; SeOpen 2; SeMuxClose;
                            SeLog ("[ERR] plugin: accepting stream 1: " +:+ e)])
                | inl c2 =>
                    (Some {| sv_control := c0; sv_stdout := c1;
                             sv_stderr := c2;
                             sv_dispenser :=
                               {| RPCServerM.broker :=
                                    Broker.newMuxBroker (mux_session env);
                                  RPCServerM.plugins := RPCServerM.Plugins s |} |},
                     [SeMuxNew; SeOpen 0; SeOpen 1; SeOpen 2;
                      SeGoCopy "stdout" c1; SeGoCopy "stderr" c2;
                      SeGoBrokerRun; SeServeControl c0])
                end
            end
        end
    end.
Proof.
  unfold ServeConn. setup_step.
  destruct (mux_new env); [reflexivity|].
  destruct (mux_stream env 0) as [c0|e0].
  2:{ destruct (String.eqb e0 "EOF"); reflexivity. }
  rewrite stdstreams_two.
  destruct (mux_stream env 1); [|reflexivity].
  destruct (mux_stream env 2); reflexivity.
Qed.

End ServeConnFacts.

(** X15. The first three streams pair up. When the client's mux opens
    the streams [a0], [a1], [a2] in this order and the server's mux
    accepts [b0], [b1], [b2] in this order, both runtimes are built, the
    client takes [a0] for control, [a1] for stdout and [a2] for stderr,
    and the server takes [b0], [b1], [b2] for the same roles: it copies
    its stdout to [b1] and its stderr to [b2], starts its broker, and
    then serves RPC on [b0] with a dispenser over its own plugin set and
    a new broker. *)
Theorem first_three_streams_pair
  (cenv senv : Setup.MuxEnv) (s : RPCServerM.RPCServer)
  (plugins : gmap string Plugin) (a0 a1 a2 b0 b1 b2 : Conn) :
  Setup.mux_new cenv = None -> Setup.mux_new senv = None ->
  Setup.mux_stream cenv 0 = inl a0 -> Setup.mux_stream cenv 1 = inl a1 ->
  Setup.mux_stream cenv 2 = inl a2 ->
  Setup.mux_stream senv 0 = inl b0 -> Setup.mux_stream senv 1 = inl b1 ->
  Setup.mux_stream senv 2 = inl b2 ->
  (exists rt,
      fst (Setup.runS (Setup.NewRPCClient cenv plugins)) = inl rt
      /\ RPCClientM.control rt = Setup.endpoint cenv a0
      /\ RPCClientM.stdout rt = a1 /\ RPCClientM.stderr rt = a2)
  /\ (exists sv,
         Setup.runS (Setup.ServeConn s senv)
         = (Some sv,
            [ Setup.SeMuxNew; Setup.SeOpen 0; Setup.SeOpen 1; Setup.SeOpen 2;
              Setup.SeGoCopy "stdout" b1; Setup.SeGoCopy "stderr" b2;
              Setup.SeGoBrokerRun; Setup.SeServeControl b0 ])
         /\ Setup.sv_control sv = b0
         /\ Setup.sv_stdout sv = b1 /\ Setup.sv_stderr sv = b2
         /\ RPCServerM.plugins (Setup.sv_dispenser sv) = RPCServerM.Plugins s
         /\ Broker.nextId (RPCServerM.broker (Setup.sv_dispenser sv)) = 0).
Proof.
  intros Hc Hs Ha0 Ha1 Ha2 Hb0 Hb1 Hb2.
  rewrite NewRPCClient_run, ServeConn_run.
  rewrite Hc, Hs, Ha0, Ha1, Ha2, Hb0, Hb1, Hb2. cbn [fst].
  split; eexists; repeat split.
Qed.

Lemma first_three_streams_pair_witness :
  (exists rt,
      fst (Setup.runS (Setup.NewRPCClient SetupFixtures.env_ok
                         Fixtures.testPluginMap)) = inl rt
      /\ RPCClientM.control rt = Setup.endpoint SetupFixtures.env_ok 11%positive
      /\ RPCClientM.stdout rt = 12%positive
      /\ RPCClientM.stderr rt = 13%positive)
  /\ (exists sv,
         Setup.runS (Setup.ServeConn
                       (RPCServerM.serve_server Fixtures.testPluginMap)
                       SetupFixtures.env_ok)
         = (Some sv,
            [ Setup.SeMuxNew; Setup.SeOpen 0; Setup.SeOpen 1; Setup.SeOpen 2;
              Setup.SeGoCopy "stdout" 12%positive;
              Setup.SeGoCopy "stderr" 13%positive;
              Setup.SeGoBrokerRun; Setup.SeServeControl 11%positive ])
         /\ Setup.sv_control sv = 11%positive
         /\ Setup.sv_stdout sv = 12%positive
         /\ Setup.sv_stderr sv = 13%positive
         /\ RPCServerM.plugins (Setup.sv_dispenser sv)
            = RPCServerM.Plugins (RPCServerM.serve_server Fixtures.testPluginMap)
         /\ Broker.nextId (RPCServerM.broker (Setup.sv_dispenser sv)) = 0).
Proof.
  apply (first_three_streams_pair SetupFixtures.env_ok SetupFixtures.env_ok
           (RPCServerM.serve_server Fixtures.testPluginMap)
           Fixtures.testPluginMap
           11%positive 12%positive 13%positive
           11%positive 12%positive 13%positive); reflexivity.
Defined.

(** X16. A connection [ServeConn] cannot set up is released and serves
    nothing: when it returns without a served session, no copy task, no
    broker and no RPC service was started, and the connection (if the mux
    could not be made) or the mux (if a stream could not be accepted) was
    closed. The failure is logged, except a control stream that ends with
    [EOF], the peer hanging up, which is passed over in silence. *)
Theorem ServeConn_failure (s : RPCServerM.RPCServer) (env : Setup.MuxEnv) :
  let r := fst (Setup.runS (Setup.ServeConn s env)) in
  let tr := snd (Setup.runS (Setup.ServeConn s env)) in
  let quiet := match Setup.mux_new env, Setup.mux_stream env 0 with
               | None, inr e => String.eqb e "EOF"
               | _, _ => false
               end in
  r = None ->
  (forall e, In e tr ->
     match e with
     | Setup.SeGoCopy _ _ | Setup.SeGoBrokerRun | Setup.SeServeControl _ => False
     | _ => True
     end)
  /\ match Setup.mux_new env with
     | Some _ => In Setup.SeConnClose tr
     | None => In Setup.SeMuxClose tr
     end
  /\ (if quiet
      then tr = [Setup.SeMuxNew; Setup.SeOpen 0; Setup.SeMuxClose]
      else exists pre msg, tr = (pre ++ [Setup.SeLog msg])%list).
Proof.
  cbv zeta. rewrite ServeConn_run.
  destruct (Setup.mux_new env) as [em|];
    [|destruct (Setup.mux_stream env 0) as [c0|e0];
      [destruct (Setup.mux_stream env 1) as [c1|e1];
       [destruct (Setup.mux_stream env 2) as [c2|e2]|]
      |destruct (String.eqb e0 "EOF")]];
    cbn [fst snd app]; intros Hr; try discriminate Hr;
    (split;
     [ intros e Hin; cbn in Hin;
       repeat (destruct Hin as [<-|Hin]; [exact I|]); destruct Hin
     | split;
       [ cbn; tauto
       | first [ reflexivity
               | eexists [_; _], _; reflexivity
               | eexists [_; _; _], _; reflexivity
               | eexists [_; _; _; _], _; reflexivity
               | eexists [_; _; _; _; _], _; reflexivity ] ] ]).
Qed.

Lemma ServeConn_failure_witness :
  In Setup.SeMuxClose
     (snd (Setup.runS (Setup.ServeConn
                         (RPCServerM.serve_server Fixtures.testPluginMap)
                         SetupFixtures.env_no_stderr))).
Proof.
  destruct (ServeConn_failure
              (RPCServerM.serve_server Fixtures.testPluginMap)
              SetupFixtures.env_no_stderr eq_refl) as (_ & Hclosed & _).
  exact Hclosed.
Defined.

(** ** [Client.Protocol] *)

Section ProtocolFacts.

Variable ResolveTCPAddr
  : string -> string -> option Supervisor.TCPAddr * option error.
Variable ResolveUnixAddr
  : string -> string -> option Supervisor.UnixAddr * option error.
Variable plugins : gmap string Plugin.

#[local] Abbreviation Protocol :=
  (Setup.Protocol ResolveTCPAddr ResolveUnixAddr plugins).
#[local] Abbreviation Start :=
  (Supervisor.Start ResolveTCPAddr ResolveUnixAddr).

(** [Protocol] on a host that has an address and a runtime. *)
Lemma Protocol_cached (h : Setup.Host) (a : Supervisor.Addr)
      (rt : RPCClientM.RPCClient)
      (senv : Supervisor.StartEnv) (env : Setup.MuxEnv) :
  Supervisor.addr (Setup.sup h) = Some a ->
  Setup.runtime h = Some rt ->
  Protocol h senv env = (Returns (Some rt, None, h), [], []).
Proof.
  intros Ha Hrt. unfold Setup.Protocol.
  rewrite (Start_cached _ _ _ a senv Ha), Hrt.
  destruct h as [c r]. cbn in *. now subst.
Qed.

End ProtocolFacts.

(** The host after the first [Protocol] of a new supervisor whose child
    prints the line of the mock plugin and whose dial succeeds. *)
Module ProtocolFixtures.

Definition first_call :=
  Setup.Protocol Fixtures.resolveTCP Fixtures.resolveUnix
    Fixtures.testPluginMap
    {| Setup.sup := Fixtures.fresh_client; Setup.runtime := None |}
    (Fixtures.spawned (Supervisor.GotLine "tcp|:1234"))
    SetupFixtures.env_ok.

Definition host_after : Setup.Host :=
  match fst (fst first_call) with
  | Returns (_, _, h) => h
  | Panics _ => {| Setup.sup := Fixtures.fresh_client; Setup.runtime := None |}
  end.

(** The same with a dial that fails. *)
Definition env_no_dial : Setup.MuxEnv :=
  {| Setup.net_dial := Some "dial tcp :1234: connect: connection refused";
     Setup.mux_new := None;
     Setup.mux_stream := Setup.mux_stream SetupFixtures.env_ok;
     Setup.mux_session := Fixtures.session7;
     Setup.endpoint := Setup.endpoint SetupFixtures.env_ok |}.

End ProtocolFixtures.

(** X17. [Protocol] is idempotent: once a call has returned a runtime,
    every later call returns that same runtime, with no error, without
    spawning, dialing or changing anything, whatever the operating system
    and the network would answer. *)
Theorem Protocol_idempotent
  (ResolveTCPAddr : string -> string
                    -> option Supervisor.TCPAddr * option error)
  (ResolveUnixAddr : string -> string
                     -> option Supervisor.UnixAddr * option error)
  (plugins : gmap string Plugin)
  (h h' : Setup.Host) (senv : Supervisor.StartEnv) (env : Setup.MuxEnv)
  (rt : option RPCClientM.RPCClient) (tr : list Event)
  (str : list Setup.SetupEvent) :
  Setup.Protocol ResolveTCPAddr ResolveUnixAddr plugins h senv env
  = (Returns (rt, None, h'), tr, str) ->
  exists r,
    rt = Some r
    /\ forall senv' env',
         Setup.Protocol ResolveTCPAddr ResolveUnixAddr plugins h' senv' env'
         = (Returns (Some r, None, h'), [], []).
Proof.
  unfold Setup.Protocol.
  destruct (run (Supervisor.Start _ _ (Setup.sup h) senv))
    as [[[ra err] c1] tr1] eqn:HS.
  destruct err as [e|]; [intros H; inversion H|].
  destruct (Start_ok_caches _ _ _ _ _ _ _ HS) as (a & -> & Ha).
  destruct (Setup.runtime h) as [r|] eqn:Hr.
  - intros H. inversion H; subst. exists r. split; [reflexivity|].
    intros senv' env'.
    now apply (Protocol_cached _ _ _ _ a r).
  - rewrite Ha.
    destruct (Setup.runS (Setup.newRPCClient env a plugins)) as [[r|e] str1].
    + intros H. inversion H; subst. exists r. split; [reflexivity|].
      intros senv' env'.
      now apply (Protocol_cached _ _ _ _ a r).
    + intros H. inversion H.
Qed.

Lemma Protocol_idempotent_witness :
  exists r,
    Setup.runtime ProtocolFixtures.host_after = Some r
    /\ forall senv' env',
         Setup.Protocol Fixtures.resolveTCP Fixtures.resolveUnix
           Fixtures.testPluginMap ProtocolFixtures.host_after senv' env'
         = (Returns (Some r, None, ProtocolFixtures.host_after), [], []).
Proof.
  apply (Protocol_idempotent Fixtures.resolveTCP Fixtures.resolveUnix
           Fixtures.testPluginMap
           {| Setup.sup := Fixtures.fresh_client; Setup.runtime := None |}
           ProtocolFixtures.host_after
           (Fixtures.spawned (Supervisor.GotLine "tcp|:1234"))
           SetupFixtures.env_ok
           (Setup.runtime ProtocolFixtures.host_after)
           (snd (fst ProtocolFixtures.first_call))
           (snd ProtocolFixtures.first_call)).
  vm_compute. reflexivity.
Defined.

(** A [Start] that reports no error has not killed the child. *)
Lemma Start_ok_no_kill
  (ResolveTCPAddr : string -> string
                    -> option Supervisor.TCPAddr * option error)
  (ResolveUnixAddr : string -> string
                     -> option Supervisor.UnixAddr * option error)
  (c c' : Supervisor.Client) (env : Supervisor.StartEnv)
  (ra : option Supervisor.Addr) (tr : list Event) :
  run (Supervisor.Start ResolveTCPAddr ResolveUnixAddr c env)
  = ((ra, None, c'), tr) ->
  tr = [] \/ tr = [EvCmdStart; EvGo TaskLogStderr; EvGo TaskReaper;
                   EvGo TaskLineReader].
Proof.
  unfold Supervisor.Start.
  destruct (Supervisor.addr c) as [a0|].
  { intros H. inversion H; subst. now left. }
  destruct (Supervisor.stdoutPipe_err env); [discriminate|].
  destruct (Supervisor.stderrPipe_err env); [discriminate|].
  act_step.
  destruct (Supervisor.cmdStart_err env); [discriminate|].
  rewrite spawn_tasks_run.
  destruct (Supervisor.sel_return _) as [[ra' re']|] eqn:Hret.
  - apply select_returns_error in Hret.
    destruct (Supervisor.deferred_guard _ _ _) as [u tr']. cbn.
    intros H. inversion H; subst. now contradiction Hret.
  - destruct (select_falls_through _ _ None (Supervisor.awaited env) Hret)
      as (x & Hx & He).
    rewrite Hx, He. unfold Supervisor.deferred_guard. act_step.
    intros H. inversion H; subst. now right.
Qed.

(** X18. The failures of [Protocol]. An error of [Start] is returned as
    it is and no connection is dialed. When [Start] succeeds and the
    runtime cannot be built, the error of [newRPCClient] is returned, no
    runtime is cached, and the child is left running with its address
    cached: [Protocol] kills nothing, and the next call does not spawn
    again, it only dials again. *)
Theorem Protocol_failures
  (ResolveTCPAddr : string -> string
                    -> option Supervisor.TCPAddr * option error)
  (ResolveUnixAddr : string -> string
                     -> option Supervisor.UnixAddr * option error)
  (plugins : gmap string Plugin)
  (h : Setup.Host) (senv : Supervisor.StartEnv) (env : Setup.MuxEnv) :
  let started := run (Supervisor.Start ResolveTCPAddr ResolveUnixAddr
                        (Setup.sup h) senv) in
  let res := Setup.Protocol ResolveTCPAddr ResolveUnixAddr plugins h senv env in
  (forall e, snd (fst (fst started)) = Some e ->
     res = (Returns (None, Some e,
                     {| Setup.sup := snd (fst started);
                        Setup.runtime := Setup.runtime h |}),
            snd started, []))
  /\ (forall a e,
        snd (fst (fst started)) = None ->
        Setup.runtime h = None ->
        Supervisor.addr (snd (fst started)) = Some a ->
        fst (Setup.runS (Setup.newRPCClient env a plugins)) = inr e ->
        exists h',
          res = (Returns (None, Some e, h'), snd started,
                 snd (Setup.runS (Setup.newRPCClient env a plugins)))
          /\ Setup.runtime h' = None
          /\ Supervisor.addr (Setup.sup h') = Some a
          /\ Supervisor.proc (Setup.sup h')
             = Supervisor.proc (snd (fst started))
          /\ (forall pid, ~ In (EvProcessKill pid) (snd started))
          /\ forall senv' env',
               snd (fst (Setup.Protocol ResolveTCPAddr ResolveUnixAddr plugins
                           h' senv' env')) = []
               /\ snd (Setup.Protocol ResolveTCPAddr ResolveUnixAddr plugins
                         h' senv' env')
                  = snd (Setup.runS (Setup.newRPCClient env' a plugins))).
Proof.
  cbv zeta. unfold Setup.Protocol.
  destruct (run (Supervisor.Start _ _ (Setup.sup h) senv))
    as [[[ra err] c1] tr1] eqn:HS.
  cbn [fst snd]. split.
  - intros e ->. reflexivity.
  - intros a e -> Hrt Ha Hnew. rewrite Hrt, Ha.
    destruct (Setup.runS (Setup.newRPCClient env a plugins)) as [r str1].
    cbn [fst snd] in *. subst r.
    eexists. split; [reflexivity|]. cbn [Setup.runtime Setup.sup].
    split; [reflexivity|]. split; [exact Ha|]. split; [reflexivity|].
    split.
    + intros pid Hin.
      destruct (Start_ok_no_kill _ _ _ _ _ _ _ HS) as [-> | ->];
        cbn in Hin; intuition discriminate.
    + intros senv' env'.
      rewrite (Start_cached _ _ (Supervisor.set_proto c1 false) a senv' Ha).
      cbn [Supervisor.addr Supervisor.set_proto]. rewrite Ha.
      destruct (Setup.runS (Setup.newRPCClient env' a plugins)) as [[r|e'] s'];
        split; reflexivity.
Qed.

Lemma Protocol_failures_witness :
  exists h',
    Setup.Protocol Fixtures.resolveTCP Fixtures.resolveUnix
      Fixtures.testPluginMap
      {| Setup.sup := Fixtures.fresh_client; Setup.runtime := None |}
      (Fixtures.spawned (Supervisor.GotLine "tcp|:1234"))
      ProtocolFixtures.env_no_dial
    = (Returns (None, Some "dial tcp :1234: connect: connection refused", h'),
       [EvCmdStart; EvGo TaskLogStderr; EvGo TaskReaper; EvGo TaskLineReader],
       [Setup.SeNetDial "tcp"])
    /\ Setup.runtime h' = None
    /\ Supervisor.proc (Setup.sup h') = Some Fixtures.child.
Proof.
  destruct (Protocol_failures Fixtures.resolveTCP Fixtures.resolveUnix
              Fixtures.testPluginMap
              {| Setup.sup := Fixtures.fresh_client; Setup.runtime := None |}
              (Fixtures.spawned (Supervisor.GotLine "tcp|:1234"))
              ProtocolFixtures.env_no_dial) as [_ Hdial].
  destruct (Hdial SetupFixtures.tcp1234
              "dial tcp :1234: connect: connection refused"
              eq_refl eq_refl eq_refl eq_refl)
    as (h' & Hres & Hrt & _ & Hproc & _).
  exists h'. split; [exact Hres|]. split; [exact Hrt|exact Hproc].
Defined.

(** ** More on [Start]: how the handshake line is read *)

Section StartLineFacts.

Import GoStrings.

Definition no_bar (s : string) : Prop :=
  ~ In "|"%char (list_ascii_of_string s).

Lemma cut_without (s : string) : no_bar s -> cut "|" s = None.
Proof.
  unfold no_bar. induction s as [|c s IH]; [reflexivity|].
  cbn [list_ascii_of_string In cut]. intros Hno.
  destruct (Ascii.eqb_spec c "|") as [->|Hne]; [tauto|].
  rewrite IH; tauto.
Qed.

Lemma cut_at_first (fam rest : string) :
  no_bar fam -> cut "|" (fam +:+ String "|" rest) = Some (fam, rest).
Proof.
  unfold no_bar. induction fam as [|c fam IH]; [reflexivity|].
  change (String c fam +:+ String "|" rest)
    with (String c (fam +:+ String "|" rest)).
  cbn [list_ascii_of_string In cut]. intros Hno.
  destruct (Ascii.eqb_spec c "|") as [->|Hne]; [tauto|].
  rewrite IH; tauto.
Qed.

Lemma SplitN_two (s : string) :
  SplitN s "|" 2
  = match cut "|" s with
    | Some (a, r) => [a; r]
    | None => [s]
    end.
Proof. destruct s as [|c s]; [reflexivity|]. reflexivity. Qed.

Variable ResolveTCPAddr
  : string -> string -> option Supervisor.TCPAddr * option error.
Variable ResolveUnixAddr
  : string -> string -> option Supervisor.UnixAddr * option error.

(** The select on a line with a bar: the family is what comes before the
    first bar and the address all that comes after it. *)
Lemma select_two_fields (err : option error) (line fam rest : string) :
  TrimSpace line = fam +:+ String "|" rest ->
  no_bar fam ->
  Supervisor.select_stmt ResolveTCPAddr ResolveUnixAddr err
    (Supervisor.GotLine line)
  = (let ae := Supervisor.resolve ResolveTCPAddr ResolveUnixAddr fam rest in
     {| Supervisor.sel_return :=
          match snd ae with
          | Some _ => Some ae
          | None => None
          end;
        Supervisor.sel_addr := fst ae;
        Supervisor.sel_err := snd ae |}).
Proof.
  intros Hline Hfam. unfold Supervisor.select_stmt.
  rewrite Hline, SplitN_two, (cut_at_first fam rest Hfam).
  cbn [length Nat.ltb Nat.leb nth].
  destruct (Supervisor.resolve _ _ fam rest) as [a [e|]]; reflexivity.
Qed.

Lemma select_no_bar (err : option error) (line : string) :
  no_bar (TrimSpace line) ->
  Supervisor.select_stmt ResolveTCPAddr ResolveUnixAddr err
    (Supervisor.GotLine line)
  = {| Supervisor.sel_return :=
         Some (None, Some (Supervisor.unrecognized_error (TrimSpace line)));
       Supervisor.sel_addr := None;
       Supervisor.sel_err := err |}.
Proof.
  intros Hno. unfold Supervisor.select_stmt.
  rewrite SplitN_two, (cut_without _ Hno). reflexivity.
Qed.

(** [Start] on a client without an address when the spawn succeeds. *)
Lemma Start_spawned_run (c : Supervisor.Client) (p : Supervisor.Process)
      (ev : Supervisor.Awaited) :
  Supervisor.addr c = None ->
  run (Supervisor.Start ResolveTCPAddr ResolveUnixAddr c (Fixtures.spawn_ok p ev))
  = (let c2 := Supervisor.set_clientWg
                 (Supervisor.set_stderrWg
                    (Supervisor.set_doneCtx (Supervisor.set_proc c (Some p))
                                            (Some false))
                    (S (Supervisor.stderrWg c)))
                 (S (S (S (Supervisor.clientWg c)))) in
     let sel := Supervisor.select_stmt ResolveTCPAddr ResolveUnixAddr None ev in
     let spawned := [EvCmdStart; EvGo TaskLogStderr; EvGo TaskReaper;
                     EvGo TaskLineReader] in
     let killed := match Supervisor.sel_err sel with
                   | Some _ => [EvProcessKill (Supervisor.Pid p)]
                   | None => []
                   end in
     match Supervisor.sel_return sel with
     | Some (ra, re) => ((ra, re, c2), (spawned ++ killed)%list)
     | None =>
         ((Supervisor.sel_addr sel, None,
           Supervisor.set_addr c2 (Supervisor.sel_addr sel)),
          (spawned ++ killed)%list)
     end).
Proof.
  intros Ha. cbv zeta. unfold Supervisor.Start, Fixtures.spawn_ok.
  rewrite Ha.
  cbn [Supervisor.stdoutPipe_err Supervisor.stderrPipe_err
       Supervisor.cmdStart_err Supervisor.cmdProcess Supervisor.awaited].
  act_step. rewrite spawn_tasks_run.
  cbn [Supervisor.stderrWg Supervisor.clientWg Supervisor.set_doneCtx
       Supervisor.set_proc].
  destruct (Supervisor.sel_return _) as [[ra re]|];
    destruct (Supervisor.sel_err _); reflexivity.
Qed.

End StartLineFacts.

(** X19. A launch failure leaves the supervisor as it was. When a pipe
    cannot be made or the command cannot be started, [Start] on a new
    supervisor returns that error, starts no task and kills nothing, and
    the client is unchanged: it has no process, so a [Kill] that reaches
    its snapshot returns at once. *)
Theorem Start_launch_failure
  (ResolveTCPAddr : string -> string
                    -> option Supervisor.TCPAddr * option error)
  (ResolveUnixAddr : string -> string
                     -> option Supervisor.UnixAddr * option error)
  (cfg : Supervisor.ClientConfig) (env : Supervisor.StartEnv) (e : error) :
  let c := Supervisor.NewClient cfg in
  let res := run (Supervisor.Start ResolveTCPAddr ResolveUnixAddr c env) in
  Supervisor.stdoutPipe_err env = Some e
  \/ (Supervisor.stdoutPipe_err env = None
      /\ Supervisor.stderrPipe_err env = Some e)
  \/ (Supervisor.stdoutPipe_err env = None
      /\ Supervisor.stderrPipe_err env = None
      /\ Supervisor.cmdStart_err env = Some e) ->
  fst res = (None, Some e, c)
  /\ (forall t, ~ In (EvGo t) (snd res))
  /\ (forall pid, ~ In (EvProcessKill pid) (snd res))
  /\ forall w,
       Supervisor.cl w = snd (fst res) ->
       Supervisor.kill w = Supervisor.KSnapshot ->
       Supervisor.step Supervisor.LKill w = Some (Supervisor.kill_returns w).
Proof.
  intros c res Hfail. subst res.
  assert (Hrun : run (Supervisor.Start ResolveTCPAddr ResolveUnixAddr c env)
                 = ((None, Some e, c), [])
                 \/ run (Supervisor.Start ResolveTCPAddr ResolveUnixAddr c env)
                    = ((None, Some e, c), [EvCmdStart])).
  { unfold Supervisor.Start. cbn [Supervisor.addr c Supervisor.NewClient].
    destruct Hfail as [H1|[[H1 H2]|(H1 & H2 & H3)]].
    - rewrite H1. now left.
    - rewrite H1, H2. now left.
    - rewrite H1, H2. act_step. rewrite H3. now right. }
  destruct Hrun as [-> | ->]; cbn [fst snd];
    (split; [reflexivity|]);
    (split; [intros t Hin; cbn in Hin; intuition discriminate|]);
    (split; [intros pid Hin; cbn in Hin; intuition discriminate|]);
    intros w Hcl Hk; cbn; unfold Supervisor.step_kill; rewrite Hk, Hcl;
    reflexivity.
Qed.

Lemma Start_launch_failure_witness :
  fst (run (Supervisor.Start Fixtures.resolveTCP Fixtures.resolveUnix
              Fixtures.fresh_client
              {| Supervisor.stdoutPipe_err := None;
                 Supervisor.stderrPipe_err := None;
                 Supervisor.cmdStart_err :=
                   Some "fork/exec ./plugin/greeter: no such file or directory";
                 Supervisor.cmdProcess := Fixtures.child;
                 Supervisor.awaited := Supervisor.GotTimeout |}))
  = (None, Some "fork/exec ./plugin/greeter: no such file or directory",
     Fixtures.fresh_client).
Proof.
  eapply (Start_launch_failure Fixtures.resolveTCP Fixtures.resolveUnix
            {| Supervisor.StartTimeout := 0 |}).
  right. right. repeat split.
Defined.

Definition spawned_events : list Event :=
  [EvCmdStart; EvGo TaskLogStderr; EvGo TaskReaper; EvGo TaskLineReader].

(** X20. What [Start] takes from the line. On a trimmed line with a
    vertical bar, the family is the text before the first bar and the
    address is everything after it, later bars included; a [tcp] family
    goes to [ResolveTCPAddr] and a [unix] family to [ResolveUnixAddr], each
    with that address. If the resolver reports no error its address is
    returned and cached and the child is left running; if it reports one,
    the error is returned, nothing is cached and the child is killed. *)
Theorem Start_reads_family_and_address
  (ResolveTCPAddr : string -> string
                    -> option Supervisor.TCPAddr * option error)
  (ResolveUnixAddr : string -> string
                     -> option Supervisor.UnixAddr * option error)
  (c : Supervisor.Client) (p : Supervisor.Process) (line fam rest : string) :
  Supervisor.addr c = None ->
  GoStrings.TrimSpace line = fam +:+ String "|" rest ->
  no_bar fam ->
  let ae := Supervisor.resolve ResolveTCPAddr ResolveUnixAddr fam rest in
  let res := run (Supervisor.Start ResolveTCPAddr ResolveUnixAddr c
                    (Fixtures.spawn_ok p (Supervisor.GotLine line))) in
  (fam = "tcp" ->
     ae = (Some (Supervisor.AddrTCP (fst (ResolveTCPAddr "tcp" rest))),
           snd (ResolveTCPAddr "tcp" rest)))
  /\ (fam = "unix" ->
      ae = (Some (Supervisor.AddrUnix (fst (ResolveUnixAddr "unix" rest))),
            snd (ResolveUnixAddr "unix" rest)))
  /\ (snd ae = None ->
      fst (fst res) = (fst ae, None)
      /\ Supervisor.addr (snd (fst res)) = fst ae
      /\ snd res = spawned_events)
  /\ (forall e, snd ae = Some e ->
        fst (fst res) = (fst ae, Some e)
        /\ Supervisor.addr (snd (fst res)) = None
        /\ snd res = (spawned_events ++ [EvProcessKill (Supervisor.Pid p)])%list).
Proof.
  intros Hc Hline Hfam ae res. subst ae res.
  rewrite (Start_spawned_run _ _ c p _ Hc). cbv zeta.
  rewrite (select_two_fields _ _ None line fam rest Hline Hfam). cbv zeta.
  cbn [Supervisor.sel_return Supervisor.sel_addr Supervisor.sel_err].
  split; [|split].
  - intros ->. unfold Supervisor.resolve. cbn [String.eqb Ascii.eqb Bool.eqb].
    now destruct (ResolveTCPAddr "tcp" rest).
  - intros ->. unfold Supervisor.resolve. cbn [String.eqb Ascii.eqb Bool.eqb].
    now destruct (ResolveUnixAddr "unix" rest).
  - destruct (Supervisor.resolve _ _ fam rest) as [a [e|]]; cbn [fst snd].
    + split; [discriminate|]. intros e' He. inversion He; subst.
      repeat split. cbn. exact Hc.
    + split; [|intros e He; discriminate He]. intros _. repeat split.
Qed.

Lemma Start_reads_family_and_address_witness :
  fst (fst (run (Supervisor.Start Fixtures.resolveTCP Fixtures.resolveUnix
                   Fixtures.fresh_client
                   (Fixtures.spawn_ok Fixtures.child
                      (Supervisor.GotLine "  unix|/tmp/plugin|7 ")))))
  = (Some (Supervisor.AddrUnix
             (Some {| Supervisor.Name := "/tmp/plugin|7";
                      Supervisor.Net := "unix" |})), None).
Proof.
  assert (Hno : no_bar "unix").
  { unfold no_bar. cbn. intuition discriminate. }
  destruct (Start_reads_family_and_address
              Fixtures.resolveTCP Fixtures.resolveUnix Fixtures.fresh_client
              Fixtures.child "  unix|/tmp/plugin|7 " "unix" "/tmp/plugin|7"
              eq_refl eq_refl Hno) as (_ & _ & Hok & _).
  destruct (Hok eq_refl) as (Hres & _). exact Hres.
Defined.

(** X21. A family that is neither [tcp] nor [unix] is refused: [Start]
    returns [Unknown address type: <family>] with a nil address, caches
    nothing and kills the child it spawned. *)
Theorem Start_unknown_family
  (ResolveTCPAddr : string -> string
                    -> option Supervisor.TCPAddr * option error)
  (ResolveUnixAddr : string -> string
                     -> option Supervisor.UnixAddr * option error)
  (c : Supervisor.Client) (p : Supervisor.Process) (line fam rest : string) :
  Supervisor.addr c = None ->
  GoStrings.TrimSpace line = fam +:+ String "|" rest ->
  no_bar fam ->
  fam <> "tcp" -> fam <> "unix" ->
  let res := run (Supervisor.Start ResolveTCPAddr ResolveUnixAddr c
                    (Fixtures.spawn_ok p (Supervisor.GotLine line))) in
  fst (fst res) = (None, Some ("Unknown address type: " +:+ fam))
  /\ Supervisor.addr (snd (fst res)) = None
  /\ Supervisor.proc (snd (fst res)) = Some p
  /\ snd res = (spawned_events ++ [EvProcessKill (Supervisor.Pid p)])%list.
Proof.
  intros Hc Hline Hfam Htcp Hunix res. subst res.
  rewrite (Start_spawned_run _ _ c p _ Hc). cbv zeta.
  rewrite (select_two_fields _ _ None line fam rest Hline Hfam). cbv zeta.
  cbn [Supervisor.sel_return Supervisor.sel_addr Supervisor.sel_err].
  unfold Supervisor.resolve.
  destruct (String.eqb_spec fam "tcp") as [Heq|_]; [contradiction|].
  destruct (String.eqb_spec fam "unix") as [Heq|_]; [contradiction|].
  cbn. repeat split. exact Hc.
Qed.

Lemma Start_unknown_family_witness :
  fst (fst (run (Supervisor.Start Fixtures.resolveTCP Fixtures.resolveUnix
                   Fixtures.fresh_client
                   (Fixtures.spawn_ok Fixtures.child
                      (Supervisor.GotLine "udp|:1234")))))
  = (None, Some "Unknown address type: udp").
Proof.
  assert (Hno : no_bar "udp").
  { unfold no_bar. cbn. intuition discriminate. }
  assert (H1 : "udp" <> "tcp") by discriminate.
  assert (H2 : "udp" <> "unix") by discriminate.
  destruct (Start_unknown_family
              Fixtures.resolveTCP Fixtures.resolveUnix Fixtures.fresh_client
              Fixtures.child "udp|:1234" "udp" ":1234"
              eq_refl eq_refl Hno H1 H2) as (Hres & _).
  exact Hres.
Defined.

(** X22. A line without a vertical bar is refused with the
    [Unrecognized remote plugin message] error, which quotes the trimmed
    line. This is also what a child that closes its stdout before any
    line gets: the receive on the closed channel yields the empty line.
    The client keeps the spawned process and no address, and this return
    does not kill the child. *)
Theorem Start_line_without_bar
  (ResolveTCPAddr : string -> string
                    -> option Supervisor.TCPAddr * option error)
  (ResolveUnixAddr : string -> string
                     -> option Supervisor.UnixAddr * option error)
  (c : Supervisor.Client) (p : Supervisor.Process) (line : string) :
  Supervisor.addr c = None ->
  no_bar (GoStrings.TrimSpace line) ->
  let res := run (Supervisor.Start ResolveTCPAddr ResolveUnixAddr c
                    (Fixtures.spawn_ok p (Supervisor.GotLine line))) in
  fst (fst res)
  = (None, Some ("Unrecognized remote plugin message: "
                 +:+ GoStrings.TrimSpace line +:+ ServerMain.newline
                 +:+ ServerMain.newline
                 +:+ "This usually means that the plugin is either invalid or simply"
                 +:+ ServerMain.newline
                 +:+ "needs to be recompiled to support the latest protocol."))
  /\ Supervisor.addr (snd (fst res)) = None
  /\ Supervisor.proc (snd (fst res)) = Some p
  /\ snd res = spawned_events.
Proof.
  intros Hc Hno res. subst res.
  rewrite (Start_spawned_run _ _ c p _ Hc). cbv zeta.
  rewrite (select_no_bar _ _ None line Hno).
  cbn. repeat split. exact Hc.
Qed.

Lemma Start_line_without_bar_witness :
  Supervisor.addr
    (snd (fst (run (Supervisor.Start Fixtures.resolveTCP Fixtures.resolveUnix
                      Fixtures.fresh_client
                      (Fixtures.spawn_ok Fixtures.child
                         (Supervisor.GotLine ""))))))
  = None
  /\ snd (run (Supervisor.Start Fixtures.resolveTCP Fixtures.resolveUnix
                 Fixtures.fresh_client
                 (Fixtures.spawn_ok Fixtures.child (Supervisor.GotLine ""))))
     = spawned_events.
Proof.
  assert (Hno : no_bar (GoStrings.TrimSpace "")).
  { unfold no_bar. cbn. tauto. }
  destruct (Start_line_without_bar
              Fixtures.resolveTCP Fixtures.resolveUnix Fixtures.fresh_client
              Fixtures.child "" eq_refl Hno) as (_ & Ha & _ & Htr).
  split; [exact Ha | exact Htr].
Defined.

(** ** [Client.logStderr] *)

Module StderrLog.

(** What the task writes: bytes to the sink [config.Stderr], a line to
    its logger, or the report of a read error to its logger. *)
Inductive Out :=
| ToSink (bs : list Byte.byte)
| ToLog (line : list Byte.byte)
| LogReadError (e : error).

Definition nl : list Byte.byte := [Byte.x0a].

(** The loop of [logStderr], over the successive results of
    [reader.ReadLine()]: the lines or fragments with their [isPrefix]
    flags, then the error that ends the loop ([None] for [io.EOF]). *)
Fixpoint loop (continuation : bool) (reads : list (list Byte.byte * bool))
         (final : option error) : list Out :=
  match reads with
  | [] =>
      match final with
      | None => []
      | Some e => [LogReadError e]
      end
  | (line, isPrefix) :: rest =>
      ToSink line ::
      (if isPrefix || continuation
       then ToLog line ::
            ((if negb isPrefix then [ToSink nl] else [])
             ++ loop isPrefix rest final)%list
       else ToSink nl :: loop continuation rest final)
  end.

Definition logStderr (reads : list (list Byte.byte * bool))
           (final : option error) : list Out :=
  loop false reads final.

(** The bytes that reached the sink, and the lines that were logged. *)
Fixpoint sink (out : list Out) : list Byte.byte :=
  match out with
  | [] => []
  | ToSink bs :: rest => (bs ++ sink rest)%list
  | _ :: rest => sink rest
  end.

Fixpoint logged (out : list Out) : list (list Byte.byte) :=
  match out with
  | [] => []
  | ToLog l :: rest => l :: logged rest
  | _ :: rest => logged rest
  end.

(** The text the reads stand for: each fragment, with a line feed after
    every fragment that ends its line. *)
Fixpoint text (reads : list (list Byte.byte * bool)) : list Byte.byte :=
  match reads with
  | [] => []
  | (line, isPrefix) :: rest =>
      (line ++ (if isPrefix then [] else nl) ++ text rest)%list
  end.

(** The fragments of the lines that did not fit the buffer: those read
    with [isPrefix], and the one that ends such a run. *)
Fixpoint long_fragments (continuation : bool)
         (reads : list (list Byte.byte * bool)) : list (list Byte.byte) :=
  match reads with
  | [] => []
  | (line, isPrefix) :: rest =>
      if isPrefix || continuation
      then line :: long_fragments isPrefix rest
      else long_fragments false rest
  end.

End StderrLog.

Section StderrLogFacts.

Import StderrLog.

Lemma loop_sink (reads : list (list Byte.byte * bool)) :
  forall continuation final,
    sink (loop continuation reads final) = text reads.
Proof.
  induction reads as [|[line isPrefix] rest IH]; intros continuation final.
  - destruct final; reflexivity.
  - cbn [loop text sink].
    destruct isPrefix; cbn [orb negb].
    + cbn [sink app]. now rewrite IH.
    + destruct continuation; cbn [sink app nl]; now rewrite IH.
Qed.

Lemma loop_logged (reads : list (list Byte.byte * bool)) :
  forall continuation final,
    logged (loop continuation reads final) = long_fragments continuation reads.
Proof.
  induction reads as [|[line isPrefix] rest IH]; intros continuation final.
  - destruct final; reflexivity.
  - cbn [loop long_fragments logged].
    destruct isPrefix; cbn [orb negb].
    + cbn [logged app]. now rewrite IH.
    + destruct continuation; cbn [logged app]; now rewrite IH.
Qed.

End StderrLogFacts.

(** X23. [logStderr] forwards the child's stderr byte for byte: whatever
    the sequence of lines and fragments [ReadLine] delivers, the bytes
    written to the sink are the fragments in order with one line feed
    after each fragment that completes a line, and none after a fragment
    that does not. The logger gets only the fragments of lines too long
    for the buffer (and a read error other than end of file); a stream of
    lines that all fit is forwarded without a single log record. *)
Theorem logStderr_forwards
  (reads : list (list Byte.byte * bool)) (final : option error) :
  StderrLog.sink (StderrLog.logStderr reads final) = StderrLog.text reads
  /\ StderrLog.logged (StderrLog.logStderr reads final)
     = StderrLog.long_fragments false reads
  /\ (Forall (fun r => snd r = false) reads ->
      StderrLog.logged (StderrLog.logStderr reads final) = []
      /\ StderrLog.sink (StderrLog.logStderr reads final)
         = concat (map (fun r => (fst r ++ StderrLog.nl)%list) reads)).
Proof.
  unfold StderrLog.logStderr.
  rewrite loop_sink, loop_logged.
  split; [reflexivity|]. split; [reflexivity|].
  intros Hfit. induction Hfit as [|[line isPrefix] rest Hx _ IH].
  - split; reflexivity.
  - cbn in Hx. subst isPrefix. destruct IH as [IH1 IH2].
    cbn [StderrLog.long_fragments orb StderrLog.text map concat fst].
    split; [exact IH1|]. rewrite IH2. now rewrite <- app_assoc.
Qed.

(** The stderr of the test helper: [HELLO] and [WORLD], each on a line;
    and a line cut in two by the buffer. *)
Example logStderr_hello_world :
  let hello := [Byte.x48; Byte.x45; Byte.x4c; Byte.x4c; Byte.x4f] in
  let world := [Byte.x57; Byte.x4f; Byte.x52; Byte.x4c; Byte.x44] in
  StderrLog.logStderr [(hello, false); (world, false)] None
  = [ StderrLog.ToSink hello; StderrLog.ToSink StderrLog.nl;
      StderrLog.ToSink world; StderrLog.ToSink StderrLog.nl ]
  /\ StderrLog.logStderr [(hello, true); (world, false)] None
     = [ StderrLog.ToSink hello; StderrLog.ToLog hello;
         StderrLog.ToSink world; StderrLog.ToLog world;
         StderrLog.ToSink StderrLog.nl ].
Proof. split; reflexivity. Qed.

(** ** More on [Kill] and the supervisor's tasks *)

Module KillMore.

(** [killed], under the lock. *)
Definition killed (c : Supervisor.Client) : bool := Supervisor.procKilled c.

(** A forced kill of a supervisor that has no address: the forwarder and
    the line reader reach end of file, [Kill] goes straight to
    [proc.Kill()], the reaper records the exit, [Kill] joins and
    returns. *)
Definition forced_kill_no_addr : list Supervisor.Label :=
  [ Supervisor.LFwd; Supervisor.LFwd; Supervisor.LFwd;
    Supervisor.LLines false; Supervisor.LLines false; Supervisor.LLines false;
    Supervisor.LKill; Supervisor.LKill; Supervisor.LKill;
    Supervisor.LKill; Supervisor.LKill;
    Supervisor.LReaper; Supervisor.LReaper; Supervisor.LReaper;
    Supervisor.LReaper; Supervisor.LReaper;
    Supervisor.LKill; Supervisor.LKill ].

(** A graceful kill: [Close] succeeds, the child exits on its own, the
    tasks finish, the reaper cancels the context, and [Kill], woken by
    it, joins and returns without killing. *)
Definition graceful_kill : list Supervisor.Label :=
  [ Supervisor.LKill; Supervisor.LKill; Supervisor.LKillClose true true;
    Supervisor.LChildExits;
    Supervisor.LFwd; Supervisor.LFwd; Supervisor.LFwd;
    Supervisor.LLines false; Supervisor.LLines false; Supervisor.LLines false;
    Supervisor.LReaper; Supervisor.LReaper; Supervisor.LReaper;
    Supervisor.LReaper; Supervisor.LReaper;
    Supervisor.LKill; Supervisor.LKill; Supervisor.LKill ].

(** The client after a [Start] that timed out. *)
Definition timed_out_client : Supervisor.Client :=
  snd (fst (run (Supervisor.Start Fixtures.resolveTCP Fixtures.resolveUnix
                   Fixtures.fresh_client
                   (Fixtures.spawned Supervisor.GotTimeout)))).

Definition after (ls : list Supervisor.Label) (c : Supervisor.Client)
  : Supervisor.World :=
  default (Supervisor.world_after_start c)
          (Supervisor.exec ls (Supervisor.world_after_start c)).

End KillMore.

Section KillMoreFacts.

Import Supervisor.

(** More that every run keeps. Past its join, [Kill] has seen all tasks
    signal. [procKilled] is set only after the kill was sent. A graceful
    wait is entered only with a runtime, and [Kill] gets past it without
    killing only when the exit was signalled. The address [Kill] works
    with is the client's; without one it never waits and gets to its join
    only through the kill. *)
Definition inv_kill (w : World) : Prop :=
  ((kill w = KClear \/ (0 < kills_returned w)%nat) -> clientWg (cl w) = 0%nat)
  /\ ((procKilled (cl w) = true \/ kill w = KMark) -> child_alive w = false)
  /\ match kill w with
     | KAwaitExit _ => proto (cl w) = true
     | KGraceful _ a => a = addr (cl w)
     | _ => True
     end
  /\ ((kill w = KJoin \/ kill w = KClear \/ (0 < kills_returned w)%nat) ->
      (procKilled (cl w) = false ->
       proto (cl w) = true /\ doneCtx (cl w) = Some true)
      /\ (addr (cl w) = None -> procKilled (cl w) = true))
  /\ (addr (cl w) = None ->
      match kill w with
      | KAwaitExit _ => False
      | _ => True
      end).

Ltac kill_cases :=
  repeat match goal with
         | H : Some _ = Some _ |- _ => inversion H; clear H; subst
         | H : None = Some _ |- _ => discriminate H
         | H : (_, _) = (_, _) |- _ => inversion H; clear H; subst
         | H : _ /\ _ |- _ => destruct H
         | H : (_ =? _)%nat = true |- _ => apply Nat.eqb_eq in H
         | H : (_ && _) = true |- _ => apply andb_prop in H
         | H : context [match ?x with _ => _ end] |- _ =>
             let E := fresh "E" in destruct x eqn:E; cbn in H
         | |- _ => progress cbn
         | |- context [if ?x then _ else _] =>
             let E := fresh "E" in destruct x eqn:E
         end.

Ltac kill_premise :=
  first [ left; reflexivity
        | right; left; reflexivity
        | right; reflexivity
        | right; right; lia
        | right; lia ].

Ltac kill_feed :=
  repeat match goal with
         | H : ?A \/ ?B -> _ |- _ =>
             first [ let HP := fresh in
                     assert (HP : A \/ B) by kill_premise;
                     specialize (H HP); clear HP
                   | clear H ]
         | H : _ /\ _ |- _ => destruct H
         | H : ?a = ?a -> _ |- _ => specialize (H eq_refl)
         end.

Ltac kill_done :=
  cbn in *; subst; repeat split; intros;
  repeat match goal with
         | H : _ \/ _ |- _ => destruct H
         | H : _ /\ _ |- _ => destruct H
         end;
  try discriminate; try lia; try tauto; try congruence;
  auto;
  kill_feed;
  try discriminate; try lia; try tauto; try congruence; auto.

Lemma step_inv_kill (l : Label) (w w' : World) :
  inv w -> inv_kill w -> step l w = Some w' -> inv_kill w'.
Proof.
  destruct w as [c alive recv rp fw ln kl kr].
  destruct c as [cfg ex ad pr pt dc cw sw pk].
  unfold inv, inv_kill, step, step_reaper, step_fwd, step_lines, step_kill,
    Protocol, wg_done, kill_returns, with_cl, with_reaper, with_fwd,
    with_lines, with_kill, with_child, with_receiving.
  cbn. intros Hinv Hk Hstep.
  destruct l; cbn in Hstep; kill_cases; kill_done.
Qed.

Lemma exec_inv_kill (ls : list Label) (w w' : World) :
  inv w -> inv_kill w -> exec ls w = Some w' -> inv w' /\ inv_kill w'.
Proof.
  revert w. induction ls as [|l ls IH]; intros w Hinv Hk Hexec; cbn in Hexec.
  - inversion Hexec; subst. now split.
  - destruct (step l w) as [w1|] eqn:Hstep; [|discriminate].
    apply (IH w1); [| |assumption].
    + now apply (step_inv l w).
    + now apply (step_inv_kill l w).
Qed.

(** Once set, [exited] stays set. *)
Lemma step_exited (l : Label) (w w' : World) :
  step l w = Some w' -> exited (cl w) = true -> exited (cl w') = true.
Proof.
  destruct w as [c alive recv rp fw ln kl kr].
  destruct c as [cfg ex ad pr pt dc cw sw pk].
  unfold step, step_reaper, step_fwd, step_lines, step_kill,
    Protocol, wg_done, kill_returns, with_cl, with_reaper, with_fwd,
    with_lines, with_kill, with_child, with_receiving.
  cbn. intros Hstep Hex.
  destruct l; cbn in Hstep; kill_cases; cbn; congruence.
Qed.

Lemma exec_exited (ls : list Label) (w w' : World) :
  exec ls w = Some w' -> exited (cl w) = true -> exited (cl w') = true.
Proof.
  revert w. induction ls as [|l ls IH]; intros w Hexec Hex; cbn in Hexec.
  - now inversion Hexec; subst.
  - destruct (step l w) as [w1|] eqn:Hstep; [|discriminate].
    apply (IH w1); [assumption|]. now apply (step_exited l w).
Qed.

Variable ResolveTCPAddr : string -> string -> option TCPAddr * option error.
Variable ResolveUnixAddr : string -> string -> option UnixAddr * option error.

(** What [Start] on a new client leaves in it once the child is spawned,
    whatever the select then does. *)
Lemma Start_new_spawned (cfg : ClientConfig) (p : Process) (ev : Awaited)
      (ra : option Addr) (re : option error) (c : Client) (tr : list Event) :
  run (Start ResolveTCPAddr ResolveUnixAddr (NewClient cfg)
         (Fixtures.spawn_ok p ev))
  = ((ra, re, c), tr) ->
  clientWg c = 3%nat /\ stderrWg c = 1%nat /\ exited c = false
  /\ proc c = Some p /\ procKilled c = false /\ proto c = false
  /\ doneCtx c = Some false
  /\ (re <> None -> addr c = None).
Proof.
  rewrite Start_spawned_run by reflexivity. cbv zeta.
  destruct (sel_return _) as [[ra' re']|]; intros H; inversion H; subst; cbn.
  - repeat split.
  - repeat split. intros Hne. now contradiction Hne.
Qed.

Lemma inv_after_spawn (cfg : ClientConfig) (p : Process) (ev : Awaited)
      (ra : option Addr) (re : option error) (c : Client) (tr : list Event) :
  run (Start ResolveTCPAddr ResolveUnixAddr (NewClient cfg)
         (Fixtures.spawn_ok p ev))
  = ((ra, re, c), tr) ->
  inv (world_after_start c) /\ inv_kill (world_after_start c).
Proof.
  intros H. apply Start_new_spawned in H.
  destruct H as (Hc & Hs & He & Hp & Hk & Hpt & Hd & Ha).
  unfold inv, inv_kill, world_after_start. cbn.
  rewrite Hc, Hs, He, Hp, Hk.
  repeat split; try discriminate; intros;
    repeat match goal with
           | H : _ \/ _ |- _ => destruct H
           end;
    try discriminate; lia.
Qed.

End KillMoreFacts.

(** X24. [Kill] without an address. After a [Start] on a new supervisor
    that spawned the child and then returned an error, the supervisor
    has a process and no address. In every interleaving of its tasks with
    calls of [Kill], no call ever waits for a graceful exit, and once a
    call has returned, [killed] answers true and the child is dead:
    such a child is always killed by force. ([proc.Kill()] is taken to
    end the child.) *)
Theorem Kill_without_address_forces
  (ResolveTCPAddr : string -> string
                    -> option Supervisor.TCPAddr * option error)
  (ResolveUnixAddr : string -> string
                     -> option Supervisor.UnixAddr * option error)
  (cfg : Supervisor.ClientConfig) (p : Supervisor.Process)
  (ev : Supervisor.Awaited)
  (ra : option Supervisor.Addr) (e : error) (c : Supervisor.Client)
  (tr : list Event) (ls : list Supervisor.Label) (w : Supervisor.World) :
  run (Supervisor.Start ResolveTCPAddr ResolveUnixAddr
         (Supervisor.NewClient cfg) (Fixtures.spawn_ok p ev))
  = ((ra, Some e, c), tr) ->
  Supervisor.exec ls (Supervisor.world_after_start c) = Some w ->
  (forall q, Supervisor.kill w <> Supervisor.KAwaitExit q)
  /\ ((0 < Supervisor.kills_returned w)%nat ->
      KillMore.killed (Supervisor.cl w) = true
      /\ Supervisor.child_alive w = false).
Proof.
  intros Hstart Hexec.
  pose proof (Start_new_spawned _ _ _ _ _ _ _ _ _ Hstart)
    as (_ & _ & _ & _ & _ & _ & _ & Ha).
  assert (Hnone : Supervisor.addr (Supervisor.cl w) = None).
  { rewrite (exec_addr _ _ _ Hexec). cbn. apply Ha. discriminate. }
  destruct (inv_after_spawn _ _ _ _ _ _ _ _ _ Hstart) as [Hi Hk].
  destruct (exec_inv_kill _ _ _ Hi Hk Hexec)
    as (_ & (_ & Hdead & _ & Hjoin & Hwait)).
  split.
  - intros q Hq. specialize (Hwait Hnone). now rewrite Hq in Hwait.
  - intros Hret. unfold KillMore.killed.
    destruct Hjoin as [_ Hforce]; [right; right; exact Hret|].
    specialize (Hforce Hnone). split; [exact Hforce|].
    apply Hdead. now left.
Qed.

Lemma Kill_without_address_forces_witness :
  (forall q,
      Supervisor.kill
        (KillMore.after KillMore.forced_kill_no_addr KillMore.timed_out_client)
      <> Supervisor.KAwaitExit q)
  /\ ((0 < Supervisor.kills_returned
             (KillMore.after KillMore.forced_kill_no_addr
                             KillMore.timed_out_client))%nat ->
      KillMore.killed
        (Supervisor.cl
           (KillMore.after KillMore.forced_kill_no_addr
                           KillMore.timed_out_client)) = true
      /\ Supervisor.child_alive
           (KillMore.after KillMore.forced_kill_no_addr
                           KillMore.timed_out_client) = false).
Proof.
  apply (Kill_without_address_forces
           Fixtures.resolveTCP Fixtures.resolveUnix
           {| Supervisor.StartTimeout := 0 |}
           Fixtures.child Supervisor.GotTimeout
           None Supervisor.timeout_error
           KillMore.timed_out_client
           [ EvCmdStart; EvGo TaskLogStderr; EvGo TaskReaper;
             EvGo TaskLineReader ]
           KillMore.forced_kill_no_addr
           (KillMore.after KillMore.forced_kill_no_addr
                           KillMore.timed_out_client)).
  - vm_compute. reflexivity.
  - vm_compute. reflexivity.
Defined.

(** X25. [Kill] returns after the tasks. Take a new supervisor whose
    [Start] spawned the child, whatever [Start] then returned, and any
    interleaving. Once a call of [Kill] has returned, both wait groups
    are at zero, the stderr forwarder and the line reader have run to
    their end, and the reaper is past its [clientWg.Done()]: it has at
    most its [ctxCancel()] left. *)
Theorem Kill_returns_after_tasks
  (ResolveTCPAddr : string -> string
                    -> option Supervisor.TCPAddr * option error)
  (ResolveUnixAddr : string -> string
                     -> option Supervisor.UnixAddr * option error)
  (cfg : Supervisor.ClientConfig) (p : Supervisor.Process)
  (ev : Supervisor.Awaited)
  (ra : option Supervisor.Addr) (re : option error) (c : Supervisor.Client)
  (tr : list Event) (ls : list Supervisor.Label) (w : Supervisor.World) :
  run (Supervisor.Start ResolveTCPAddr ResolveUnixAddr
         (Supervisor.NewClient cfg) (Fixtures.spawn_ok p ev))
  = ((ra, re, c), tr) ->
  Supervisor.exec ls (Supervisor.world_after_start c) = Some w ->
  (0 < Supervisor.kills_returned w)%nat ->
  Supervisor.clientWg (Supervisor.cl w) = 0%nat
  /\ Supervisor.stderrWg (Supervisor.cl w) = 0%nat
  /\ Supervisor.fwd w = Supervisor.FExit
  /\ Supervisor.lines w = Supervisor.LnExit
  /\ (Supervisor.reaper w = Supervisor.RCancel
      \/ Supervisor.reaper w = Supervisor.RExit).
Proof.
  intros Hstart Hexec Hret.
  destruct (inv_after_spawn _ _ _ _ _ _ _ _ _ Hstart) as [Hi Hk].
  destruct (exec_inv_kill _ _ _ Hi Hk Hexec)
    as ((Hcw & Hsw & _) & (Hzero & _)).
  assert (Hz : Supervisor.clientWg (Supervisor.cl w) = 0%nat)
    by (apply Hzero; now right).
  rewrite Hz in Hcw. rewrite Hsw.
  destruct (Supervisor.fwd w), (Supervisor.lines w), (Supervisor.reaper w);
    cbn in Hcw |- *; try discriminate Hcw; repeat split; auto.
Qed.

Lemma Kill_returns_after_tasks_witness :
  Supervisor.clientWg (Supervisor.cl Fixtures.killed_world) = 0%nat
  /\ Supervisor.stderrWg (Supervisor.cl Fixtures.killed_world) = 0%nat
  /\ Supervisor.fwd Fixtures.killed_world = Supervisor.FExit
  /\ Supervisor.lines Fixtures.killed_world = Supervisor.LnExit
  /\ (Supervisor.reaper Fixtures.killed_world = Supervisor.RCancel
      \/ Supervisor.reaper Fixtures.killed_world = Supervisor.RExit).
Proof.
  apply (Kill_returns_after_tasks
           Fixtures.resolveTCP Fixtures.resolveUnix
           {| Supervisor.StartTimeout := 0 |}
           Fixtures.child (Supervisor.GotLine "tcp|:1234")
           (Some (Supervisor.AddrTCP
                    (Some {| Supervisor.IP := []; Supervisor.Port := 1234;
                             Supervisor.Zone := "" |})))
           None
           Fixtures.started_client
           [ EvCmdStart; EvGo TaskLogStderr; EvGo TaskReaper;
             EvGo TaskLineReader ]
           Fixtures.forced_kill Fixtures.killed_world).
  - vm_compute. reflexivity.
  - vm_compute. reflexivity.
  - vm_compute. lia.
Defined.

(** X26. What [killed] tells. In any interleaving after a [Start] that
    spawned the child: when [killed] answers true the child is dead
    ([proc.Kill()] is taken to end it); and
    when a call of [Kill] has returned and [killed] still answers false,
    the supervisor has an address and a cached client runtime, and the
    reaper has cancelled [doneCtx]: the child went away on its own after
    the runtime was closed. *)
Theorem killed_tells_forced
  (ResolveTCPAddr : string -> string
                    -> option Supervisor.TCPAddr * option error)
  (ResolveUnixAddr : string -> string
                     -> option Supervisor.UnixAddr * option error)
  (cfg : Supervisor.ClientConfig) (p : Supervisor.Process)
  (ev : Supervisor.Awaited)
  (ra : option Supervisor.Addr) (re : option error) (c : Supervisor.Client)
  (tr : list Event) (ls : list Supervisor.Label) (w : Supervisor.World) :
  run (Supervisor.Start ResolveTCPAddr ResolveUnixAddr
         (Supervisor.NewClient cfg) (Fixtures.spawn_ok p ev))
  = ((ra, re, c), tr) ->
  Supervisor.exec ls (Supervisor.world_after_start c) = Some w ->
  (KillMore.killed (Supervisor.cl w) = true ->
   Supervisor.child_alive w = false)
  /\ ((0 < Supervisor.kills_returned w)%nat ->
      KillMore.killed (Supervisor.cl w) = false ->
      Supervisor.addr (Supervisor.cl w) <> None
      /\ Supervisor.proto (Supervisor.cl w) = true
      /\ Supervisor.doneCtx (Supervisor.cl w) = Some true).
Proof.
  intros Hstart Hexec.
  destruct (inv_after_spawn _ _ _ _ _ _ _ _ _ Hstart) as [Hi Hk].
  destruct (exec_inv_kill _ _ _ Hi Hk Hexec)
    as (_ & (_ & Hdead & _ & Hjoin & _)).
  unfold KillMore.killed. split.
  - intros Hkilled. apply Hdead. now left.
  - intros Hret Hnot.
    destruct Hjoin as [Hgr Hforce]; [right; right; exact Hret|].
    destruct (Hgr Hnot) as [Hpt Hdc].
    split; [|now split].
    intros Hnone. specialize (Hforce Hnone). congruence.
Qed.

Lemma killed_tells_forced_witness :
  (KillMore.killed
     (Supervisor.cl (KillMore.after KillMore.graceful_kill
                                    Fixtures.started_client)) = true ->
   Supervisor.child_alive
     (KillMore.after KillMore.graceful_kill Fixtures.started_client) = false)
  /\ ((0 < Supervisor.kills_returned
             (KillMore.after KillMore.graceful_kill
                             Fixtures.started_client))%nat ->
      KillMore.killed
        (Supervisor.cl (KillMore.after KillMore.graceful_kill
                                       Fixtures.started_client)) = false ->
      Supervisor.addr
        (Supervisor.cl (KillMore.after KillMore.graceful_kill
                                       Fixtures.started_client)) <> None
      /\ Supervisor.proto
           (Supervisor.cl (KillMore.after KillMore.graceful_kill
                                          Fixtures.started_client)) = true
      /\ Supervisor.doneCtx
           (Supervisor.cl (KillMore.after KillMore.graceful_kill
                                          Fixtures.started_client))
         = Some true).
Proof.
  apply (killed_tells_forced
           Fixtures.resolveTCP Fixtures.resolveUnix
           {| Supervisor.StartTimeout := 0 |}
           Fixtures.child (Supervisor.GotLine "tcp|:1234")
           (Some (Supervisor.AddrTCP
                    (Some {| Supervisor.IP := []; Supervisor.Port := 1234;
                             Supervisor.Zone := "" |})))
           None
           Fixtures.started_client
           [ EvCmdStart; EvGo TaskLogStderr; EvGo TaskReaper;
             EvGo TaskLineReader ]
           KillMore.graceful_kill
           (KillMore.after KillMore.graceful_kill Fixtures.started_client)).
  - vm_compute. reflexivity.
  - vm_compute. reflexivity.
Defined.

Example graceful_kill_runs :
  Supervisor.exec KillMore.graceful_kill
    (Supervisor.world_after_start Fixtures.started_client)
  = Some (KillMore.after KillMore.graceful_kill Fixtures.started_client)
  /\ Supervisor.kills_returned
       (KillMore.after KillMore.graceful_kill Fixtures.started_client) = 1%nat
  /\ KillMore.killed
       (Supervisor.cl (KillMore.after KillMore.graceful_kill
                                      Fixtures.started_client)) = false.
Proof. vm_compute. repeat split. Qed.

(** X27. [Exited] is about the child. In any interleaving after a [Start]
    that spawned the child, when [Exited] answers true the child has
    terminated, and in whatever happens afterwards [Exited] keeps
    answering true. *)
Theorem Exited_means_terminated
  (ResolveTCPAddr : string -> string
                    -> option Supervisor.TCPAddr * option error)
  (ResolveUnixAddr : string -> string
                     -> option Supervisor.UnixAddr * option error)
  (cfg : Supervisor.ClientConfig) (p : Supervisor.Process)
  (ev : Supervisor.Awaited)
  (ra : option Supervisor.Addr) (re : option error) (c : Supervisor.Client)
  (tr : list Event) (ls : list Supervisor.Label) (w : Supervisor.World) :
  run (Supervisor.Start ResolveTCPAddr ResolveUnixAddr
         (Supervisor.NewClient cfg) (Fixtures.spawn_ok p ev))
  = ((ra, re, c), tr) ->
  Supervisor.exec ls (Supervisor.world_after_start c) = Some w ->
  Supervisor.Exited (Supervisor.cl w) = true ->
  Supervisor.child_alive w = false
  /\ forall ls' w',
       Supervisor.exec ls' w = Some w' ->
       Supervisor.Exited (Supervisor.cl w') = true.
Proof.
  intros Hstart Hexec Hex.
  destruct (inv_after_spawn _ _ _ _ _ _ _ _ _ Hstart) as [Hi _].
  pose proof (exec_inv _ _ _ Hi Hexec) as (_ & _ & (Hm & Hw) & _).
  unfold Supervisor.Exited in *. split.
  - apply Hw. rewrite Hex in Hm.
    destruct (Supervisor.reaper w); cbn in Hm |- *; congruence.
  - intros ls' w' Hexec'. now apply (exec_exited ls' w).
Qed.

Lemma Exited_means_terminated_witness :
  Supervisor.child_alive Fixtures.killed_world = false
  /\ forall ls' w',
       Supervisor.exec ls' Fixtures.killed_world = Some w' ->
       Supervisor.Exited (Supervisor.cl w') = true.
Proof.
  apply (Exited_means_terminated
           Fixtures.resolveTCP Fixtures.resolveUnix
           {| Supervisor.StartTimeout := 0 |}
           Fixtures.child (Supervisor.GotLine "tcp|:1234")
           (Some (Supervisor.AddrTCP
                    (Some {| Supervisor.IP := []; Supervisor.Port := 1234;
                             Supervisor.Zone := "" |})))
           None
           Fixtures.started_client
           [ EvCmdStart; EvGo TaskLogStderr; EvGo TaskReaper;
             EvGo TaskLineReader ]
           Fixtures.forced_kill Fixtures.killed_world).
  - vm_compute. reflexivity.
  - vm_compute. reflexivity.
  - vm_compute. reflexivity.
Defined.

(** ** The tasks while [Start] holds the lock

    [Start] locks [c.l] on entry and unlocks it when it returns. The
    tasks it spawns run while it waits in its select, but a step that
    locks [c.l] has to wait for [Start] to return. *)

Module StartLock.

Import Supervisor.

(** Whether the next step of the labelled thread locks [c.l]: the
    reaper's [c.exited = true]; in [Kill] the snapshot of [proc] and
    [addr], [Protocol] (which calls [Start]), [c.procKilled = true] and
    [c.proc = nil]. *)
Definition takes_lock (l : Label) (w : World) : bool :=
  match l with
  | LReaper =>
      match reaper w with
      | RSetExited => true
      | _ => false
      end
  | LKill =>
      match kill w with
      | KSnapshot | KMark | KClear => true
      | _ => false
      end
  | LKillClose _ _ => true
  | _ => false
  end.

(** A step of the system while [Start] holds the lock. *)
Definition step_locked (l : Label) (w : World) : option World :=
  if takes_lock l w then None else step l w.

Fixpoint exec_locked (ls : list Label) (w : World) : option World :=
  match ls with
  | [] => Some w
  | l :: ls' =>
      match step_locked l w with
      | Some w' => exec_locked ls' w'
      | None => None
      end
  end.

(** The client as it is while [Start] waits in its select: the address
    is assigned only after the select. *)
Definition waiting (c : Client) : Client := set_addr c None.

(** A run in which the child exits at once and every task goes as far as
    it can: the reaper stops at its [c.l.Lock()]. *)
Definition child_exits_early : list Label :=
  [ LChildExits; LFwd; LFwd; LFwd; LLines false; LLines false; LLines false;
    LReaper; LReaper ].

Definition blocked_world (c : Client) : World :=
  default (world_after_start (waiting c))
          (exec_locked child_exits_early (world_after_start (waiting c))).

End StartLock.

Section StartLockFacts.

Import Supervisor StartLock.

(** While the lock is held the reaper has not marked the exit, the
    context is not cancelled, and no [Kill] is past its snapshot. *)
Definition held (w : World) : Prop :=
  doneCtx (cl w) = Some false
  /\ exited (cl w) = false
  /\ reaper_marked (reaper w) = false
  /\ kills_returned w = 0%nat
  /\ (kill w = KIdle \/ kill w = KSnapshot).

Lemma step_locked_held (l : Label) (w w' : World) :
  held w -> step_locked l w = Some w' -> held w'.
Proof.
  destruct w as [c alive recv rp fw ln kl kr].
  destruct c as [cfg ex ad pr pt dc cw sw pk].
  unfold held, step_locked, takes_lock, step, step_reaper, step_fwd,
    step_lines, step_kill, Protocol, wg_done, kill_returns, with_cl,
    with_reaper, with_fwd, with_lines, with_kill, with_child, with_receiving.
  cbn. intros (Hd & He & Hm & Hr & Hk) Hstep. subst.
  destruct l, rp, kl; cbn in Hstep; try discriminate;
    try (destruct Hk; discriminate);
    repeat match goal with
           | H : Some _ = Some _ |- _ => inversion H; clear H; subst
           | H : None = Some _ |- _ => discriminate H
           | H : context [match ?x with _ => _ end] |- _ =>
               let E := fresh "E" in destruct x eqn:E; cbn in H
           end;
    cbn; repeat split; auto; try discriminate.
Qed.

Lemma exec_locked_held (ls : list Label) (w w' : World) :
  held w -> exec_locked ls w = Some w' -> held w'.
Proof.
  revert w. induction ls as [|l ls IH]; intros w Hh Hexec; cbn in Hexec.
  - now inversion Hexec; subst.
  - destruct (step_locked l w) as [w1|] eqn:Hstep; [|discriminate].
    apply (IH w1); [|assumption]. now apply (step_locked_held l w).
Qed.

End StartLockFacts.

(** X28. [Start] cannot see the child exit. [Start] holds the lock while
    it waits for the first line, and the reaper cancels [doneCtx] only
    after it has taken the lock to set [exited]. So in every interleaving
    of the spawned tasks and the child's exit during that wait,
    [doneCtx] stays uncancelled, [exited] stays false, and the reaper
    never gets past its wait for the lock. *)
Theorem Start_lock_blocks_exit
  (ResolveTCPAddr : string -> string
                    -> option Supervisor.TCPAddr * option error)
  (ResolveUnixAddr : string -> string
                     -> option Supervisor.UnixAddr * option error)
  (cfg : Supervisor.ClientConfig) (p : Supervisor.Process)
  (ev : Supervisor.Awaited)
  (ra : option Supervisor.Addr) (re : option error) (c : Supervisor.Client)
  (tr : list Event) (ls : list Supervisor.Label) (w : Supervisor.World) :
  run (Supervisor.Start ResolveTCPAddr ResolveUnixAddr
         (Supervisor.NewClient cfg) (Fixtures.spawn_ok p ev))
  = ((ra, re, c), tr) ->
  StartLock.exec_locked ls
    (Supervisor.world_after_start (StartLock.waiting c)) = Some w ->
  Supervisor.doneCtx (Supervisor.cl w) = Some false
  /\ Supervisor.Exited (Supervisor.cl w) = false
  /\ Supervisor.reaper w <> Supervisor.RClientWgDone
  /\ Supervisor.reaper w <> Supervisor.RCancel
  /\ Supervisor.reaper w <> Supervisor.RExit.
Proof.
  intros Hstart Hexec.
  pose proof (Start_new_spawned _ _ _ _ _ _ _ _ _ Hstart)
    as (_ & _ & He & _ & _ & _ & Hd & _).
  assert (Hh : held (Supervisor.world_after_start (StartLock.waiting c))).
  { unfold held, Supervisor.world_after_start, StartLock.waiting. cbn.
    repeat split; auto. }
  destruct (exec_locked_held _ _ _ Hh Hexec) as (Hd' & He' & Hm & _).
  unfold Supervisor.Exited. repeat split; try assumption;
    intros Hr; rewrite Hr in Hm; discriminate Hm.
Qed.

Lemma Start_lock_blocks_exit_witness :
  Supervisor.doneCtx
    (Supervisor.cl (StartLock.blocked_world KillMore.timed_out_client))
  = Some false
  /\ Supervisor.Exited
       (Supervisor.cl (StartLock.blocked_world KillMore.timed_out_client))
     = false
  /\ Supervisor.reaper (StartLock.blocked_world KillMore.timed_out_client)
     <> Supervisor.RClientWgDone
  /\ Supervisor.reaper (StartLock.blocked_world KillMore.timed_out_client)
     <> Supervisor.RCancel
  /\ Supervisor.reaper (StartLock.blocked_world KillMore.timed_out_client)
     <> Supervisor.RExit.
Proof.
  apply (Start_lock_blocks_exit
           Fixtures.resolveTCP Fixtures.resolveUnix
           {| Supervisor.StartTimeout := 0 |}
           Fixtures.child Supervisor.GotTimeout
           None (Some Supervisor.timeout_error)
           KillMore.timed_out_client
           [ EvCmdStart; EvGo TaskLogStderr; EvGo TaskReaper;
             EvGo TaskLineReader ]
           StartLock.child_exits_early
           (StartLock.blocked_world KillMore.timed_out_client)).
  - vm_compute. reflexivity.
  - vm_compute. reflexivity.
Defined.

(** The child has exited and the reaper has seen it, but its next step
    is enabled only once [Start] has let go of the lock. *)
Example reaper_waits_for_Start :
  Supervisor.reaper (StartLock.blocked_world KillMore.timed_out_client)
  = Supervisor.RSetExited
  /\ Supervisor.child_alive
       (StartLock.blocked_world KillMore.timed_out_client) = false
  /\ StartLock.step_locked Supervisor.LReaper
       (StartLock.blocked_world KillMore.timed_out_client) = None
  /\ Supervisor.step Supervisor.LReaper
       (StartLock.blocked_world KillMore.timed_out_client) <> None.
Proof. vm_compute. repeat split. discriminate. Qed.
